(** * STUDENTS-API: the create-student endpoint and its hosting server

    A shallow embedding of the Go sources

      - internal/utils/response/response.go   (Module [response])
      - the create-student handler             (Module [student])
      - the configuration loader               (Module [config])
      - the program entry point                (Module [main])

    together with models of the library calls they make: [strings.Join],
    [fmt.Sprintf], [flag.Parse], [encoding/json] (encoder, scanner, decoder),
    [net/http]'s response writer and server, and
    [go-playground/validator].  Go strings and byte slices are Rocq
    [string]s (sequences of 8-bit [ascii] values); Go [int] is [Z]. *)

From Stdlib Require Import String Ascii List ZArith Bool Lia DecimalString.
From Stdlib Require DecimalPos.
Import ListNotations.
Open Scope string_scope.
Open Scope Z_scope.
Set Warnings "-register-all,-abstract-large-number".

(** ** Bytes *)

Definition byte_val (c : ascii) : Z := Z.of_N (N_of_ascii c).
Definition byte_of (n : Z) : ascii := ascii_of_N (Z.to_N (n mod 256)).

Definition in_range (lo hi : Z) (c : ascii) : bool :=
  (lo <=? byte_val c) && (byte_val c <=? hi).

Definition is_digit (c : ascii) : bool := in_range 48 57 c.

(** ** Go's [error] values

    The error values that can reach this program.  [io_EOF] and
    [io_ErrUnexpectedEOF] are the two sentinel variables of package io:
    [errors.Is] compares against them by identity, so they are
    constructors of their own and not [errorString]s. *)
Inductive error : Type :=
| errorString (s : string)                 (* errors.New, fmt.Errorf without verbs *)
| io_EOF
| io_ErrUnexpectedEOF
| SyntaxError (msg : string)               (* *json.SyntaxError *)
| UnmarshalTypeError (Value Type_ Struct Field : string)
| UnsupportedTypeError (Type_ : string)    (* *json.UnsupportedTypeError *)
| ErrBodyNotAllowed                        (* http.ErrBodyNotAllowed *)
| connError (msg : string).                (* a failed write on the connection *)

(** The [Error() string] method. *)
Definition Error_ (e : error) : string :=
  match e with
  | errorString s => s
  | io_EOF => "EOF"
  | io_ErrUnexpectedEOF => "unexpected EOF"
  | SyntaxError msg => msg
  | UnmarshalTypeError v t s f =>
      if ((s =? "") && (f =? ""))%string
      then "json: cannot unmarshal " ++ v ++ " into Go value of type " ++ t
      else "json: cannot unmarshal " ++ v ++ " into Go struct field " ++ s ++ "." ++ f
           ++ " of type " ++ t
  | UnsupportedTypeError t => "json: unsupported type: " ++ t
  | ErrBodyNotAllowed => "http: request method or response status code does not allow body"
  | connError msg => msg
  end.

(** [errors.Is(err, io.EOF)] for the unwrapped errors above. *)
Definition Is_EOF (err : option error) : bool :=
  match err with
  | Some io_EOF => true
  | _ => false
  end.

(** ** Package strings *)
Module strings.

(** [strings.Join]: no element gives the empty string, one element is
    returned as it is, otherwise the first element followed by separator
    and element for each of the others. *)
Definition Join (elems : list string) (sep : string) : string :=
  match elems with
  | [] => ""
  | [e] => e
  | e0 :: rest => fold_left (fun b s => b ++ sep ++ s) rest e0
  end.

End strings.

(** ** Package fmt *)
Module fmt.

(** [fmt.Sprintf] for a format whose only verb is one [%s], applied to a
    string operand: the operand's bytes replace the verb. *)
Fixpoint Sprintf (format : string) (a : string) : string :=
  match format with
  | EmptyString => EmptyString
  | String "%" (String "s" rest) => a ++ rest
  | String c rest => String c (Sprintf rest a)
  end.

(** [fmt.Errorf] with a format without verbs. *)
Definition Errorf (format : string) : error := errorString format.

End fmt.

(** ** Package unicode/utf8 *)
Module utf8.

Definition RuneError : Z := 65533.
Definition MaxRune : Z := 1114111.

Definition cont (c : ascii) : bool := in_range 128 191 c.
Definition low6 (c : ascii) : Z := Z.land (byte_val c) 63.

(** [utf8.DecodeRuneInString]: the rune at the head of [s] and its width
    in bytes; an invalid or truncated encoding is [(RuneError, 1)], the
    empty string [(RuneError, 0)].  The cases follow the table [first]
    and its [acceptRanges]. *)
Definition DecodeRuneInString (s : string) : Z * nat :=
  match s with
  | EmptyString => (RuneError, 0%nat)
  | String s0 t =>
      let b := byte_val s0 in
      if b <? 128 then (b, 1%nat)
      else if b <? 194 then (RuneError, 1%nat)
      else if b <? 224 then
        match t with
        | String s1 _ =>
            if cont s1 then (Z.shiftl (Z.land b 31) 6 + low6 s1, 2%nat)
            else (RuneError, 1%nat)
        | _ => (RuneError, 1%nat)
        end
      else if b <? 240 then
        let lo := if b =? 224 then 160 else 128 in
        let hi := if b =? 237 then 159 else 191 in
        match t with
        | String s1 (String s2 _) =>
            if in_range lo hi s1 && cont s2
            then (Z.shiftl (Z.land b 15) 12 + Z.shiftl (low6 s1) 6 + low6 s2, 3%nat)
            else (RuneError, 1%nat)
        | _ => (RuneError, 1%nat)
        end
      else if b <? 245 then
        let lo := if b =? 240 then 144 else 128 in
        let hi := if b =? 244 then 143 else 191 in
        match t with
        | String s1 (String s2 (String s3 _)) =>
            if in_range lo hi s1 && cont s2 && cont s3
            then (Z.shiftl (Z.land b 7) 18 + Z.shiftl (low6 s1) 12
                  + Z.shiftl (low6 s2) 6 + low6 s3, 4%nat)
            else (RuneError, 1%nat)
        | _ => (RuneError, 1%nat)
        end
      else (RuneError, 1%nat)
  end.

Definition str1 (a : Z) : string := String (byte_of a) EmptyString.

(** [utf8.EncodeRune] / [utf8.AppendRune]: surrogates and values beyond
    [MaxRune] are written as [RuneError]. *)
Definition EncodeRune (r : Z) : string :=
  let enc3 (r : Z) :=
    str1 (224 + Z.shiftr r 12) ++ str1 (128 + Z.land (Z.shiftr r 6) 63)
    ++ str1 (128 + Z.land r 63) in
  if (r <? 0) || (MaxRune <? r) || ((55296 <=? r) && (r <=? 57343)) then enc3 RuneError
  else if r <=? 127 then str1 r
  else if r <=? 2047 then str1 (192 + Z.shiftr r 6) ++ str1 (128 + Z.land r 63)
  else if r <=? 65535 then enc3 r
  else str1 (240 + Z.shiftr r 18) ++ str1 (128 + Z.land (Z.shiftr r 12) 63)
       ++ str1 (128 + Z.land (Z.shiftr r 6) 63) ++ str1 (128 + Z.land r 63).

End utf8.

(** ** Writing JSON text

    The double quote and the backslash are named, and [q s] is [s]
    between double quotes.  [jsonText] turns every apostrophe of a
    literal into a double quote, for writing request bodies. *)
Definition dquote : ascii := "034"%char.
Definition bslash : ascii := "092"%char.
Definition newline : ascii := "010"%char.
Definition q (s : string) : string := String dquote (s ++ String dquote EmptyString).

Fixpoint jsonText (s : string) : string :=
  match s with
  | EmptyString => EmptyString
  | String c t => String (if (c =? "'")%char then dquote else c) (jsonText t)
  end.

Fixpoint drop (n : nat) (s : string) : string :=
  match n, s with
  | S k, String _ t => drop k t
  | _, _ => s
  end.

Fixpoint take (n : nat) (s : string) : string :=
  match n, s with
  | S k, String c t => String c (take k t)
  | _, _ => EmptyString
  end.

(** [utf8.RuneCountInString]: an invalid byte counts as one rune.
    [fuel] bounds the iterations, each of which consumes a byte at
    least. *)
Fixpoint runeCount (fuel : nat) (s : string) : nat :=
  match fuel, s with
  | S fuel', String _ _ =>
      S (runeCount fuel' (drop (snd (utf8.DecodeRuneInString s)) s))
  | _, _ => O
  end.

Definition RuneCountInString (s : string) : nat := runeCount (String.length s) s.

(** ** Reflection: the view of a Go value the libraries work on

    [encoding/json] and the validator reach a value through package
    reflect.  A struct type is the list of its fields in declaration
    order; a struct value gives each field its value. *)
Inductive Kind : Type := KString | KInt.

Inductive Value : Type :=
| VString (s : string)
| VInt (n : Z).

Definition zeroValue (k : Kind) : Value :=
  match k with
  | KString => VString ""
  | KInt => VInt 0
  end.

Definition kindName (k : Kind) : string :=
  match k with
  | KString => "string"
  | KInt => "int"
  end.

(** The constraints of a [validate:"..."] struct tag; [gt param] is
    the tag [gt=param]. *)
Inductive Tag : Type := required | email | gt (param : Z).

Record StructField : Type := {
  fieldName : string;       (* the Go name of the field *)
  fieldJSON : string;       (* the key of the field in a JSON object *)
  fieldKind : Kind;
  fieldValidate : list Tag  (* the tags of validate:"...", in order *)
}.

Record StructType : Type := {
  typeName : string;        (* the name of the struct type *)
  typeString : string;      (* reflect.Type.String(), with the package *)
  typeFields : list StructField
}.

(** What the program passes as [interface{}] / [any]. *)
Inductive any : Type :=
| any_struct (fields : list (string * string))
    (* a struct value whose fields are strings: JSON key and value, in
       declaration order *)
| any_map (m : list (string * string))   (* a map[string]string *)
| any_func.                              (* a value of function type *)

(** ** Effects: a state monad with panics *)
Inductive Completion (A : Type) : Type :=
| Returned (a : A)
| Panicked (msg : string).
Arguments Returned {A} a.
Arguments Panicked {A} msg.

Definition Eff (S A : Type) : Type := S -> Completion A * S.

Definition ret {S A : Type} (a : A) : Eff S A := fun s => (Returned a, s).

Definition bind {S A B : Type} (m : Eff S A) (k : A -> Eff S B) : Eff S B :=
  fun s =>
    match m s with
    | (Returned a, s') => k a s'
    | (Panicked msg, s') => (Panicked msg, s')
    end.

Definition panic {S A : Type} (msg : string) : Eff S A := fun s => (Panicked msg, s).

Declare Scope eff_scope.
Delimit Scope eff_scope with eff.
Notation "x <- m ;; k" := (bind m (fun x => k))
  (at level 61, m at next level, right associativity) : eff_scope.
Notation "m ;; k" := (bind m (fun _ => k))
  (at level 61, right associativity) : eff_scope.
Open Scope eff_scope.

(** ** Package encoding/json *)
Module json.

Definition hex : string := "0123456789abcdef".
Definition hexdig (n : Z) : ascii :=
  match get (Z.to_nat n) hex with
  | Some c => c
  | None => "0"%char
  end.

(** [htmlSafeSet]: the ASCII bytes written as they are. *)
Definition htmlSafe (c : ascii) : bool :=
  let b := byte_val c in
  (32 <=? b) && (b <? 128)
  && negb ((b =? 34) || (b =? 38) || (b =? 60) || (b =? 62) || (b =? 92)).

(** The escape of an ASCII byte outside [htmlSafeSet]. *)
Definition escapeByte (c : ascii) : string :=
  let b := byte_val c in
  if (b =? 92) || (b =? 34) then String bslash (String c EmptyString)
  else if b =? 8 then String bslash "b"
  else if b =? 12 then String bslash "f"
  else if b =? 10 then String bslash "n"
  else if b =? 13 then String bslash "r"
  else if b =? 9 then String bslash "t"
  else String bslash ("u00" ++ String (hexdig (Z.shiftr b 4))
                                (String (hexdig (Z.land b 15)) EmptyString)).

(** The loop of [appendString] with [escapeHTML] set (the encoder's
    default); [fuel] bounds the iterations, each of which consumes at
    least one byte. *)
Fixpoint appendString_loop (fuel : nat) (src : string) : string :=
  match fuel with
  | O => EmptyString
  | S fuel' =>
      match src with
      | EmptyString => EmptyString
      | String b t =>
          if byte_val b <? 128 then
            (if htmlSafe b then String b EmptyString else escapeByte b)
            ++ appendString_loop fuel' t
          else
            let (c, size) := utf8.DecodeRuneInString src in
            if (c =? utf8.RuneError) && Nat.eqb size 1 then
              String bslash "ufffd" ++ appendString_loop fuel' (drop size src)
            else if (c =? 8232) || (c =? 8233) then
              String bslash "u202" ++ String (hexdig (Z.land c 15)) EmptyString
              ++ appendString_loop fuel' (drop size src)
            else take size src ++ appendString_loop fuel' (drop size src)
      end
  end.

Definition appendString (src : string) : string :=
  q (appendString_loop (String.length src) src).

(** Map keys are written in sorted order (byte-wise). *)
Fixpoint insertKey (kv : string * string) (l : list (string * string))
  : list (string * string) :=
  match l with
  | [] => [kv]
  | kv' :: l' =>
      if String.leb (fst kv) (fst kv') then kv :: l else kv' :: insertKey kv l'
  end.

Definition sortKeys (m : list (string * string)) : list (string * string) :=
  fold_right insertKey [] m.

Definition member (kv : string * string) : string :=
  appendString (fst kv) ++ ":" ++ appendString (snd kv).

Definition object (members : list (string * string)) : string :=
  "{" ++ String.concat "," (map member members) ++ "}".

(** [json.Marshal] on the values of [any]. *)
Definition Marshal (v : any) : string + error :=
  match v with
  | any_struct fields => inl (object fields)
  | any_map m => inl (object (sortKeys m))
  | any_func => inr (UnsupportedTypeError "func()")
  end.


(** *** The scanner (scanner.go)

    A JSON scanning state machine: [step] consumes one byte and returns
    an op code. *)
Inductive Op : Type :=
| scanContinue | scanBeginLiteral | scanBeginObject | scanObjectKey
| scanObjectValue | scanEndObject | scanBeginArray | scanArrayValue
| scanEndArray | scanSkipSpace
| scanEnd | scanError.

Inductive ParseState : Type := parseObjectKey | parseObjectValue | parseArrayValue.

(** The value of the scanner's [step] field: which state function is
    to be called on the next byte. *)
Inductive StepFn : Type :=
| fnBeginValue | fnBeginValueOrEmpty | fnBeginStringOrEmpty | fnBeginString
| fnEndValue | fnEndTop
| fnInString | fnInStringEsc | fnInStringEscU | fnInStringEscU1
| fnInStringEscU12 | fnInStringEscU123
| fnNeg | fn1 | fn0 | fnDot | fnDot0 | fnE | fnESign | fnE0
| fnT | fnTr | fnTru | fnF | fnFa | fnFal | fnFals | fnN | fnNu | fnNul
| fnError.

(** [parseState] is kept with its top at the head of the list. *)
Record scanner : Type := {
  step : StepFn;
  endTop : bool;
  parseState : list ParseState;
  err : option error
}.

Definition maxNestingDepth : nat := 10000.

Definition reset : scanner :=
  {| step := fnBeginValue; endTop := false; parseState := []; err := None |}.

Definition setStep (s : scanner) (f : StepFn) : scanner :=
  {| step := f; endTop := endTop s; parseState := parseState s; err := err s |}.

Definition setTop (s : scanner) (p : ParseState) : scanner :=
  {| step := step s; endTop := endTop s;
     parseState := match parseState s with
                   | [] => []
                   | _ :: ps => p :: ps
                   end;
     err := err s |}.

Definition isSpace (c : ascii) : bool :=
  let b := byte_val c in (b =? 32) || (b =? 9) || (b =? 13) || (b =? 10).

Definition isHex (c : ascii) : bool :=
  is_digit c || in_range 97 102 c || in_range 65 70 c.

(** [strconv.IsPrint] on the runes below 256. *)
Definition IsPrint (b : Z) : bool :=
  ((32 <=? b) && (b <=? 126)) || ((161 <=? b) && (b <=? 255) && negb (b =? 173)).

(** [quoteChar]: a byte as it appears in a syntax error. *)
Definition quoteChar (c : ascii) : string :=
  let b := byte_val c in
  let two := String (hexdig (Z.shiftr b 4)) (String (hexdig (Z.land b 15)) EmptyString) in
  let inner :=
    if b =? 39 then String bslash "'"
    else if b =? 34 then String c EmptyString
    else if b =? 92 then String bslash (String bslash EmptyString)
    else if IsPrint b then utf8.EncodeRune b
    else if b =? 7 then String bslash "a"
    else if b =? 8 then String bslash "b"
    else if b =? 12 then String bslash "f"
    else if b =? 10 then String bslash "n"
    else if b =? 13 then String bslash "r"
    else if b =? 9 then String bslash "t"
    else if b =? 11 then String bslash "v"
    else if (b <? 32) || (b =? 127) then String bslash ("x" ++ two)
    else String bslash ("u00" ++ two) in
  "'" ++ inner ++ "'".

(** [s.error(c, context)] *)
Definition error_ (s : scanner) (c : ascii) (context : string) : Op * scanner :=
  (scanError,
   {| step := fnError; endTop := endTop s; parseState := parseState s;
      err := Some (SyntaxError ("invalid character " ++ quoteChar c ++ " " ++ context)) |}).

Definition pushParseState (s : scanner) (c : ascii) (newParseState : ParseState)
    (successState : Op) : Op * scanner :=
  let s' := {| step := step s; endTop := endTop s;
               parseState := newParseState :: parseState s; err := err s |} in
  if Nat.leb (List.length (parseState s')) maxNestingDepth then (successState, s')
  else error_ s' c "exceeded max depth".

Definition popParseState (s : scanner) : scanner :=
  let ps := tl (parseState s) in
  match ps with
  | [] => {| step := fnEndTop; endTop := true; parseState := ps; err := err s |}
  | _ => {| step := fnEndValue; endTop := endTop s; parseState := ps; err := err s |}
  end.

Definition stateEndTop (s : scanner) (c : ascii) : Op * scanner :=
  if negb (isSpace c) then (scanEnd, snd (error_ s c "after top-level value"))
  else (scanEnd, s).

Definition stateEndValue (s : scanner) (c : ascii) : Op * scanner :=
  match parseState s with
  | [] =>
      stateEndTop {| step := fnEndTop; endTop := true; parseState := []; err := err s |} c
  | ps :: _ =>
      if isSpace c then (scanSkipSpace, setStep s fnEndValue)
      else
        match ps with
        | parseObjectKey =>
            if (c =? ":")%char
            then (scanObjectKey, setStep (setTop s parseObjectValue) fnBeginValue)
            else error_ s c "after object key"
        | parseObjectValue =>
            if (c =? ",")%char
            then (scanObjectValue, setStep (setTop s parseObjectKey) fnBeginString)
            else if (c =? "}")%char then (scanEndObject, popParseState s)
            else error_ s c "after object key:value pair"
        | parseArrayValue =>
            if (c =? ",")%char then (scanArrayValue, setStep s fnBeginValue)
            else if (c =? "]")%char then (scanEndArray, popParseState s)
            else error_ s c "after array element"
        end
  end.

Definition stateBeginValue (s : scanner) (c : ascii) : Op * scanner :=
  if isSpace c then (scanSkipSpace, s)
  else if (c =? "{")%char
  then pushParseState (setStep s fnBeginStringOrEmpty) c parseObjectKey scanBeginObject
  else if (c =? "[")%char
  then pushParseState (setStep s fnBeginValueOrEmpty) c parseArrayValue scanBeginArray
  else if (c =? dquote)%char then (scanBeginLiteral, setStep s fnInString)
  else if (c =? "-")%char then (scanBeginLiteral, setStep s fnNeg)
  else if (c =? "0")%char then (scanBeginLiteral, setStep s fn0)
  else if (c =? "t")%char then (scanBeginLiteral, setStep s fnT)
  else if (c =? "f")%char then (scanBeginLiteral, setStep s fnF)
  else if (c =? "n")%char then (scanBeginLiteral, setStep s fnN)
  else if in_range 49 57 c then (scanBeginLiteral, setStep s fn1)
  else error_ s c "looking for beginning of value".

Definition stateBeginValueOrEmpty (s : scanner) (c : ascii) : Op * scanner :=
  if isSpace c then (scanSkipSpace, s)
  else if (c =? "]")%char then stateEndValue s c
  else stateBeginValue s c.

Definition stateBeginString (s : scanner) (c : ascii) : Op * scanner :=
  if isSpace c then (scanSkipSpace, s)
  else if (c =? dquote)%char then (scanBeginLiteral, setStep s fnInString)
  else error_ s c "looking for beginning of object key string".

Definition stateBeginStringOrEmpty (s : scanner) (c : ascii) : Op * scanner :=
  if isSpace c then (scanSkipSpace, s)
  else if (c =? "}")%char then stateEndValue (setTop s parseObjectValue) c
  else stateBeginString s c.

Definition stateInString (s : scanner) (c : ascii) : Op * scanner :=
  if (c =? dquote)%char then (scanContinue, setStep s fnEndValue)
  else if (c =? bslash)%char then (scanContinue, setStep s fnInStringEsc)
  else if byte_val c <? 32 then error_ s c "in string literal"
  else (scanContinue, s).

Definition isEscapeLetter (c : ascii) : bool :=
  let b := byte_val c in
  (b =? 98) || (b =? 102) || (b =? 110) || (b =? 114) || (b =? 116)
  || (b =? 92) || (b =? 47) || (b =? 34).

Definition stateInStringEsc (s : scanner) (c : ascii) : Op * scanner :=
  if isEscapeLetter c then (scanContinue, setStep s fnInString)
  else if (c =? "u")%char then (scanContinue, setStep s fnInStringEscU)
  else error_ s c "in string escape code".

(** The four states after a backslash and [u]: a hexadecimal digit
    leads to [next]. *)
Definition stateHex (next : StepFn) (s : scanner) (c : ascii) : Op * scanner :=
  if isHex c then (scanContinue, setStep s next)
  else error_ s c ("in " ++ String bslash "u hexadecimal character escape").

Definition state0 (s : scanner) (c : ascii) : Op * scanner :=
  if (c =? ".")%char then (scanContinue, setStep s fnDot)
  else if (c =? "e")%char || (c =? "E")%char then (scanContinue, setStep s fnE)
  else stateEndValue s c.

Definition state1 (s : scanner) (c : ascii) : Op * scanner :=
  if is_digit c then (scanContinue, setStep s fn1) else state0 s c.

Definition stateNeg (s : scanner) (c : ascii) : Op * scanner :=
  if (c =? "0")%char then (scanContinue, setStep s fn0)
  else if in_range 49 57 c then (scanContinue, setStep s fn1)
  else error_ s c "in numeric literal".

Definition stateDot (s : scanner) (c : ascii) : Op * scanner :=
  if is_digit c then (scanContinue, setStep s fnDot0)
  else error_ s c "after decimal point in numeric literal".

Definition stateDot0 (s : scanner) (c : ascii) : Op * scanner :=
  if is_digit c then (scanContinue, s)
  else if (c =? "e")%char || (c =? "E")%char then (scanContinue, setStep s fnE)
  else stateEndValue s c.

Definition stateESign (s : scanner) (c : ascii) : Op * scanner :=
  if is_digit c then (scanContinue, setStep s fnE0)
  else error_ s c "in exponent of numeric literal".

Definition stateE (s : scanner) (c : ascii) : Op * scanner :=
  if (c =? "+")%char || (c =? "-")%char then (scanContinue, setStep s fnESign)
  else stateESign s c.

Definition stateE0 (s : scanner) (c : ascii) : Op * scanner :=
  if is_digit c then (scanContinue, s) else stateEndValue s c.

(** The states inside [true], [false] and [null]: byte [want] leads to
    [next]. *)
Definition stateLit (want : ascii) (next : StepFn) (context : string)
    (s : scanner) (c : ascii) : Op * scanner :=
  if (c =? want)%char then (scanContinue, setStep s next)
  else error_ s c context.

(** [s.step(s, c)]: the call through the function value in [step]. *)
Definition callStep (s : scanner) (c : ascii) : Op * scanner :=
  match step s with
  | fnBeginValue => stateBeginValue s c
  | fnBeginValueOrEmpty => stateBeginValueOrEmpty s c
  | fnBeginStringOrEmpty => stateBeginStringOrEmpty s c
  | fnBeginString => stateBeginString s c
  | fnEndValue => stateEndValue s c
  | fnEndTop => stateEndTop s c
  | fnInString => stateInString s c
  | fnInStringEsc => stateInStringEsc s c
  | fnInStringEscU => stateHex fnInStringEscU1 s c
  | fnInStringEscU1 => stateHex fnInStringEscU12 s c
  | fnInStringEscU12 => stateHex fnInStringEscU123 s c
  | fnInStringEscU123 => stateHex fnInString s c
  | fnNeg => stateNeg s c
  | fn1 => state1 s c
  | fn0 => state0 s c
  | fnDot => stateDot s c
  | fnDot0 => stateDot0 s c
  | fnE => stateE s c
  | fnESign => stateESign s c
  | fnE0 => stateE0 s c
  | fnT => stateLit "r" fnTr "in literal true (expecting 'r')" s c
  | fnTr => stateLit "u" fnTru "in literal true (expecting 'u')" s c
  | fnTru => stateLit "e" fnEndValue "in literal true (expecting 'e')" s c
  | fnF => stateLit "a" fnFa "in literal false (expecting 'a')" s c
  | fnFa => stateLit "l" fnFal "in literal false (expecting 'l')" s c
  | fnFal => stateLit "s" fnFals "in literal false (expecting 's')" s c
  | fnFals => stateLit "e" fnEndValue "in literal false (expecting 'e')" s c
  | fnN => stateLit "u" fnNu "in literal null (expecting 'u')" s c
  | fnNu => stateLit "l" fnNul "in literal null (expecting 'l')" s c
  | fnNul => stateLit "l" fnEndValue "in literal null (expecting 'l')" s c
  | fnError => (scanError, s)
  end.

(** *** The decoder's framing (stream.go)

    [Decoder.readValue] runs the scanner over the input until one value
    is complete.  The request body is the whole input, so a refill that
    finds no more bytes is the end of the body. *)
Inductive Scan : Type :=
| Found (n : nat)          (* a value ends after [n] bytes *)
| Failed (e : error)       (* the scanner reported an error *)
| Exhausted (s : scanner). (* the buffer ran out in scanner state [s] *)

Definition scanErr (s : scanner) : error :=
  match err s with
  | Some e => e
  | None => SyntaxError ""
  end.

(** The loop over the buffer, from index [scanp]. *)
Fixpoint scanLoop (s : scanner) (buf : string) (scanp : nat) : Scan :=
  match buf with
  | EmptyString => Exhausted s
  | String c rest =>
      let (op, s') := callStep s c in
      match op with
      | scanEnd => Found scanp
      | scanEndObject | scanEndArray =>
          let (op2, s'') := stateEndValue s' " " in
          match op2 with
          | scanEnd => Found (S scanp)
          | _ => scanLoop s'' rest (S scanp)
          end
      | scanError => Failed (scanErr s')
      | _ => scanLoop s' rest (S scanp)
      end
  end.

Fixpoint nonSpace (b : string) : bool :=
  match b with
  | EmptyString => false
  | String c t => if isSpace c then nonSpace t else true
  end.

(** [readValue]: the length of the first value of [body], or the
    error.  At the end of the input a value that a space would end is
    complete; otherwise the error is [io.ErrUnexpectedEOF] if a byte
    other than white space was read and [io.EOF] if not. *)
Definition readValue (body : string) : nat + error :=
  match scanLoop reset body 0 with
  | Found n => inl n
  | Failed e => inr e
  | Exhausted s =>
      match fst (callStep s " ") with
      | scanEnd => inl (String.length body)
      | _ => if nonSpace body then inr io_ErrUnexpectedEOF else inr io_EOF
      end
  end.

(** *** Decoded values *)
Inductive jvalue : Type :=
| JNull
| JBool (b : bool)
| JNumber (lit : string)     (* the literal as written *)
| JString (s : string)       (* unquoted *)
| JArray (elems : list jvalue)
| JObject (members : list (string * jvalue)).

Definition hexval (c : ascii) : Z :=
  let b := byte_val c in
  if is_digit c then b - 48
  else if in_range 97 102 c then b - 97 + 10
  else if in_range 65 70 c then b - 65 + 10
  else -1.

(** [getu4]: the value of the escape [\uXXXX] at the head of [s], or
    -1 if there is none. *)
Definition getu4 (s : string) : Z :=
  match s with
  | String b (String u (String h1 (String h2 (String h3 (String h4 _))))) =>
      if (b =? bslash)%char && (u =? "u")%char
         && isHex h1 && isHex h2 && isHex h3 && isHex h4
      then ((hexval h1 * 16 + hexval h2) * 16 + hexval h3) * 16 + hexval h4
      else -1
  | _ => -1
  end.

Definition IsSurrogate (r : Z) : bool := (55296 <=? r) && (r <? 57344).

(** [utf16.DecodeRune] *)
Definition utf16_DecodeRune (r1 r2 : Z) : Z :=
  if (55296 <=? r1) && (r1 <? 56320) && (56320 <=? r2) && (r2 <? 57344)
  then Z.shiftl (r1 - 55296) 10 + (r2 - 56320) + 65536
  else utf8.RuneError.

(** The byte a one-letter escape stands for. *)
Definition unescape (c : ascii) : option ascii :=
  let b := byte_val c in
  if (b =? 34) || (b =? 92) || (b =? 47) || (b =? 39) then Some c
  else if b =? 98 then Some "008"%char
  else if b =? 102 then Some "012"%char
  else if b =? 110 then Some "010"%char
  else if b =? 114 then Some "013"%char
  else if b =? 116 then Some "009"%char
  else None.

(** The loop of [unquoteBytes] over the text between the quotes. *)
Fixpoint unquote_loop (fuel : nat) (s : string) : option string :=
  match fuel with
  | O => None
  | S fuel' =>
      match s with
      | EmptyString => Some EmptyString
      | String c t =>
          if (c =? bslash)%char then
            match t with
            | EmptyString => None
            | String e t' =>
                if (e =? "u")%char then
                  let rr := getu4 s in
                  if rr <? 0 then None
                  else
                    let rest := drop 6 s in
                    if IsSurrogate rr then
                      let dec := utf16_DecodeRune rr (getu4 rest) in
                      if negb (dec =? utf8.RuneError)
                      then option_map (append (utf8.EncodeRune dec))
                                      (unquote_loop fuel' (drop 6 rest))
                      else option_map (append (utf8.EncodeRune utf8.RuneError))
                                      (unquote_loop fuel' rest)
                    else option_map (append (utf8.EncodeRune rr)) (unquote_loop fuel' rest)
                else
                  match unescape e with
                  | Some x => option_map (String x) (unquote_loop fuel' t')
                  | None => None
                  end
            end
          else if (c =? dquote)%char || (byte_val c <? 32) then None
          else if byte_val c <? 128 then option_map (String c) (unquote_loop fuel' t)
          else
            let (rr, size) := utf8.DecodeRuneInString s in
            option_map (append (utf8.EncodeRune rr)) (unquote_loop fuel' (drop size s))
      end
  end.

Fixpoint dropLast (s : string) : option (string * ascii) :=
  match s with
  | EmptyString => None
  | String c EmptyString => Some (EmptyString, c)
  | String c t =>
      match dropLast t with
      | Some (t', l) => Some (String c t', l)
      | None => None
      end
  end.

(** [unquote]: the string a quoted literal stands for. *)
Definition unquote (lit : string) : option string :=
  match lit with
  | String c t =>
      match dropLast t with
      | Some (inner, l) =>
          if (c =? dquote)%char && (l =? dquote)%char
          then unquote_loop (S (String.length inner)) inner
          else None
      | None => None
      end
  | EmptyString => None
  end.

(** The value of a literal, by its first byte as in [literalStore]. *)
Definition literalValue (lit : string) : option jvalue :=
  match lit with
  | EmptyString => None
  | String c _ =>
      if (c =? "n")%char then Some JNull
      else if (c =? "t")%char then Some (JBool true)
      else if (c =? "f")%char then Some (JBool false)
      else if (c =? dquote)%char then option_map JString (unquote lit)
      else Some (JNumber lit)
  end.

(** *** The decoder's second pass (decode.go)

    [decodeState] walks the framed bytes again, driven by the scanner's
    op codes.  The model keeps the values under construction on a stack
    that grows and shrinks with the scanner's [parseState]: [lit] is the
    literal being read, [done] the array or object that was just
    closed. *)
Inductive Partial : Type :=
| PObject (members : list (string * jvalue)) (key : option string)
| PArray (elems : list jvalue).

Record builder : Type := {
  stack : list Partial;
  lit : option string;
  done : option jvalue
}.

Definition emptyBuilder : builder := {| stack := []; lit := None; done := None |}.

(** The value that ended just before the current byte: [Some None] if
    there is none, [None] if a literal is not one the decoder accepts. *)
Definition pending (b : builder) : option (option jvalue) :=
  match done b, lit b with
  | Some v, _ => Some (Some v)
  | None, Some raw => option_map Some (literalValue raw)
  | None, None => Some None
  end.

Definition build (b : builder) (op : Op) (c : ascii) : option builder :=
  match op with
  | scanSkipSpace => Some b
  | scanBeginLiteral =>
      Some {| stack := stack b; lit := Some (String c EmptyString); done := None |}
  | scanContinue =>
      match lit b with
      | Some raw =>
          Some {| stack := stack b; lit := Some (raw ++ String c EmptyString);
                  done := None |}
      | None => None
      end
  | scanBeginObject =>
      Some {| stack := PObject [] None :: stack b; lit := None; done := None |}
  | scanBeginArray =>
      Some {| stack := PArray [] :: stack b; lit := None; done := None |}
  | scanObjectKey =>
      match lit b, stack b with
      | Some raw, PObject ms None :: st =>
          match unquote raw with
          | Some k => Some {| stack := PObject ms (Some k) :: st; lit := None; done := None |}
          | None => None
          end
      | _, _ => None
      end
  | scanObjectValue =>
      match pending b, stack b with
      | Some (Some v), PObject ms (Some k) :: st =>
          Some {| stack := PObject (ms ++ [(k, v)]) None :: st; lit := None; done := None |}
      | _, _ => None
      end
  | scanEndObject =>
      match pending b, stack b with
      | Some (Some v), PObject ms (Some k) :: st =>
          Some {| stack := st; lit := None; done := Some (JObject (ms ++ [(k, v)])) |}
      | Some None, PObject ms None :: st =>
          Some {| stack := st; lit := None; done := Some (JObject ms) |}
      | _, _ => None
      end
  | scanArrayValue =>
      match pending b, stack b with
      | Some (Some v), PArray es :: st =>
          Some {| stack := PArray (es ++ [v]) :: st; lit := None; done := None |}
      | _, _ => None
      end
  | scanEndArray =>
      match pending b, stack b with
      | Some (Some v), PArray es :: st =>
          Some {| stack := st; lit := None; done := Some (JArray (es ++ [v])) |}
      | Some None, PArray es :: st =>
          Some {| stack := st; lit := None; done := Some (JArray es) |}
      | _, _ => None
      end
  | scanEnd | scanError => None
  end.

(** The walk over the framed bytes; [None] is the decoder finding the
    scanner in a state it does not expect (where decode.go panics with
    [phasePanicMsg]). *)
Fixpoint decodeLoop (s : scanner) (b : builder) (data : string) : option jvalue :=
  match data with
  | EmptyString =>
      match stack b, pending b with
      | [], Some (Some v) => Some v
      | _, _ => None
      end
  | String c rest =>
      let (op, s') := callStep s c in
      match build b op c with
      | Some b' => decodeLoop s' b' rest
      | None => None
      end
  end.

Definition phasePanicMsg : string := "JSON decoder out of sync - data changing underfoot?".

(** *** Storing into a struct *)

(** [strconv.ParseInt(s, 10, 64)] *)
Fixpoint digitsValue (s : string) (acc : Z) : option Z :=
  match s with
  | EmptyString => Some acc
  | String c t =>
      if is_digit c then digitsValue t (10 * acc + (byte_val c - 48)) else None
  end.

Definition ParseInt (s : string) : option Z :=
  match s with
  | EmptyString => None
  | String c t =>
      let neg := (c =? "-")%char in
      let digits := if (c =? "+")%char || neg then t else s in
      match digits with
      | EmptyString => None
      | _ =>
          match digitsValue digits 0 with
          | Some un =>
              if neg then (if un <=? 2 ^ 63 then Some (- un) else None)
              else (if un <? 2 ^ 63 then Some un else None)
          | None => None
          end
      end
  end.

(** What a decoded value does to a field of kind [k]. *)
Inductive Assign : Type :=
| Store (v : Value)
| Keep
| Mismatch (value : string).   (* an UnmarshalTypeError with this Value *)

Definition literalStore (k : Kind) (v : jvalue) : Assign :=
  match v, k with
  | JNull, _ => Keep
  | JString s, KString => Store (VString s)
  | JString _, KInt => Mismatch "string"
  | JNumber l, KInt =>
      match ParseInt l with
      | Some n => Store (VInt n)
      | None => Mismatch ("number " ++ l)
      end
  | JNumber _, KString => Mismatch "number"
  | JBool _, _ => Mismatch "bool"
  | JArray _, _ => Mismatch "array"
  | JObject _, _ => Mismatch "object"
  end.

(** [foldName] on ASCII: lower-case letters become upper-case.  Bytes
    from 128 on are left as they are; a rune outside ASCII folds into an
    ASCII letter only for K and S, so for field names without those two
    letters the comparison below decides as [foldName] does. *)
Definition foldByte (c : ascii) : ascii :=
  if in_range 97 122 c then byte_of (byte_val c - 32) else c.

Fixpoint foldName (s : string) : string :=
  match s with
  | EmptyString => EmptyString
  | String c t => String (foldByte c) (foldName t)
  end.

(** The field a key names: an exact match of the JSON name first
    ([byExactName]), then a match of the folded names. *)
Fixpoint findBy (p : StructField -> bool) (fields : list StructField) (i : nat)
  : option (nat * StructField) :=
  match fields with
  | [] => None
  | f :: fs => if p f then Some (i, f) else findBy p fs (S i)
  end.

Definition findField (fields : list StructField) (key : string)
  : option (nat * StructField) :=
  match findBy (fun f => (fieldJSON f =? key)%string) fields 0 with
  | Some r => Some r
  | None => findBy (fun f => (foldName (fieldJSON f) =? foldName key)%string) fields 0
  end.

Fixpoint setNth (i : nat) (v : Value) (vals : list Value) : list Value :=
  match i, vals with
  | O, _ :: vs => v :: vs
  | S j, x :: vs => x :: setNth j v vs
  | _, [] => []
  end.

(** [d.saveError]: the first error is the one kept. *)
Definition saveError (saved : option error) (e : error) : option error :=
  match saved with
  | Some _ => saved
  | None => Some e
  end.

(** One member of the object: [d.object]'s loop body. *)
Definition storeMember (t : StructType) (st : list Value * option error)
    (m : string * jvalue) : list Value * option error :=
  let (vals, saved) := st in
  match findField (typeFields t) (fst m) with
  | None => st
  | Some (i, f) =>
      match literalStore (fieldKind f) (snd m) with
      | Store v => (setNth i v vals, saved)
      | Keep => st
      | Mismatch value =>
          (vals, saveError saved
                   (UnmarshalTypeError value (kindName (fieldKind f))
                                       (typeName t) (fieldJSON f)))
      end
  end.

(** [d.value] at a struct: an object fills the fields, [null] leaves
    the struct as it is, anything else is a type error. *)
Definition storeStruct (t : StructType) (vals : list Value) (v : jvalue)
  : list Value * option error :=
  match v with
  | JObject members => fold_left (storeMember t) members (vals, None)
  | JNull => (vals, None)
  | JString _ => (vals, Some (UnmarshalTypeError "string" (typeString t) "" ""))
  | JNumber _ => (vals, Some (UnmarshalTypeError "number" (typeString t) "" ""))
  | JBool _ => (vals, Some (UnmarshalTypeError "bool" (typeString t) "" ""))
  | JArray _ => (vals, Some (UnmarshalTypeError "array" (typeString t) "" ""))
  end.

(** [json.NewDecoder(body).Decode(&v)], the first call on a decoder:
    the struct after the call and the error returned. *)
Definition Decode (t : StructType) (vals : list Value) (body : string)
  : Completion (list Value * option error) :=
  match readValue body with
  | inr e => Returned (vals, Some e)
  | inl n =>
      match decodeLoop reset emptyBuilder (take n body) with
      | Some v => Returned (storeStruct t vals v)
      | None => Panicked phasePanicMsg
      end
  end.

(** *** The encoder's [Encode] (stream.go)

    [json.NewEncoder(w).Encode(v)]: the value is marshalled first; only
    then is it written, followed by a newline, with one call of the
    writer's [Write], whose error is returned. *)
Definition Encode {W : Type} (Write : string -> Eff W (option error)) (v : any)
  : Eff W (option error) :=
  match Marshal v with
  | inr e => ret (Some e)
  | inl b => Write (b ++ String newline EmptyString)
  end.

End json.

(** [strconv.Itoa] *)
Definition Itoa (n : Z) : string := NilZero.string_of_int (Z.to_int n).

(** ** Package net/http: the response writer of a server connection *)
Module http.

Definition StatusSwitchingProtocols : Z := 101.
Definition StatusOK : Z := 200.
Definition StatusCreated : Z := 201.
Definition StatusNoContent : Z := 204.
Definition StatusNotModified : Z := 304.
Definition StatusBadRequest : Z := 400.

(** The method calls a handler makes on its [ResponseWriter]. *)
Inductive Call : Type :=
| CallHeaderSet (key value : string)
| CallWriteHeader (code : Z)
| CallWrite (data : string).

Record ResponseWriter : Type := {
  calls : list Call;                   (* the calls so far, oldest first *)
  header : list (string * string);     (* the map Header() returns *)
  wroteHeader : bool;
  status : Z;                          (* the status sent, once wroteHeader *)
  sentHeader : list (string * string); (* the handler's header fields sent with the status *)
  informational : list Z;              (* 1xx responses sent before the status *)
  written : string;                    (* the body sent *)
  connErr : option error               (* the error a write on the connection meets *)
}.

(** The writer a handler is given for a new request. *)
Definition newResponse (connErr : option error) : ResponseWriter :=
  {| calls := []; header := []; wroteHeader := false; status := 0; sentHeader := [];
     informational := []; written := ""; connErr := connErr |}.

Definition record (c : Call) (w : ResponseWriter) : ResponseWriter :=
  {| calls := calls w ++ [c]; header := header w; wroteHeader := wroteHeader w;
     status := status w; sentHeader := sentHeader w; informational := informational w;
     written := written w; connErr := connErr w |}.

(** [w.Header().Set(key, value)] for a key in canonical form. *)
Definition Header_Set (key value : string) : Eff ResponseWriter unit :=
  fun w =>
    let w := record (CallHeaderSet key value) w in
    (Returned tt,
     {| calls := calls w;
        header := (key, value)
                  :: filter (fun kv => negb (fst kv =? key)%string) (header w);
        wroteHeader := wroteHeader w; status := status w; sentHeader := sentHeader w;
        informational := informational w; written := written w; connErr := connErr w |}).

Definition bodyAllowedForStatus (status : Z) : bool :=
  if (100 <=? status) && (status <=? 199) then false
  else if status =? StatusNoContent then false
  else if status =? StatusNotModified then false
  else true.

(** [suppressedHeaders]: the header fields the server leaves out of a
    response of this status: of a 304 the three of [suppressedHeaders304]
    (RFC 7232, section 4.1), of any other status without a body the two
    of [suppressedHeadersNoBody]. *)
Definition suppressedHeaders (status : Z) : list string :=
  if status =? StatusNotModified
  then ["Content-Type"; "Content-Length"; "Transfer-Encoding"]
  else if negb (bodyAllowedForStatus status)
  then ["Content-Length"; "Transfer-Encoding"]
  else [].

(** The fields of the handler's header that go out with [status]
    ([delHeader] on each suppressed key in [chunkWriter.writeHeader]).
    The fields the server adds of its own (Date, Content-Length, a
    sniffed Content-Type when the handler set none) are not part of the
    model. *)
Definition sentWith (status : Z) (h : list (string * string))
  : list (string * string) :=
  filter (fun kv => negb (existsb (String.eqb (fst kv)) (suppressedHeaders status))) h.

(** The effect of [WriteHeader] below the recording of the call: a
    second call is ignored, a code outside 100..999 panics
    ([checkWriteHeaderCode]), a 1xx code other than 101 is sent as an
    informational response, any other code is the status of the
    response, sent with the header as it is at this call less the
    fields suppressed for the code. *)
Definition writeHeader (code : Z) : Eff ResponseWriter unit :=
  fun w =>
    if wroteHeader w then (Returned tt, w)
    else if (code <? 100) || (999 <? code)
    then (Panicked ("invalid WriteHeader code " ++ Itoa code), w)
    else if (100 <=? code) && (code <=? 199) && negb (code =? StatusSwitchingProtocols)
    then (Returned tt,
          {| calls := calls w; header := header w; wroteHeader := false; status := status w;
             sentHeader := sentHeader w; informational := informational w ++ [code];
             written := written w; connErr := connErr w |})
    else (Returned tt,
          {| calls := calls w; header := header w; wroteHeader := true; status := code;
             sentHeader := sentWith code (header w); informational := informational w;
             written := written w; connErr := connErr w |}).

Definition WriteHeader (code : Z) : Eff ResponseWriter unit :=
  fun w => writeHeader code (record (CallWriteHeader code) w).

(** [w.Write(data)]: the status defaults to 200; nothing is sent for an
    empty slice, for a status that allows no body, or on a connection
    that fails. *)
Definition Write (data : string) : Eff ResponseWriter (option error) :=
  fun w =>
    let w := record (CallWrite data) w in
    match (if wroteHeader w then ret tt else writeHeader StatusOK) w with
    | (Panicked msg, w') => (Panicked msg, w')
    | (Returned _, w') =>
        if Nat.eqb (String.length data) 0 then (Returned None, w')
        else if negb (bodyAllowedForStatus (status w')) then (Returned (Some ErrBodyNotAllowed), w')
        else
          match connErr w' with
          | Some e => (Returned (Some e), w')
          | None =>
              (Returned None,
               {| calls := calls w'; header := header w'; wroteHeader := wroteHeader w';
                  status := status w'; sentHeader := sentHeader w';
                  informational := informational w'; written := written w' ++ data;
                  connErr := connErr w' |})
          end
    end.

(** An incoming request: its body, read to the end. *)
Record Request : Type := { Body : string }.

End http.

(** ** Package log/slog: the records of the default logger *)
Module slog.

Inductive Level : Type := LevelInfo | LevelError.

Record Record_ : Type := {
  level : Level;
  message : string;
  attrs : list (string * string)
}.

End slog.

(** ** Package go-playground/validator *)
Module validator.

(** The library's pattern for e-mail addresses is not part of this
    development: [isEmail] stands for the match against it. *)
Class BakedIn : Type := {
  isEmail : string -> bool;
  isEmail_empty : isEmail "" = false   (* the pattern asks for a local part *)
}.

(** The two methods of [FieldError] the program calls. *)
Record FieldError : Type := {
  Field : string;      (* the name of the field *)
  ActualTag : string   (* the constraint that failed *)
}.

Definition ValidationErrors : Type := list FieldError.

(** The errors [Validate.Struct] returns. *)
Inductive Error : Type :=
| errValidationErrors (errs : ValidationErrors)
| errInvalidValidation (type_ : string).   (* *InvalidValidationError *)

Definition tagName (t : Tag) : string :=
  match t with
  | required => "required"
  | email => "email"
  | gt _ => "gt"
  end.

(** [hasValue]: a string or an integer has a value if it is not the
    zero value of its type. *)
Definition hasValue (v : Value) : bool :=
  match v with
  | VString s => negb (s =? "")%string
  | VInt n => negb (n =? 0)
  end.

Section Validate.
Context {baked : BakedIn}.

Definition runTag (t : Tag) (v : Value) : bool :=
  match t with
  | required => hasValue v
  | email =>
      match v with
      | VString s => isEmail s
      | VInt _ => isEmail "<int Value>"
      end
  | gt param =>
      (* [isGt]: an integer is compared, a string by its number of runes *)
      match v with
      | VString s => param <? Z.of_nat (RuneCountInString s)
      | VInt n => param <? n
      end
  end.

(** The first constraint of a field that fails, if any: a field
    reports one error at most. *)
Fixpoint firstFailing (tags : list Tag) (v : Value) : option Tag :=
  match tags with
  | [] => None
  | t :: ts => if runTag t v then firstFailing ts v else Some t
  end.

(** The fields are visited in declaration order. *)
Fixpoint validateFields (fields : list StructField) (vals : list Value)
  : ValidationErrors :=
  match fields, vals with
  | f :: fs, v :: vs =>
      match firstFailing (fieldValidate f) v with
      | Some t =>
          {| Field := fieldName f; ActualTag := tagName t |} :: validateFields fs vs
      | None => validateFields fs vs
      end
  | _, _ => []
  end.

(** What is passed to [Struct]: a struct value, or a value of another
    kind. *)
Inductive Arg : Type :=
| ofStruct (t : StructType) (vals : list Value)
| ofOther (type_ : string).

(** [validator.New().Struct(s)] *)
Definition Struct (s : Arg) : option Error :=
  match s with
  | ofOther ty => Some (errInvalidValidation ty)
  | ofStruct t vals =>
      match validateFields (typeFields t) vals with
      | [] => None
      | errs => Some (errValidationErrors errs)
      end
  end.

End Validate.

End validator.

(** ** internal/utils/response/response.go *)
Module response.

Record Response : Type := {
  Status : string;   (* json:"status" *)
  Error : string     (* json:"error" *)
}.

Definition StatusOk : string := "OK".
Definition StatusError : string := "Error".

(** A [Response] as the encoder sees it: its two fields under the keys
    of their [json] tags, in declaration order. *)
Definition toAny (r : Response) : any :=
  any_struct [("status", Status r); ("error", Error r)].

Definition WriteJson (status : Z) (data : any) : Eff http.ResponseWriter (option error) :=
  http.Header_Set "Content-Type" "application/json" ;;
  http.WriteHeader status ;;
  json.Encode http.Write data.

Definition GeneralError (err : error) : Response :=
  {| Status := StatusError; Error := Error_ err |}.

(** The body of the [for ... range errs] loop: one message is appended
    to [errMsg]. *)
Definition appendMessage (errMsg : list string) (err : validator.FieldError) : list string :=
  if (validator.ActualTag err =? "required")%string
  then errMsg ++ [fmt.Sprintf "field %s is required field" (validator.Field err)]
  else errMsg ++ [fmt.Sprintf "field %s is invalid" (validator.Field err)].

Definition ValidationError (errs : validator.ValidationErrors) : Response :=
  let errMsg := fold_left appendMessage errs [] in
  {| Status := StatusError; Error := strings.Join errMsg ", " |}.

End response.

(** ** internal/types *)
Module types.

(** Modelled from the spec: the struct [types.Student] of package
    internal/types, whose file is not among the sources.  The spec's
    data model gives StudentRequest the fields name (non-empty string,
    required), email (required, must be a syntactically valid e-mail
    address) and age (required, positive integer), sent under the JSON
    keys [name], [email] and [age]; the error messages of the spec name
    the fields [Name] and [Email].  In the validator's tag language the
    three constraints are [required], [required,email] and
    [required,gt=0].  The handler's comment only guesses at the tags
    ("likely contains tags like") and is not followed where the spec's
    data model says more. *)
Record Student : Type := {
  Name : string;
  Email : string;
  Age : Z
}.

Definition Student_type : StructType :=
  {| typeName := "Student";
     typeString := "types.Student";
     typeFields :=
       [ {| fieldName := "Name"; fieldJSON := "name"; fieldKind := KString;
            fieldValidate := [required] |};
         {| fieldName := "Email"; fieldJSON := "email"; fieldKind := KString;
            fieldValidate := [required; email] |};
         {| fieldName := "Age"; fieldJSON := "age"; fieldKind := KInt;
            fieldValidate := [required; gt 0] |} ] |}.

(** The zero value of [var student types.Student]. *)
Definition zero : Student := {| Name := ""; Email := ""; Age := 0 |}.

(** The struct value as reflection sees it, and back. *)
Definition values (s : Student) : list Value :=
  [VString (Name s); VString (Email s); VInt (Age s)].

Definition ofValues (vals : list Value) : Student :=
  match vals with
  | [VString n; VString e; VInt a] => {| Name := n; Email := e; Age := a |}
  | _ => zero
  end.

End types.

(** ** The create-student handler (package student) *)
Module student.

(** What a handler works on: its response writer and the log. *)
Record World : Type := {
  w : http.ResponseWriter;
  logs : list slog.Record_
}.

(** A computation on the response writer, run in the world. *)
Definition onWriter {A : Type} (m : Eff http.ResponseWriter A) : Eff World A :=
  fun s =>
    let (r, w') := m (w s) in
    (r, {| w := w'; logs := logs s |}).

Definition slog_Info (msg : string) : Eff World unit :=
  fun s =>
    (Returned tt,
     {| w := w s;
        logs := logs s ++ [{| slog.level := slog.LevelInfo; slog.message := msg;
                              slog.attrs := [] |}] |}).

(** [json.NewDecoder(r.Body).Decode(&student)] on the zero student:
    the student after the call and the error. *)
Definition decode (body : string) : Completion (types.Student * option error) :=
  match json.Decode types.Student_type (types.values types.zero) body with
  | Returned (vals, err) => Returned (types.ofValues vals, err)
  | Panicked msg => Panicked msg
  end.

Definition decodeStudent (r : http.Request) : Eff World (types.Student * option error) :=
  fun s => (decode (http.Body r), s).

Section Handler.
Context {baked : validator.BakedIn}.

(** The handler [New()] returns, applied to a request. *)
Definition New (r : http.Request) : Eff World unit :=
  slog_Info "creating a student api" ;;
  d <- decodeStudent r ;;
  let (student, err) := d : types.Student * option error in
  if Is_EOF err then
    onWriter (response.WriteJson http.StatusBadRequest
                (response.toAny (response.GeneralError (fmt.Errorf "empty body")))) ;;
    ret tt
  else
    match err with
    | Some e =>
        onWriter (response.WriteJson http.StatusBadRequest
                    (response.toAny (response.GeneralError e))) ;;
        ret tt
    | None =>
        match validator.Struct (validator.ofStruct types.Student_type (types.values student)) with
        | Some verr =>
            match verr with
            | validator.errValidationErrors validateErrs =>
                onWriter (response.WriteJson http.StatusBadRequest
                            (response.toAny (response.ValidationError validateErrs))) ;;
                ret tt
            | validator.errInvalidValidation _ =>
                panic "interface conversion: error is *validator.InvalidValidationError, not validator.ValidationErrors"
            end
        | None =>
            onWriter (response.WriteJson http.StatusCreated (any_map [("Success", "ok")])) ;;
            ret tt
        end
    end.

(** Serving one request: the handler runs on a fresh response writer. *)
Definition serve (connErr : option error) (body : string) : Completion unit * World :=
  New {| http.Body := body |} {| w := http.newResponse connErr; logs := [] |}.

End Handler.

End student.

(** ** Package flag: one string flag

    [flag.String(name, "", usage)] followed by [flag.Parse()] on the
    command line after the program name, for a flag set that has this
    one flag: the loop of [FlagSet.parseOne].  With the default
    [ExitOnError] a parse error ends the process with status 2, and
    [-h] or [-help] with status 0. *)
Module flag.

Inductive Parsed : Type :=
| Value_ (v : string)                  (* the value of the flag after parsing *)
| Exit (code : Z) (message : string).  (* the process has exited *)

(** [name] cut at its first equals sign that is not its first byte:
    the name and, if there is one, the value. *)
Fixpoint cutValue (name : string) : string * option string :=
  match name with
  | EmptyString => (EmptyString, None)
  | String c t =>
      if (c =? "=")%char then (EmptyString, Some t)
      else let (n, v) := cutValue t in (String c n, v)
  end.

Definition splitValue (name : string) : string * option string :=
  match name with
  | EmptyString => (EmptyString, None)
  | String c t => let (n, v) := cutValue t in (String c n, v)
  end.

Fixpoint Parse (flagName : string) (args : list string) (value : string) : Parsed :=
  match args with
  | [] => Value_ value
  | s :: rest =>
      match s with
      | String "-" (String c1 t1) =>
          if (c1 =? "-")%char && (t1 =? "")%string then Value_ value   (* "--" ends the flags *)
          else
            let name := if (c1 =? "-")%char then t1 else String c1 t1 in
            match name with
            | EmptyString => Exit 2 ("bad flag syntax: " ++ s)
            | String n0 _ =>
                if (n0 =? "-")%char || (n0 =? "=")%char
                then Exit 2 ("bad flag syntax: " ++ s)
                else
                  let (name, given) := splitValue name in
                  if (name =? flagName)%string then
                    match given with
                    | Some v => Parse flagName rest v
                    | None =>
                        match rest with
                        | v :: rest' => Parse flagName rest' v
                        | [] => Exit 2 ("flag needs an argument: -" ++ name)
                        end
                    end
                  else if (name =? "help")%string || (name =? "h")%string
                  then Exit 0 "flag: help requested"
                  else Exit 2 ("flag provided but not defined: -" ++ name)
            end
      | _ => Value_ value    (* the first argument that is no flag ends the flags *)
      end
  end.

End flag.

(** ** internal/config *)
Module config.

Record HTTPServer : Type := { Addr : string }.

Record Config : Type := {
  Env : string;
  StoragePath : string;
  HTTPServer_ : HTTPServer
}.

(** What [os.Stat] tells of a path. *)
Inductive Stat : Type :=
| statFound
| statNotExist                 (* an error for which os.IsNotExist holds *)
| statFailed (e : error).      (* any other error *)

(** The surroundings of the process that [MustLoad] reads: the
    environment variable, the command line after the program name, the
    file system as [os.Stat] sees it, and what [cleanenv.ReadConfig]
    makes of the file at a path (and of the environment). *)
Record OS : Type := {
  CONFIG_PATH : string;
  Args : list string;
  stat : string -> Stat;
  ReadConfig : string -> Config + error
}.

(** How [MustLoad] ends: it returns the configuration, or the process
    has exited ([log.Fatal] exits with status 1 after its message). *)
Inductive Outcome : Type :=
| Loaded (cfg : Config)
| Exited (code : Z) (message : string).

(** Steps A and B: the path from the environment, or else from the
    flag. *)
Definition configPath (os : OS) : string + Outcome :=
  if (CONFIG_PATH os =? "")%string then
    match flag.Parse "config" (Args os) "" with
    | flag.Exit code message => inr (Exited code message)
    | flag.Value_ v =>
        if (v =? "")%string
        then inr (Exited 1 "config path is not set; set CONFIG_PATH or pass -config")
        else inl v
    end
  else inl (CONFIG_PATH os).

Definition MustLoad (os : OS) : Outcome :=
  match configPath os with
  | inr out => out
  | inl path =>
      match stat os path with
      | statNotExist => Exited 1 (fmt.Sprintf "config file does not exist: %s" path)
      | _ =>
          match ReadConfig os path with
          | inr err => Exited 1 (fmt.Sprintf "cannot read config file: %s" (Error_ err))
          | inl cfg => Loaded cfg
          end
      end
  end.

End config.

(** ** The program entry point (package main)

    [main] blocks twice: on [<-done] until a signal arrives, and in
    [server.Shutdown(ctx)] until the server is idle or the context's
    deadline passes.  The process is modelled between these points: an
    event of the environment (a signal, a client connecting, a request
    finishing, time passing, the listener failing) moves it on, and the
    code [main] runs between two blocking points is run with the event
    that unblocks it.  Time is in nanoseconds, as in package time. *)
Module main.

Inductive Signal : Type := SIGINT | SIGTERM.   (* os.Interrupt is SIGINT *)

Definition Second : Z := 1000000000.

(** [context.DeadlineExceeded] and its message. *)
Definition DeadlineExceeded : error := errorString "context deadline exceeded".

Inductive Phase : Type :=
| Serving                     (* main waits in [<-done] *)
| Draining (deadline : Z)     (* main waits in [server.Shutdown(ctx)] *)
| Stopped.                    (* main has returned *)

Record Process : Type := {
  phase : Phase;
  now : Z;
  listening : bool;           (* the listener accepts connections *)
  active : nat;               (* requests in flight *)
  logs : list slog.Record_
}.

Inductive Event : Type :=
| Deliver (sig : Signal)      (* a signal registered with signal.Notify *)
| Connect                     (* a client sends a request *)
| Finish                      (* a request in flight is answered *)
| Elapse (dt : Z)             (* time passes *)
| ListenerFails (e : error).  (* ListenAndServe returns this error *)

Definition log (l : slog.Level) (msg : string) (attrs : list (string * string))
    (p : Process) : Process :=
  {| phase := phase p; now := now p; listening := listening p; active := active p;
     logs := logs p ++ [{| slog.level := l; slog.message := msg; slog.attrs := attrs |}] |}.

Definition setPhase (ph : Phase) (p : Process) : Process :=
  {| phase := ph; now := now p; listening := listening p; active := active p;
     logs := logs p |}.

(** The process once [router], [server] and [done] are set up and the
    goroutine serves: steps 1 to 7. *)
Definition started (t : Z) : Process :=
  {| phase := Serving; now := t; listening := true; active := 0%nat; logs := [] |}.

(** Steps 11 (after the call returns) and 12: the error of [Shutdown]
    is logged if there is one, then the last message, and [main]
    returns. *)
Definition afterShutdown (err : option error) (p : Process) : Process :=
  let p :=
    match err with
    | Some e => log slog.LevelError "Failed to shutdown server" [("error", Error_ e)] p
    | None => p
    end in
  setPhase Stopped (log slog.LevelInfo "server shutdown successfully" [] p).

(** Steps 9 to 11, from [<-done] returning to the call of [Shutdown]:
    the context's deadline is five seconds from now; [Shutdown] closes
    the listener and returns at once if no request is in flight. *)
Definition afterSignal (p : Process) : Process :=
  let p := log slog.LevelInfo "shutting down the server" [] p in
  let deadline := now p + 5 * Second in
  let p := {| phase := Draining deadline; now := now p; listening := false;
              active := active p; logs := logs p |} in
  match active p with
  | O => afterShutdown None p
  | S _ => p
  end.

Definition tick (dt : Z) (p : Process) : Process :=
  {| phase := phase p; now := now p + Z.max 0 dt; listening := listening p;
     active := active p; logs := logs p |}.

Definition setActive (n : nat) (p : Process) : Process :=
  {| phase := phase p; now := now p; listening := listening p; active := n;
     logs := logs p |}.

Definition step (p : Process) (e : Event) : Process :=
  match phase p with
  | Stopped => p
  | Serving =>
      match e with
      | Deliver _ => afterSignal p
      | Connect => if listening p then setActive (S (active p)) p else p
      | Finish => setActive (pred (active p)) p
      | Elapse dt => tick dt p
      | ListenerFails e =>
          (* err != nil && err != http.ErrServerClosed *)
          let p := log slog.LevelError "server error" [("error", Error_ e)] p in
          {| phase := phase p; now := now p; listening := false; active := active p;
             logs := logs p |}
      end
  | Draining deadline =>
      match e with
      | Deliver _ => p            (* nobody receives from [done] any more *)
      | Connect => p              (* the listener is closed *)
      | Finish =>
          match active p with
          | S (S n) => setActive (S n) p
          | _ => afterShutdown None (setActive 0%nat p)
          end
      | Elapse dt =>
          let p := tick dt p in
          if deadline <=? now p then afterShutdown (Some DeadlineExceeded) p else p
      | ListenerFails _ => p      (* ListenAndServe returns http.ErrServerClosed *)
      end
  end.

Definition run (p : Process) (events : list Event) : Process :=
  fold_left step events p.

Fixpoint elapsed (events : list Event) : Z :=
  match events with
  | [] => 0
  | Elapse dt :: es => Z.max 0 dt + elapsed es
  | _ :: es => elapsed es
  end.

End main.

(** * Properties *)

(** ** Strings *)

Lemma append_nil_r (s : string) : s ++ "" = s.
Proof. induction s as [|c s IH]; simpl; [reflexivity | now rewrite IH]. Qed.

Lemma append_assoc (a b c : string) : (a ++ b) ++ c = a ++ (b ++ c).
Proof. induction a as [|x a IH]; simpl; [reflexivity | now rewrite IH]. Qed.

Lemma length_append (a b : string) :
  String.length (a ++ b) = (String.length a + String.length b)%nat.
Proof. induction a as [|x a IH]; simpl; [reflexivity | now rewrite IH]. Qed.

Lemma take_length_append (a b : string) : take (String.length a) (a ++ b) = a.
Proof. induction a as [|x a IH]; simpl; [now destruct b | now rewrite IH]. Qed.

Lemma take_length (a : string) : take (String.length a) a = a.
Proof. induction a as [|x a IH]; simpl; [reflexivity | now rewrite IH]. Qed.

(** [strings.Join] is the concatenation with separators of the
    standard library. *)
Lemma concat_head_append (sep a b : string) (l : list string) :
  String.concat sep ((a ++ b) :: l) = a ++ String.concat sep (b :: l).
Proof. destruct l; simpl; [reflexivity | now rewrite append_assoc]. Qed.

Lemma Join_fold (sep : string) (rest : list string) (e : string) :
  fold_left (fun b s => b ++ sep ++ s) rest e = String.concat sep (e :: rest).
Proof.
  revert e. induction rest as [|x rest IH]; intros e; [reflexivity|].
  cbn [fold_left]. rewrite IH, concat_head_append, concat_head_append.
  reflexivity.
Qed.

Lemma Join_concat (elems : list string) (sep : string) :
  strings.Join elems sep = String.concat sep elems.
Proof.
  destruct elems as [|e0 [|e1 rest]]; [reflexivity | reflexivity |].
  apply Join_fold.
Qed.

(** ** The validation mapper *)

(** The sentence the spec gives for one failure. *)
Definition sentence (e : validator.FieldError) : string :=
  if (validator.ActualTag e =? "required")%string
  then "field " ++ validator.Field e ++ " is required field"
  else "field " ++ validator.Field e ++ " is invalid".

Lemma appendMessage_sentence (errMsg : list string) (e : validator.FieldError) :
  response.appendMessage errMsg e = (errMsg ++ [sentence e])%list.
Proof.
  unfold response.appendMessage, sentence.
  destruct (validator.ActualTag e =? "required")%string; reflexivity.
Qed.

Lemma messages_map (errs : validator.ValidationErrors) (acc : list string) :
  fold_left response.appendMessage errs acc = (acc ++ map sentence errs)%list.
Proof.
  revert acc. induction errs as [|e errs IH]; intros acc; simpl.
  - now rewrite app_nil_r.
  - rewrite IH, appendMessage_sentence, <- app_assoc. reflexivity.
Qed.

Lemma ValidationError_sentences (errs : validator.ValidationErrors) :
  response.ValidationError errs
  = {| response.Status := "Error";
       response.Error := String.concat ", " (map sentence errs) |}.
Proof.
  unfold response.ValidationError. rewrite messages_map, Join_concat. reflexivity.
Qed.

(** C3: for every ordered sequence of field failures, ValidationError
    gives "field <Name> is required field" for a failure of kind
    "required" and "field <Name> is invalid" for any other kind, joins
    the messages with ", " in the order of the input, one message per
    failure (none dropped, none merged), and returns them in an envelope
    of status "Error". *)
Theorem ValidationError_maps_failures :
  forall errs : validator.ValidationErrors,
    response.ValidationError errs
    = {| response.Status := "Error";
         response.Error := String.concat ", " (map sentence errs) |}
    /\ List.length (map sentence errs) = List.length errs
    /\ (forall i e, nth_error errs i = Some e ->
          nth_error (map sentence errs) i = Some (sentence e))
    /\ (forall e, validator.ActualTag e = "required" ->
          sentence e = "field " ++ validator.Field e ++ " is required field")
    /\ (forall e, validator.ActualTag e <> "required" ->
          sentence e = "field " ++ validator.Field e ++ " is invalid").
Proof.
  intros errs. split; [apply ValidationError_sentences|].
  split; [apply length_map|].
  split; [intros i e H; now apply map_nth_error|].
  split; intros e H; unfold sentence.
  - now rewrite H.
  - destruct (String.eqb_spec (validator.ActualTag e) "required"); [contradiction | reflexivity].
Qed.

(** C9: every envelope built by GeneralError or by ValidationError has
    status "Error" and never "OK", whatever the error and whatever the
    sequence of failures; the empty sequence gives an envelope of status
    "Error" with the empty error string. *)
Theorem error_envelopes_have_status_Error :
  (forall err : error,
      response.Status (response.GeneralError err) = "Error"
      /\ response.Status (response.GeneralError err) <> response.StatusOk)
  /\ (forall errs : validator.ValidationErrors,
        response.Status (response.ValidationError errs) = "Error"
        /\ response.Status (response.ValidationError errs) <> response.StatusOk)
  /\ response.ValidationError [] = {| response.Status := "Error"; response.Error := "" |}.
Proof.
  split; [|split].
  - intros err. split; [reflexivity | discriminate].
  - intros errs. split; [reflexivity | discriminate].
  - reflexivity.
Qed.

(** ** The response formatter *)

Definition contentTypeJSON : string * string := ("Content-Type", "application/json").

(** The status code [code] has gone out on [w]: as the status of the
    response, or as an informational response before it. *)
Definition sent (code : Z) (w : http.ResponseWriter) : Prop :=
  (http.wroteHeader w = true /\ http.status w = code) \/ In code (http.informational w).

Ltac split_ifs :=
  repeat match goal with
         | |- context [if ?c then _ else _] => destruct c eqn:?
         | |- context [match ?c with Some _ => _ | None => _ end] => destruct c eqn:?
         end.

Lemma sentWith_type (code : Z) (h : list (string * string)) :
  code <> http.StatusNotModified ->
  In contentTypeJSON h -> In contentTypeJSON (http.sentWith code h).
Proof.
  intros Hc Hin. unfold http.sentWith. apply filter_In. split; [exact Hin|].
  unfold http.suppressedHeaders.
  destruct (Z.eqb_spec code http.StatusNotModified); [contradiction|].
  destruct (negb (http.bodyAllowedForStatus code)); reflexivity.
Qed.

Lemma sentWith_body (code : Z) (h : list (string * string)) :
  http.bodyAllowedForStatus code = true -> http.sentWith code h = h.
Proof.
  intros Hb. unfold http.sentWith, http.suppressedHeaders. rewrite Hb.
  unfold http.bodyAllowedForStatus in Hb.
  destruct (code =? http.StatusNotModified).
  - destruct ((100 <=? code) && (code <=? 199)); [discriminate|].
    destruct (code =? http.StatusNoContent); discriminate.
  - cbn [negb existsb]. induction h as [|kv h IH]; cbn [filter]; [reflexivity | now rewrite IH].
Qed.

Lemma sentWith_304 (h : list (string * string)) :
  ~ In contentTypeJSON (http.sentWith http.StatusNotModified h).
Proof.
  unfold http.sentWith. intros Hin. apply filter_In in Hin as [_ Hin]. discriminate Hin.
Qed.

Lemma sentWith_type_iff (code : Z) (h : list (string * string)) :
  In contentTypeJSON h ->
  In contentTypeJSON (http.sentWith code h) <-> code <> http.StatusNotModified.
Proof.
  intros Hin. split.
  - intros Hs ->. exact (sentWith_304 h Hs).
  - intros Hc. now apply sentWith_type.
Qed.

(** C7: WriteJson sets the content type to JSON first, then writes the
    status code, then serialises the payload and writes the serialised
    body; if serialisation fails the error is returned to the caller,
    nothing of a body is written, and the status code has already gone
    out.  The content type is in the header map from the first call on;
    it goes out with the status unless the status is 304, for which the
    server suppresses it. *)
Theorem WriteJson_sets_type_then_status_then_body :
  forall (w : http.ResponseWriter) (status : Z) (payload : any),
    100 <= status <= 999 ->
    exists (r : option error) (w' : http.ResponseWriter),
      response.WriteJson status payload w = (Returned r, w')
      /\ http.calls w'
         = (http.calls w
            ++ [http.CallHeaderSet "Content-Type" "application/json";
                http.CallWriteHeader status]
            ++ match json.Marshal payload with
               | inl b => [http.CallWrite (b ++ String newline "")]
               | inr _ => []
               end)%list
      /\ In contentTypeJSON (http.header w')
      /\ (http.wroteHeader w = false -> http.wroteHeader w' = true ->
          (In contentTypeJSON (http.sentHeader w')
           <-> http.status w' <> http.StatusNotModified))
      /\ (forall e, json.Marshal payload = inr e ->
            r = Some e
            /\ http.written w' = http.written w
            /\ (http.wroteHeader w = false -> sent status w')).
Proof.
  intros w status payload [Hlo Hhi].
  assert (Hty : forall h : list (string * string),
             In contentTypeJSON
                (("Content-Type", "application/json")
                 :: filter (fun kv => negb (fst kv =? "Content-Type")%string) h))
    by (intros h; left; reflexivity).
  unfold response.WriteJson, bind, http.Header_Set, http.WriteHeader, http.writeHeader,
    json.Encode, http.record; cbn [http.wroteHeader http.calls http.header].
  destruct (http.wroteHeader w) eqn:Hw.
  - (* the status went out before: the call is ignored *)
    destruct (json.Marshal payload) as [b|e] eqn:HM.
    + unfold http.Write, http.record, ret; cbn -[http.sentWith].
      split_ifs; eexists; eexists; (split; [reflexivity|]); cbn -[http.sentWith];
        rewrite <- ?app_assoc; (split; [reflexivity|]);
        (split; [apply Hty|]);
        (split; [discriminate | intros ? ?; discriminate]).
    + unfold ret. eexists; eexists; split; [reflexivity|]. cbn -[http.sentWith].
      rewrite <- ?app_assoc. split; [reflexivity|]. split; [apply Hty|].
      split; [discriminate|].
      intros e' He'. inversion He'; subst. repeat split. discriminate.
  - replace ((status <? 100) || (999 <? status)) with false
      by (symmetry; apply orb_false_iff; split; [apply Z.ltb_ge | apply Z.ltb_ge]; lia).
    destruct ((100 <=? status) && (status <=? 199) && negb (status =? http.StatusSwitchingProtocols))
      eqn:Hinfo.
    + (* an informational response *)
      destruct (json.Marshal payload) as [b|e] eqn:HM.
      * unfold http.Write, http.writeHeader, http.record, ret; cbn -[http.sentWith].
        split_ifs; eexists; eexists; (split; [reflexivity|]); cbn -[http.sentWith];
          rewrite <- ?app_assoc; (split; [reflexivity|]);
          (split; [apply Hty|]);
          (split; [intros _ _; apply sentWith_type_iff, Hty | intros ? ?; discriminate]).
      * unfold ret. eexists; eexists; split; [reflexivity|]. cbn -[http.sentWith].
        rewrite <- ?app_assoc. split; [reflexivity|]. split; [apply Hty|].
        split; [intros _ ?; discriminate|].
        intros e' He'. inversion He'; subst. repeat split.
        intros _. right. cbn. apply in_or_app. right. left. reflexivity.
    + destruct (json.Marshal payload) as [b|e] eqn:HM.
      * unfold http.Write, http.record, ret; cbn -[http.sentWith].
        split_ifs; eexists; eexists; (split; [reflexivity|]); cbn -[http.sentWith];
          rewrite <- ?app_assoc; (split; [reflexivity|]);
          (split; [apply Hty|]);
          (split; [intros _ _; apply sentWith_type_iff, Hty | intros ? ?; discriminate]).
      * unfold ret. eexists; eexists; split; [reflexivity|]. cbn -[http.sentWith].
        rewrite <- ?app_assoc. split; [reflexivity|]. split; [apply Hty|].
        split; [intros _ _; apply sentWith_type_iff, Hty|].
        intros e' He'. inversion He'; subst. repeat split.
        intros _. left. cbn. split; reflexivity.
Qed.

(** The case the claim singles out: the payload cannot be serialised.
    The status has gone out, no body has, and the error is the
    encoder's. *)
Lemma WriteJson_sets_type_then_status_then_body_witness :
  exists w' : http.ResponseWriter,
    response.WriteJson 400 any_func (http.newResponse None)
    = (Returned (Some (UnsupportedTypeError "func()")), w')
    /\ http.calls w'
       = [http.CallHeaderSet "Content-Type" "application/json"; http.CallWriteHeader 400]
    /\ In contentTypeJSON (http.header w')
    /\ In contentTypeJSON (http.sentHeader w')
    /\ http.written w' = ""
    /\ sent 400 w'.
Proof.
  destruct (WriteJson_sets_type_then_status_then_body (http.newResponse None) 400 any_func)
    as (r & w' & Hr & Hcalls & Hh & Hs & Hfail); [lia|].
  destruct (Hfail (UnsupportedTypeError "func()") eq_refl) as (-> & Hwr & Hsent).
  exists w'. split; [exact Hr|]. split; [exact Hcalls|]. split; [exact Hh|].
  assert (Hw' : http.wroteHeader w' = true /\ http.status w' = 400)
    by (inversion Hr; split; reflexivity).
  split; [|split; [exact Hwr | exact (Hsent eq_refl)]].
  apply (Hs eq_refl (proj1 Hw')). rewrite (proj2 Hw'). discriminate.
Defined.

(** ** The handler's answers *)

(** The response writer after a handler has answered a new request
    with [code] and the JSON text [body]: the three calls of WriteJson,
    the header and status they leave, and the body if the connection
    took it. *)
Definition responded (connErr : option error) (code : Z) (body : string)
  : http.ResponseWriter :=
  {| http.calls := [http.CallHeaderSet "Content-Type" "application/json";
                    http.CallWriteHeader code;
                    http.CallWrite (body ++ String newline "")];
     http.header := [contentTypeJSON];
     http.wroteHeader := true;
     http.status := code;
     http.sentHeader := [contentTypeJSON];
     http.informational := [];
     http.written := match connErr with
                     | None => body ++ String newline ""
                     | Some _ => ""
                     end;
     http.connErr := connErr |}.

Definition logged : list slog.Record_ :=
  [{| slog.level := slog.LevelInfo; slog.message := "creating a student api";
      slog.attrs := [] |}].

(** The handler has returned, having answered with [code] and [body]
    and logged its one line; the world holds nothing else. *)
Definition answered (connErr : option error) (code : Z) (body : string)
  : Completion unit * student.World :=
  (Returned tt, {| student.w := responded connErr code body; student.logs := logged |}).

(** The JSON text of an error envelope with message [msg]. *)
Definition envelope (msg : string) : string :=
  json.object [("status", "Error"); ("error", msg)].

(** The JSON text of the success body. *)
Definition successBody : string := json.object [("Success", "ok")].

Lemma length_with_newline (b : string) :
  Nat.eqb (String.length (b ++ String newline "")) 0 = false.
Proof. rewrite length_append. simpl. apply Nat.eqb_neq. lia. Qed.

Lemma WriteJson_fresh (connErr : option error) (code : Z) (payload : any) (body : string) :
  json.Marshal payload = inl body ->
  code = http.StatusBadRequest \/ code = http.StatusCreated ->
  response.WriteJson code payload (http.newResponse connErr)
  = (Returned connErr, responded connErr code body).
Proof.
  intros HM Hcode.
  unfold response.WriteJson, bind, http.Header_Set, http.WriteHeader, json.Encode.
  rewrite HM. unfold http.Write, http.writeHeader, http.record, http.newResponse, ret.
  cbn [http.calls http.header http.wroteHeader http.status http.sentHeader
       http.informational http.written http.connErr app filter].
  rewrite length_with_newline.
  destruct Hcode as [-> | ->]; destruct connErr; reflexivity.
Qed.

Lemma onWriter_WriteJson (connErr : option error) (code : Z) (payload : any)
    (body : string) (l : list slog.Record_) :
  json.Marshal payload = inl body ->
  code = http.StatusBadRequest \/ code = http.StatusCreated ->
  student.onWriter (response.WriteJson code payload)
    {| student.w := http.newResponse connErr; student.logs := l |}
  = (Returned connErr, {| student.w := responded connErr code body; student.logs := l |}).
Proof.
  intros HM Hcode. unfold student.onWriter. cbn [student.w student.logs].
  now rewrite (WriteJson_fresh connErr code payload body HM Hcode).
Qed.

Section Answers.
Context {baked : validator.BakedIn}.

Lemma serve_decoded (connErr : option error) (body : string) :
  student.serve connErr body
  = match student.decode body with
    | Panicked msg => (Panicked msg, {| student.w := http.newResponse connErr;
                                        student.logs := logged |})
    | Returned (s, Some io_EOF) => answered connErr 400 (envelope "empty body")
    | Returned (s, Some e) => answered connErr 400 (envelope (Error_ e))
    | Returned (s, None) =>
        match validator.validateFields (typeFields types.Student_type) (types.values s) with
        | [] => answered connErr 201 successBody
        | errs => answered connErr 400 (envelope (response.Error (response.ValidationError errs)))
        end
    end.
Proof.
  unfold student.serve, student.New, bind, student.slog_Info, student.decodeStudent.
  cbn [http.Body student.w student.logs app].
  destruct (student.decode body) as [[s err]|msg]; [|reflexivity].
  destruct err as [e|].
  - destruct e; cbn [Is_EOF];
      (erewrite onWriter_WriteJson; [reflexivity | reflexivity | now left]).
  - cbn [Is_EOF]. unfold validator.Struct.
    destruct (validator.validateFields _ _) as [|fe errs] eqn:Hv.
    + erewrite onWriter_WriteJson; [reflexivity | reflexivity | now right].
    + erewrite onWriter_WriteJson; [reflexivity | reflexivity | now left].
Qed.

End Answers.

(** ** Requests that decode *)

(** A stand-in for the library's e-mail pattern, for running the model
    on concrete requests: exactly one at sign, with text on both sides. *)
Fixpoint countAt (s : string) : nat :=
  match s with
  | EmptyString => 0%nat
  | String c t => ((if (c =? "@")%char then 1 else 0) + countAt t)%nat
  end.

Definition simpleEmail (s : string) : bool :=
  Nat.eqb (countAt s) 1
  && match s with
     | String c _ => negb (c =? "@")%char
     | EmptyString => false
     end
  && match json.dropLast s with
     | Some (_, l) => negb (l =? "@")%char
     | None => false
     end.

Definition testBakedIn : validator.BakedIn :=
  {| validator.isEmail := simpleEmail; validator.isEmail_empty := eq_refl |}.

(** The fields of a student in declaration order, and what the spec
    says of each: the message of the field if it fails its constraints. *)
Inductive FieldId : Type := FName | FEmail | FAge.

Definition declared : list FieldId := [FName; FEmail; FAge].

Section Failures.
Context {baked : validator.BakedIn}.

Definition failure (s : types.Student) (f : FieldId) : option string :=
  match f with
  | FName =>
      if (types.Name s =? "")%string then Some "field Name is required field" else None
  | FEmail =>
      if (types.Email s =? "")%string then Some "field Email is required field"
      else if validator.isEmail (types.Email s) then None
      else Some "field Email is invalid"
  | FAge =>
      if types.Age s =? 0 then Some "field Age is required field"
      else if types.Age s <? 0 then Some "field Age is invalid"
      else None
  end.

Definition failureMessages (s : types.Student) : list string :=
  flat_map (fun f => match failure s f with
                     | Some m => [m]
                     | None => []
                     end) declared.

Lemma validate_student (s : types.Student) :
  map sentence (validator.validateFields (typeFields types.Student_type) (types.values s))
  = failureMessages s.
Proof.
  destruct s as [n e a]. unfold failureMessages, failure, declared.
  cbn [types.values types.Student_type typeFields validator.validateFields
       fieldValidate fieldName validator.firstFailing validator.runTag validator.hasValue
       types.Name types.Email types.Age flat_map].
  destruct (n =? "")%string; destruct (e =? "")%string;
    cbn [negb]; try destruct (validator.isEmail e);
    destruct (Z.eqb_spec a 0); cbn [negb]; try reflexivity;
    destruct (Z.ltb_spec 0 a); destruct (Z.ltb_spec a 0); try lia; reflexivity.
Qed.

Lemma serve_validated (connErr : option error) (body : string) (s : types.Student) :
  student.decode body = Returned (s, None) ->
  student.serve connErr body
  = match failureMessages s with
    | [] => answered connErr 201 successBody
    | msgs => answered connErr 400 (envelope (String.concat ", " msgs))
    end.
Proof.
  intros Hd. rewrite serve_decoded, Hd, <- validate_student.
  destruct (validator.validateFields _ _) as [|fe errs]; [reflexivity|].
  rewrite ValidationError_sentences. reflexivity.
Qed.

End Failures.

(** C1: for every request body that decodes into a student with a
    non-empty name, an e-mail address of valid format and a positive
    age, the handler answers with status 201 and the body
    {"Success":"ok"} (followed by the encoder's newline), and the world
    after the request holds the response and the log line only: no
    student is stored. *)
Theorem valid_student_is_answered_201 :
  forall (baked : validator.BakedIn) (connErr : option error) (body : string)
         (s : types.Student),
    student.decode body = Returned (s, None) ->
    types.Name s <> "" ->
    validator.isEmail (types.Email s) = true ->
    0 < types.Age s ->
    student.serve connErr body = answered connErr http.StatusCreated successBody
    /\ successBody = jsonText "{'Success':'ok'}".
Proof.
  intros baked connErr body s Hd Hn He Ha.
  split; [|reflexivity].
  rewrite (serve_validated connErr body s Hd).
  unfold failureMessages, failure, declared; cbn [flat_map].
  destruct (String.eqb_spec (types.Name s) ""); [contradiction|].
  destruct (String.eqb_spec (types.Email s) "") as [E|_].
  - rewrite E, validator.isEmail_empty in He. discriminate.
  - rewrite He. destruct (Z.eqb_spec (types.Age s) 0); [lia|].
    destruct (Z.ltb_spec (types.Age s) 0); [lia | reflexivity].
Qed.

Definition annBody : string := jsonText "{'name':'Ann','email':'ann@example.com','age':20}".
Definition ann : types.Student :=
  {| types.Name := "Ann"; types.Email := "ann@example.com"; types.Age := 20 |}.

Lemma valid_student_is_answered_201_witness :
  @student.serve testBakedIn None annBody = answered None http.StatusCreated successBody
  /\ successBody = jsonText "{'Success':'ok'}".
Proof.
  apply (valid_student_is_answered_201 testBakedIn None annBody ann).
  - vm_compute. reflexivity.
  - discriminate.
  - reflexivity.
  - reflexivity.
Defined.

(** C2: when several fields of a decoded student fail validation at
    once, the handler answers 400 with an error message that has one
    message for each failing field, not only the first, joined by ", ",
    in the order in which the struct declares the fields. *)
Theorem every_failing_field_is_reported :
  forall (baked : validator.BakedIn) (connErr : option error) (body : string)
         (s : types.Student),
    student.decode body = Returned (s, None) ->
    failureMessages s <> [] ->
    student.serve connErr body
    = answered connErr http.StatusBadRequest
        (envelope (String.concat ", " (failureMessages s)))
    /\ failureMessages s
       = flat_map (fun f => match failure s f with
                            | Some m => [m]
                            | None => []
                            end) [FName; FEmail; FAge].
Proof.
  intros baked connErr body s Hd Hne. split; [|reflexivity].
  rewrite (serve_validated connErr body s Hd).
  destruct (failureMessages s); [contradiction | reflexivity].
Qed.

Definition namelessBody : string := jsonText "{'email':'not-an-email','age':20}".
Definition nameless : types.Student :=
  {| types.Name := ""; types.Email := "not-an-email"; types.Age := 20 |}.

Lemma every_failing_field_is_reported_witness :
  @student.serve testBakedIn None namelessBody
  = answered None http.StatusBadRequest
      (envelope "field Name is required field, field Email is invalid")
  /\ @failureMessages testBakedIn nameless
     = ["field Name is required field"; "field Email is invalid"].
Proof.
  apply (every_failing_field_is_reported testBakedIn None namelessBody nameless).
  - vm_compute. reflexivity.
  - discriminate.
Defined.

(** C4: for a request whose body is empty the handler answers with
    status 400 and the error envelope whose error message is exactly
    "empty body". *)
Theorem empty_body_is_answered_400 :
  forall (baked : validator.BakedIn) (connErr : option error),
    student.serve connErr "" = answered connErr http.StatusBadRequest (envelope "empty body")
    /\ envelope "empty body" = jsonText "{'status':'Error','error':'empty body'}"
    /\ response.GeneralError (fmt.Errorf "empty body")
       = {| response.Status := "Error"; response.Error := "empty body" |}.
Proof.
  intros baked connErr. split; [|split; reflexivity].
  rewrite serve_decoded. reflexivity.
Qed.

(** C5: for every request body that decodes without error and whose
    age is not positive (zero, which is also the age of a body without
    the key, or negative), validation fails and the handler answers with
    status 400; the message names the field Age, as a required field
    for the age zero and as invalid for a negative age. *)
Theorem nonpositive_age_is_answered_400 :
  forall (baked : validator.BakedIn) (connErr : option error) (body : string)
         (s : types.Student),
    student.decode body = Returned (s, None) ->
    types.Age s <= 0 ->
    validator.Struct (validator.ofStruct types.Student_type (types.values s)) <> None
    /\ student.serve connErr body
       = answered connErr http.StatusBadRequest
           (envelope (String.concat ", " (failureMessages s)))
    /\ In (if types.Age s =? 0 then "field Age is required field"
           else "field Age is invalid") (failureMessages s).
Proof.
  intros baked connErr body s Hd Ha.
  assert (Hin : In (if types.Age s =? 0 then "field Age is required field"
                    else "field Age is invalid") (failureMessages s)).
  { unfold failureMessages, declared. apply in_flat_map. exists FAge. split.
    - right; right; left; reflexivity.
    - cbn [failure]. destruct (Z.eqb_spec (types.Age s) 0); [left; reflexivity|].
      destruct (Z.ltb_spec (types.Age s) 0); [left; reflexivity | lia]. }
  split; [|split; [|exact Hin]].
  - unfold validator.Struct. pose proof (validate_student s) as Hv.
    destruct (validator.validateFields _ _); [|discriminate].
    cbn [map] in Hv. rewrite <- Hv in Hin. contradiction.
  - rewrite (serve_validated connErr body s Hd).
    destruct (failureMessages s); [contradiction | reflexivity].
Qed.

Definition negativeAgeBody : string :=
  jsonText "{'name':'Ann','email':'ann@example.com','age':-1}".
Definition negativeAge : types.Student :=
  {| types.Name := "Ann"; types.Email := "ann@example.com"; types.Age := -1 |}.

Lemma nonpositive_age_is_answered_400_witness :
  validator.Struct (baked := testBakedIn)
    (validator.ofStruct types.Student_type (types.values negativeAge)) <> None
  /\ @student.serve testBakedIn None negativeAgeBody
     = answered None http.StatusBadRequest (envelope "field Age is invalid")
  /\ In "field Age is invalid" (@failureMessages testBakedIn negativeAge).
Proof.
  apply (nonpositive_age_is_answered_400 testBakedIn None negativeAgeBody negativeAge).
  - vm_compute. reflexivity.
  - vm_compute. discriminate.
Defined.

(** ** Framing: the first value of the body *)

(** The bytes of [obj] are one JSON object or array (white space may
    come before it), closed by the last byte. *)
Definition oneValue (obj : string) : Prop :=
  json.scanLoop json.reset obj 0 = json.Found (String.length obj).

Lemma scanLoop_append (a b : string) :
  forall (s : json.scanner) (k n : nat),
    json.scanLoop s a k = json.Found n ->
    json.scanLoop s (a ++ b) k = json.Found n.
Proof.
  induction a as [|c a IH]; intros s k n H; [discriminate|].
  cbn [json.scanLoop append] in *.
  destruct (json.callStep s c) as [op s'].
  destruct op; try (apply IH; exact H); try exact H;
    destruct (json.stateEndValue s' " ") as [op2 s''];
    destruct op2; try (apply IH; exact H); exact H.
Qed.

Lemma readValue_append (obj rest : string) :
  oneValue obj ->
  json.readValue (obj ++ rest) = inl (String.length obj)
  /\ json.readValue obj = inl (String.length obj).
Proof.
  intros H. unfold json.readValue.
  rewrite (scanLoop_append obj rest _ _ _ H), H. split; reflexivity.
Qed.

Lemma decode_append (obj rest : string) :
  oneValue obj -> student.decode (obj ++ rest) = student.decode obj.
Proof.
  intros H. unfold student.decode, json.Decode.
  destruct (readValue_append obj rest H) as [-> ->].
  now rewrite take_length_append, take_length.
Qed.

(** C10: the handler decodes the first JSON value of the body only:
    when the body is one student object followed by any further bytes,
    those bytes are ignored, the request is handled as the object alone
    would be, and an object that passes validation is answered with
    201. *)
Theorem trailing_bytes_are_ignored :
  forall (baked : validator.BakedIn) (connErr : option error) (obj rest : string)
         (s : types.Student),
    oneValue obj ->
    student.decode obj = Returned (s, None) ->
    student.decode (obj ++ rest) = Returned (s, None)
    /\ student.serve connErr (obj ++ rest) = student.serve connErr obj
    /\ (failureMessages s = [] ->
        student.serve connErr (obj ++ rest) = answered connErr http.StatusCreated successBody).
Proof.
  intros baked connErr obj rest s Hone Hd.
  assert (Hd' : student.decode (obj ++ rest) = Returned (s, None))
    by (now rewrite decode_append).
  split; [exact Hd'|]. split.
  - now rewrite !serve_decoded, decode_append.
  - intros Hv. rewrite (serve_validated connErr _ s Hd'), Hv. reflexivity.
Qed.

Lemma trailing_bytes_are_ignored_witness :
  student.decode (annBody ++ "]] trailing bytes") = Returned (ann, None)
  /\ @student.serve testBakedIn None (annBody ++ "]] trailing bytes")
     = @student.serve testBakedIn None annBody
  /\ (@failureMessages testBakedIn ann = [] ->
      @student.serve testBakedIn None (annBody ++ "]] trailing bytes")
      = answered None http.StatusCreated successBody).
Proof.
  apply (trailing_bytes_are_ignored testBakedIn None annBody "]] trailing bytes" ann).
  - vm_compute. reflexivity.
  - vm_compute. reflexivity.
Defined.

(** ** The decoder never loses step with the scanner *)

(** The scanner's states inside a string literal, as a machine of
    their own: [strStep] is the step the scanner takes on a byte of the
    text between the quotes. *)
Definition strStep (st : json.StepFn) (c : ascii) : option json.StepFn :=
  match st with
  | json.fnInString =>
      if (c =? dquote)%char then None
      else if (c =? bslash)%char then Some json.fnInStringEsc
      else if byte_val c <? 32 then None
      else Some json.fnInString
  | json.fnInStringEsc =>
      if json.isEscapeLetter c then Some json.fnInString
      else if (c =? "u")%char then Some json.fnInStringEscU
      else None
  | json.fnInStringEscU => if json.isHex c then Some json.fnInStringEscU1 else None
  | json.fnInStringEscU1 => if json.isHex c then Some json.fnInStringEscU12 else None
  | json.fnInStringEscU12 => if json.isHex c then Some json.fnInStringEscU123 else None
  | json.fnInStringEscU123 => if json.isHex c then Some json.fnInString else None
  | _ => None
  end.

Fixpoint strRun (st : json.StepFn) (body : string) : option json.StepFn :=
  match body with
  | EmptyString => Some st
  | String c t =>
      match strStep st c with
      | Some st' => strRun st' t
      | None => None
      end
  end.

Lemma strRun_snoc (body : string) (c : ascii) :
  forall st,
    strRun st (body ++ String c "")
    = match strRun st body with
      | Some st' => strStep st' c
      | None => None
      end.
Proof.
  induction body as [|x body IH]; intros st; cbn [strRun append].
  - destruct (strStep st c); reflexivity.
  - destruct (strStep st x); [apply IH | reflexivity].
Qed.

Lemma length_drop (n : nat) (s : string) :
  (String.length (drop n s) <= String.length s)%nat.
Proof.
  revert s. induction n as [|n IH]; intros s; [simpl; lia|].
  destruct s as [|c s]; simpl; [lia|]. specialize (IH s). lia.
Qed.

Lemma hexval_range (c : ascii) : json.isHex c = true -> 0 <= json.hexval c <= 15.
Proof.
  unfold json.isHex, json.hexval, is_digit, in_range. intros H.
  destruct ((48 <=? byte_val c) && (byte_val c <=? 57)) eqn:E1.
  - apply andb_prop in E1 as [A B]. apply Z.leb_le in A, B. lia.
  - destruct ((97 <=? byte_val c) && (byte_val c <=? 102)) eqn:E2.
    + apply andb_prop in E2 as [A B]. apply Z.leb_le in A, B. lia.
    + cbn [orb] in H. rewrite H. apply andb_prop in H as [A B].
      apply Z.leb_le in A, B. lia.
Qed.

(** An escape [\uXXXX] at the head of the text takes the scanner from
    the string state back to it. *)
Lemma getu4_run (s : string) :
  0 <= json.getu4 s -> strRun json.fnInString s = strRun json.fnInString (drop 6 s).
Proof.
  unfold json.getu4.
  destruct s as [|b [|u [|h1 [|h2 [|h3 [|h4 t]]]]]]; try lia.
  destruct (Ascii.eqb_spec b bslash) as [->|]; [|cbn [andb]; lia].
  destruct (Ascii.eqb_spec u "u") as [->|]; [|cbn [andb]; lia].
  cbn [andb].
  destruct (json.isHex h1) eqn:E1; [|cbn [andb]; lia].
  destruct (json.isHex h2) eqn:E2; [|cbn [andb]; lia].
  destruct (json.isHex h3) eqn:E3; [|cbn [andb]; lia].
  destruct (json.isHex h4) eqn:E4; [|cbn [andb]; lia].
  intros _. cbn [drop].
  change (strRun json.fnInString (String bslash (String "u" (String h1 (String h2
            (String h3 (String h4 t)))))))
    with (match strStep json.fnInStringEscU h1 with
          | Some st1 =>
              match strStep st1 h2 with
              | Some st2 =>
                  match strStep st2 h3 with
                  | Some st3 =>
                      match strStep st3 h4 with
                      | Some st4 => strRun st4 t
                      | None => None
                      end
                  | None => None
                  end
              | None => None
              end
          | None => None
          end).
  cbn [strStep]. rewrite E1. cbn [strStep]. rewrite E2. cbn [strStep]. rewrite E3.
  cbn [strStep]. rewrite E4. reflexivity.
Qed.

Lemma getu4_escape (h1 h2 h3 h4 : ascii) (t : string) :
  json.isHex h1 = true -> json.isHex h2 = true ->
  json.isHex h3 = true -> json.isHex h4 = true ->
  0 <= json.getu4 (String bslash (String "u" (String h1 (String h2 (String h3 (String h4 t)))))).
Proof.
  intros E1 E2 E3 E4. unfold json.getu4.
  replace ((bslash =? bslash)%char) with true by reflexivity.
  replace (("u" =? "u")%char) with true by reflexivity.
  rewrite E1, E2, E3, E4. cbn [andb].
  pose proof (hexval_range _ E1). pose proof (hexval_range _ E2).
  pose proof (hexval_range _ E3). pose proof (hexval_range _ E4). lia.
Qed.

(** A byte from 128 on is an ordinary byte of a string for the scanner. *)
Lemma strStep_high (c : ascii) :
  128 <= byte_val c -> strStep json.fnInString c = Some json.fnInString.
Proof.
  intros H. unfold strStep.
  destruct (Ascii.eqb_spec c dquote) as [->|]; [vm_compute in H; now contradiction H|].
  destruct (Ascii.eqb_spec c bslash) as [->|]; [vm_compute in H; now contradiction H|].
  destruct (Z.ltb_spec (byte_val c) 32); [lia | reflexivity].
Qed.

Lemma in_range_low (lo hi : Z) (c : ascii) : in_range lo hi c = true -> lo <= byte_val c.
Proof. unfold in_range. intros H. apply andb_prop in H as [A _]. now apply Z.leb_le in A. Qed.

(** The bytes [DecodeRuneInString] consumes after a first byte from 128
    on are ordinary bytes of a string too. *)
Lemma decode_run (c : ascii) (t : string) :
  128 <= byte_val c ->
  let size := snd (utf8.DecodeRuneInString (String c t)) in
  (1 <= size)%nat
  /\ strRun json.fnInString (String c t) = strRun json.fnInString (drop size (String c t)).
Proof.
  intros Hc. cbn zeta. unfold utf8.DecodeRuneInString.
  assert (H1 : strRun json.fnInString (String c t) = strRun json.fnInString t)
    by (cbn [strRun]; now rewrite strStep_high).
  assert (Hcont : forall x, utf8.cont x = true -> strStep json.fnInString x = Some json.fnInString)
    by (intros x Hx; apply strStep_high; apply in_range_low in Hx; lia).
  destruct (byte_val c <? 128) eqn:E0; [apply Z.ltb_lt in E0; lia|].
  destruct (byte_val c <? 194); [cbn; split; [lia | exact H1]|].
  destruct (byte_val c <? 224).
  { destruct t as [|s1 t]; [cbn; split; [lia | exact H1]|].
    destruct (utf8.cont s1) eqn:E1; cbn [snd drop]; (split; [lia|]); [|exact H1].
    rewrite H1. cbn [strRun]. now rewrite (Hcont _ E1). }
  destruct (byte_val c <? 240).
  { destruct t as [|s1 [|s2 t]]; try (cbn; split; [lia | exact H1]).
    match goal with |- context [in_range ?lo ?hi s1] =>
      destruct (in_range lo hi s1) eqn:E1 end;
      [|cbn [andb snd drop]; split; [lia | exact H1]].
    destruct (utf8.cont s2) eqn:E2; cbn [andb snd drop]; (split; [lia|]); [|exact H1].
    rewrite H1. cbn [strRun].
    assert (Hs1 : strStep json.fnInString s1 = Some json.fnInString)
      by (apply strStep_high; apply in_range_low in E1;
          destruct (byte_val c =? 224); lia).
    rewrite Hs1, (Hcont _ E2). reflexivity. }
  destruct (byte_val c <? 245); [|cbn; split; [lia | exact H1]].
  destruct t as [|s1 [|s2 [|s3 t]]]; try (cbn; split; [lia | exact H1]).
  match goal with |- context [in_range ?lo ?hi s1] =>
    destruct (in_range lo hi s1) eqn:E1 end;
    [|cbn [andb snd drop]; split; [lia | exact H1]].
  destruct (utf8.cont s2) eqn:E2; [|cbn [andb snd drop]; split; [lia | exact H1]].
  destruct (utf8.cont s3) eqn:E3; cbn [andb snd drop]; (split; [lia|]); [|exact H1].
  rewrite H1. cbn [strRun].
  assert (Hs1 : strStep json.fnInString s1 = Some json.fnInString)
    by (apply strStep_high; apply in_range_low in E1;
        destruct (byte_val c =? 240); lia).
  rewrite Hs1, (Hcont _ E2), (Hcont _ E3). reflexivity.
Qed.

Lemma option_map_some {A B : Type} (f : A -> B) (o : option A) :
  (exists a, o = Some a) -> exists b, option_map f o = Some b.
Proof. intros [a ->]. now exists (f a). Qed.

Lemma unescape_letter (e : ascii) :
  json.isEscapeLetter e = true -> exists x, json.unescape e = Some x.
Proof.
  unfold json.isEscapeLetter, json.unescape. intros H.
  repeat match goal with
         | |- context [if ?c then _ else _] => destruct c eqn:?; [eexists; reflexivity|]
         end.
  repeat match goal with
         | H : (_ || _) = false |- _ => apply orb_false_iff in H as [? ?]
         end.
  repeat match goal with
         | H : (?a =? ?b) = false |- _ => rewrite H in *
         end.
  discriminate.
Qed.

(** The text of a string literal the scanner has accepted is one
    [unquote] decodes. *)
Lemma unquote_loop_total :
  forall (fuel : nat) (body : string),
    (String.length body < fuel)%nat ->
    strRun json.fnInString body = Some json.fnInString ->
    exists k, json.unquote_loop fuel body = Some k.
Proof.
  induction fuel as [|fuel IH]; intros body Hlen Hrun; [lia|].
  destruct body as [|c t]; [now exists ""|].
  cbn [json.unquote_loop]. cbn [strRun strStep] in Hrun. cbn [String.length] in Hlen.
  destruct (Ascii.eqb_spec c bslash) as [->|Hnb].
  - replace ((bslash =? dquote)%char) with false in Hrun by reflexivity.
    replace ((bslash =? bslash)%char) with true in Hrun by reflexivity.
    destruct t as [|e t']; [discriminate|].
    cbn [strRun strStep] in Hrun. cbn [String.length] in Hlen.
    destruct (json.isEscapeLetter e) eqn:Ee.
    + assert (Hu : (e =? "u")%char = false)
        by (destruct (Ascii.eqb_spec e "u") as [->|]; [discriminate | reflexivity]).
      rewrite Hu. destruct (unescape_letter e Ee) as [x ->].
      apply option_map_some. apply IH; [lia | exact Hrun].
    + destruct (Ascii.eqb_spec e "u") as [->|]; [|discriminate].
      destruct t' as [|h1 [|h2 [|h3 [|h4 t'']]]];
        cbn [strRun strStep] in Hrun;
        repeat match type of Hrun with
               | context [if json.isHex ?h then _ else _] =>
                   destruct (json.isHex h) eqn:?; cbn [strRun strStep] in Hrun;
                   [|discriminate]
               end; try discriminate.
      match goal with |- context [json.getu4 ?s] => set (s0 := s) end.
      assert (Hge : 0 <= json.getu4 s0) by (now apply getu4_escape).
      destruct (Z.ltb_spec (json.getu4 s0) 0); [lia|].
      assert (Hrest : drop 6 s0 = t'') by reflexivity.
      rewrite Hrest. cbn [String.length] in Hlen.
      destruct (json.IsSurrogate (json.getu4 s0)).
      * destruct (negb (json.utf16_DecodeRune (json.getu4 s0) (json.getu4 t'') =? utf8.RuneError))
          eqn:Ed.
        -- apply option_map_some. apply IH.
           ++ pose proof (length_drop 6 t''). lia.
           ++ rewrite <- getu4_run; [exact Hrun|].
              unfold json.utf16_DecodeRune in Ed.
              destruct (Z.leb_spec 56320 (json.getu4 t'')); [lia|].
              rewrite !andb_false_r in Ed. discriminate.
        -- apply option_map_some. apply IH; [lia | exact Hrun].
      * apply option_map_some. apply IH; [lia | exact Hrun].
  - destruct (Ascii.eqb_spec c dquote) as [->|Hnq]; [discriminate|].
    cbn [orb].
    destruct (Z.ltb_spec (byte_val c) 32); [discriminate|].
    destruct (Z.ltb_spec (byte_val c) 128).
    + apply option_map_some. apply IH; [lia | exact Hrun].
    + destruct (decode_run c t ltac:(lia)) as [Hsz Heq].
      destruct (utf8.DecodeRuneInString (String c t)) as [rr size]. cbn [snd] in *.
      apply option_map_some. apply IH.
      * destruct size as [|size]; [lia|]. cbn [drop].
        pose proof (length_drop size t). lia.
      * rewrite <- Heq. cbn [strRun strStep].
        destruct (Ascii.eqb_spec c dquote); [contradiction|].
        destruct (Ascii.eqb_spec c bslash); [contradiction|].
        destruct (Z.ltb_spec (byte_val c) 32); [lia | exact Hrun].
Qed.

Lemma dropLast_snoc (s : string) (c : ascii) :
  json.dropLast (s ++ String c "") = Some (s, c).
Proof.
  induction s as [|x s IH]; [reflexivity|].
  cbn [append json.dropLast]. rewrite IH.
  destruct (s ++ String c "") eqn:E; [|reflexivity].
  destruct s; discriminate.
Qed.

Lemma unquote_total (body : string) :
  strRun json.fnInString body = Some json.fnInString ->
  exists k, json.unquote (String dquote (body ++ String dquote "")) = Some k.
Proof.
  intros H. unfold json.unquote. rewrite dropLast_snoc.
  replace ((dquote =? dquote)%char) with true by reflexivity. cbn [andb].
  apply unquote_loop_total; [lia | exact H].
Qed.

(** *** The invariant between scanner and decoder

    After any number of bytes the stack of values under construction
    has the shape of the scanner's [parseState], and the scanner's
    state says what has been read of the value in progress. *)
Definition shape (p : json.ParseState) (x : json.Partial) : Prop :=
  match p, x with
  | json.parseObjectKey, json.PObject _ None => True
  | json.parseObjectValue, json.PObject _ (Some _) => True
  | json.parseArrayValue, json.PArray _ => True
  | _, _ => False
  end.

Definition topNotKey (ps : list json.ParseState) : Prop :=
  match ps with
  | json.parseObjectKey :: _ => False
  | _ => True
  end.

Definition topIsKey (ps : list json.ParseState) : Prop :=
  match ps with
  | json.parseObjectKey :: _ => True
  | _ => False
  end.

Definition topIsArray (ps : list json.ParseState) : Prop :=
  match ps with
  | json.parseArrayValue :: _ => True
  | _ => False
  end.

(** A literal that is not a string: its first byte is no quote. *)
Definition plainLit (raw : string) : Prop :=
  match raw with
  | String c _ => (c =? dquote)%char = false
  | EmptyString => False
  end.

Definition hasValue (b : json.builder) : Prop :=
  exists v, json.pending b = Some (Some v).

(** A string literal has just been closed. *)
Definition stringRead (b : json.builder) : Prop :=
  json.done b = None
  /\ exists body k, json.lit b = Some (String dquote (body ++ String dquote ""))
                    /\ json.unquote (String dquote (body ++ String dquote "")) = Some k.

(** A value has ended: a string, or where no key is expected any
    value. *)
Definition valueRead (ps : list json.ParseState) (b : json.builder) : Prop :=
  stringRead b \/ (topNotKey ps /\ hasValue b).

Definition stepInv (st : json.StepFn) (ps : list json.ParseState) (b : json.builder)
  : Prop :=
  match st with
  | json.fnBeginValue => json.lit b = None /\ json.done b = None /\ topNotKey ps
  | json.fnBeginValueOrEmpty => json.lit b = None /\ json.done b = None /\ topIsArray ps
  | json.fnBeginString | json.fnBeginStringOrEmpty =>
      json.lit b = None /\ json.done b = None /\ topIsKey ps
  | json.fnInString | json.fnInStringEsc | json.fnInStringEscU
  | json.fnInStringEscU1 | json.fnInStringEscU12 | json.fnInStringEscU123 =>
      json.done b = None
      /\ exists body, json.lit b = Some (String dquote body)
                      /\ strRun json.fnInString body = Some st
  | json.fnEndValue => valueRead ps b
  | json.fnEndTop => ps = [] /\ hasValue b
  | json.fnError => True
  | _ =>
      json.done b = None /\ topNotKey ps
      /\ exists raw, json.lit b = Some raw /\ plainLit raw
  end.

Definition Inv (s : json.scanner) (b : json.builder) : Prop :=
  Forall2 shape (json.parseState s) (json.stack b)
  /\ Forall (fun p => p <> json.parseObjectKey) (tl (json.parseState s))
  /\ stepInv (json.step s) (json.parseState s) b.

(** An op code that lets the walk go on. *)
Definition goesOn (op : json.Op) : Prop := op <> json.scanEnd /\ op <> json.scanError.

Lemma plainLit_value (raw : string) :
  plainLit raw -> exists v, json.literalValue raw = Some v.
Proof.
  destruct raw as [|c t]; [contradiction|]. cbn [plainLit json.literalValue].
  intros ->. repeat match goal with
                    | |- context [if ?c then _ else _] => destruct c; [eexists; reflexivity|]
                    end.
  eexists; reflexivity.
Qed.

Lemma plainLit_snoc (raw : string) (c : ascii) : plainLit raw -> plainLit (raw ++ String c "").
Proof. destruct raw; [contradiction | exact (fun H => H)]. Qed.

Lemma stringRead_value (b : json.builder) : stringRead b -> hasValue b.
Proof.
  intros [Hd (body & k & Hl & Hu)]. exists (json.JString k).
  unfold json.pending. rewrite Hd, Hl. unfold json.literalValue.
  replace ((dquote =? "n")%char) with false by reflexivity.
  replace ((dquote =? "t")%char) with false by reflexivity.
  replace ((dquote =? "f")%char) with false by reflexivity.
  replace ((dquote =? dquote)%char) with true by reflexivity.
  now rewrite Hu.
Qed.

Lemma valueRead_value (ps : list json.ParseState) (b : json.builder) :
  valueRead ps b -> hasValue b.
Proof. intros [H | [_ H]]; [now apply stringRead_value | exact H]. Qed.

Lemma valueRead_key (ps : list json.ParseState) (b : json.builder) :
  valueRead (json.parseObjectKey :: ps) b -> stringRead b.
Proof. intros [H | [H _]]; [exact H | contradiction]. Qed.

Lemma plain_valueRead (ps : list json.ParseState) (b : json.builder) (raw : string) :
  json.done b = None -> topNotKey ps -> json.lit b = Some raw -> plainLit raw ->
  valueRead ps b.
Proof.
  intros Hd Ht Hl Hp. right. split; [exact Ht|].
  destruct (plainLit_value raw Hp) as [v Hv]. exists v.
  unfold json.pending. now rewrite Hd, Hl, Hv.
Qed.

Lemma notKey_all (ps : list json.ParseState) :
  topNotKey ps -> Forall (fun p => p <> json.parseObjectKey) (tl ps) ->
  Forall (fun p => p <> json.parseObjectKey) ps.
Proof.
  destruct ps as [|p ps]; [constructor|]. cbn [tl]. intros Ht Hf.
  constructor; [|exact Hf]. destruct p; [contradiction | discriminate | discriminate].
Qed.

Lemma all_topNotKey (ps : list json.ParseState) :
  Forall (fun p => p <> json.parseObjectKey) ps -> topNotKey ps.
Proof.
  intros H. destruct ps as [|p ps]; [exact I|]. inversion H; subst.
  destruct p; [congruence | exact I | exact I].
Qed.

Lemma all_tl (ps : list json.ParseState) :
  Forall (fun p => p <> json.parseObjectKey) ps ->
  Forall (fun p => p <> json.parseObjectKey) (tl ps).
Proof. intros H. destruct ps; [constructor | now inversion H]. Qed.

(** After an object or array is closed: the state [popParseState]
    leaves, with the closed value as the value read. *)
Lemma pop_inv (s : json.scanner) (stk : list json.Partial) (v : json.jvalue) :
  Forall2 shape (tl (json.parseState s)) stk ->
  Forall (fun p => p <> json.parseObjectKey) (tl (json.parseState s)) ->
  Inv (json.popParseState s) {| json.stack := stk; json.lit := None; json.done := Some v |}.
Proof.
  intros Hs Hf. unfold json.popParseState.
  assert (Hv : hasValue {| json.stack := stk; json.lit := None; json.done := Some v |})
    by (exists v; reflexivity).
  destruct (tl (json.parseState s)) as [|p ps] eqn:E; unfold Inv; cbn.
  - repeat split; [exact Hs | constructor | exact Hv].
  - split; [exact Hs|]. split; [now apply (all_tl (p :: ps))|].
    right. split; [now apply all_topNotKey | exact Hv].
Qed.

(** The steps of [stateEndValue]: whatever the state it is called
    from, a value has been read. *)
Lemma endValue_inv (s s' : json.scanner) (b : json.builder) (c : ascii) (op : json.Op) :
  Forall2 shape (json.parseState s) (json.stack b) ->
  Forall (fun p => p <> json.parseObjectKey) (tl (json.parseState s)) ->
  valueRead (json.parseState s) b ->
  json.stateEndValue s c = (op, s') ->
  goesOn op ->
  exists b', json.build b op c = Some b' /\ Inv s' b'.
Proof.
  intros Hshape Hall Hval Hstep [HnE HnErr].
  unfold json.stateEndValue in Hstep.
  destruct s as [st et ps er]. destruct b as [stk l d].
  cbn [json.parseState json.stack] in *.
  destruct ps as [|p ps].
  - unfold json.stateEndTop in Hstep. destruct (negb (json.isSpace c));
      inversion Hstep; subst; contradiction.
  - destruct (json.isSpace c).
    { inversion Hstep; subst. eexists; split; [reflexivity|].
      unfold Inv; cbn. repeat split; assumption. }
    inversion Hshape as [|p0 x ps0 stk0 Hpx Hrest]; subst.
    destruct p.
    + (* a key has been read *)
      destruct (c =? ":")%char; [|inversion Hstep; subst; contradiction].
      inversion Hstep; subst; clear Hstep.
      destruct (valueRead_key _ _ Hval) as [Hd (body & k & Hl & Hu)].
      cbn [json.done json.lit] in Hd, Hl. subst d l.
      destruct x as [ms [k0|]|es]; try contradiction.
      cbn [json.build json.lit json.stack]. rewrite Hu.
      eexists; split; [reflexivity|].
      unfold Inv; cbn. repeat split; try assumption.
      constructor; [exact I | assumption].
    + destruct (valueRead_value _ _ Hval) as [v Hv].
      destruct x as [ms [k0|]|es]; try contradiction.
      destruct (c =? ",")%char.
      { inversion Hstep; subst; clear Hstep.
        cbn [json.build json.stack]. rewrite Hv.
        eexists; split; [reflexivity|].
        unfold Inv; cbn. repeat split; try assumption.
        constructor; [exact I | assumption]. }
      destruct (c =? "}")%char; [|inversion Hstep; subst; contradiction].
      inversion Hstep; subst; clear Hstep.
      cbn [json.build json.stack]. rewrite Hv.
      eexists; split; [reflexivity|]. now apply pop_inv.
    + destruct (valueRead_value _ _ Hval) as [v Hv].
      destruct x as [ms k0|es]; try contradiction.
      destruct (c =? ",")%char.
      { inversion Hstep; subst; clear Hstep.
        cbn [json.build json.stack]. rewrite Hv.
        eexists; split; [reflexivity|].
        unfold Inv; cbn. repeat split; try assumption.
        constructor; [exact I | assumption]. }
      destruct (c =? "]")%char; [|inversion Hstep; subst; contradiction].
      inversion Hstep; subst; clear Hstep.
      cbn [json.build json.stack]. rewrite Hv.
      eexists; split; [reflexivity|]. now apply pop_inv.
Qed.

Lemma push_goesOn (s s' : json.scanner) (c : ascii) (p : json.ParseState)
    (ok op : json.Op) :
  json.pushParseState s c p ok = (op, s') ->
  goesOn op ->
  op = ok
  /\ s' = {| json.step := json.step s; json.endTop := json.endTop s;
             json.parseState := p :: json.parseState s; json.err := json.err s |}.
Proof.
  unfold json.pushParseState. intros H [_ HnErr].
  destruct (Nat.leb _ _); inversion H; subst; [split; reflexivity | contradiction].
Qed.

Ltac step_done Hstep :=
  inversion Hstep; subst; clear Hstep;
  try match goal with H : goesOn json.scanError |- _ => destruct H; contradiction end;
  try match goal with H : goesOn json.scanEnd |- _ => destruct H; contradiction end.

(** The steps of [stateBeginValue]. *)
Lemma beginValue_inv (s s' : json.scanner) (b : json.builder) (c : ascii) (op : json.Op) :
  Forall2 shape (json.parseState s) (json.stack b) ->
  Forall (fun p => p <> json.parseObjectKey) (tl (json.parseState s)) ->
  json.lit b = None -> json.done b = None -> topNotKey (json.parseState s) ->
  (json.step s = json.fnBeginValue \/ json.isSpace c = false) ->
  json.stateBeginValue s c = (op, s') ->
  goesOn op ->
  exists b', json.build b op c = Some b' /\ Inv s' b'.
Proof.
  intros Hshape Hall Hl Hd Htop Hst Hstep Hgo.
  unfold json.stateBeginValue in Hstep.
  destruct s as [st et ps er]. destruct b as [stk l d].
  cbn [json.parseState json.stack json.lit json.done json.step] in *. subst l d.
  destruct (json.isSpace c).
  { step_done Hstep. eexists; split; [reflexivity|]. unfold Inv; cbn.
    destruct Hst as [-> | Hst]; [repeat split; assumption | discriminate]. }
  destruct (c =? "{")%char.
  { apply push_goesOn in Hstep as [-> ->]; [|exact Hgo].
    eexists; split; [reflexivity|]. unfold Inv; cbn.
    repeat split; try assumption; [constructor; [exact I | assumption] | now apply notKey_all]. }
  destruct (c =? "[")%char.
  { apply push_goesOn in Hstep as [-> ->]; [|exact Hgo].
    eexists; split; [reflexivity|]. unfold Inv; cbn.
    repeat split; try assumption; [constructor; [exact I | assumption] | now apply notKey_all]. }
  destruct (c =? dquote)%char eqn:Eq.
  { step_done Hstep. eexists; split; [reflexivity|]. unfold Inv; cbn.
    repeat split; try assumption.
    apply Ascii.eqb_eq in Eq. subst c. exists "". split; reflexivity. }
  assert (Hplain : exists raw,
             Some (String c "") = Some raw /\ plainLit raw)
    by (exists (String c ""); split; [reflexivity | exact Eq]).
  repeat match type of Hstep with
         | (if ?t then _ else _) = _ =>
             destruct t;
             [step_done Hstep; eexists; split; [reflexivity|]; unfold Inv; cbn;
              repeat split; assumption|]
         end.
  step_done Hstep.
Qed.

(** The states inside a string literal: the scanner does what
    [strStep] says, and ends the literal on a quote. *)
Lemma string_inv (s s' : json.scanner) (b : json.builder) (c : ascii) (op : json.Op) :
  Forall2 shape (json.parseState s) (json.stack b) ->
  Forall (fun p => p <> json.parseObjectKey) (tl (json.parseState s)) ->
  json.done b = None ->
  (exists body, json.lit b = Some (String dquote body)
                /\ strRun json.fnInString body = Some (json.step s)) ->
  In (json.step s) [json.fnInString; json.fnInStringEsc; json.fnInStringEscU;
                    json.fnInStringEscU1; json.fnInStringEscU12; json.fnInStringEscU123] ->
  json.callStep s c = (op, s') ->
  goesOn op ->
  exists b', json.build b op c = Some b' /\ Inv s' b'.
Proof.
  intros Hshape Hall Hd (body & Hl & Hrun) Hst Hstep Hgo.
  destruct s as [st et ps er]. destruct b as [stk l d].
  cbn [json.parseState json.stack json.lit json.done json.step] in *. subst l d.
  assert (Hnext : forall st',
             strStep st c = Some st' ->
             strRun json.fnInString (body ++ String c "") = Some st')
    by (intros st' E; now rewrite strRun_snoc, Hrun).
  unfold json.callStep in Hstep. cbn [json.step] in Hstep.
  destruct st; try (exfalso; cbn [In] in Hst; intuition discriminate);
    cbn [strStep] in Hnext;
    unfold json.stateInString, json.stateInStringEsc, json.stateHex in Hstep.
  - (* in the string *)
    destruct (c =? dquote)%char eqn:Eq.
    { step_done Hstep. eexists; split; [reflexivity|]. unfold Inv; cbn.
      repeat split; try assumption. left. split; [reflexivity|].
      apply Ascii.eqb_eq in Eq. subst c.
      destruct (unquote_total body Hrun) as [k Hk].
      exists body, k. split; [reflexivity | exact Hk]. }
    destruct (c =? bslash)%char.
    { step_done Hstep. eexists; split; [reflexivity|]. unfold Inv; cbn.
      repeat split; try assumption. eexists; split; [reflexivity | now apply Hnext]. }
    destruct (byte_val c <? 32); [step_done Hstep|].
    step_done Hstep. eexists; split; [reflexivity|]. unfold Inv; cbn.
    repeat split; try assumption. eexists; split; [reflexivity | now apply Hnext].
  - destruct (json.isEscapeLetter c).
    { step_done Hstep. eexists; split; [reflexivity|]. unfold Inv; cbn.
      repeat split; try assumption. eexists; split; [reflexivity | now apply Hnext]. }
    destruct (c =? "u")%char; [|step_done Hstep].
    step_done Hstep. eexists; split; [reflexivity|]. unfold Inv; cbn.
    repeat split; try assumption. eexists; split; [reflexivity | now apply Hnext].
  - destruct (json.isHex c); [|step_done Hstep].
    step_done Hstep. eexists; split; [reflexivity|]. unfold Inv; cbn.
    repeat split; try assumption. eexists; split; [reflexivity | now apply Hnext].
  - destruct (json.isHex c); [|step_done Hstep].
    step_done Hstep. eexists; split; [reflexivity|]. unfold Inv; cbn.
    repeat split; try assumption. eexists; split; [reflexivity | now apply Hnext].
  - destruct (json.isHex c); [|step_done Hstep].
    step_done Hstep. eexists; split; [reflexivity|]. unfold Inv; cbn.
    repeat split; try assumption. eexists; split; [reflexivity | now apply Hnext].
  - destruct (json.isHex c); [|step_done Hstep].
    step_done Hstep. eexists; split; [reflexivity|]. unfold Inv; cbn.
    repeat split; try assumption. eexists; split; [reflexivity | now apply Hnext].
Qed.

Definition plainState (st : json.StepFn) : Prop :=
  match st with
  | json.fnNeg | json.fn1 | json.fn0 | json.fnDot | json.fnDot0 | json.fnE
  | json.fnESign | json.fnE0
  | json.fnT | json.fnTr | json.fnTru | json.fnF | json.fnFa | json.fnFal | json.fnFals
  | json.fnN | json.fnNu | json.fnNul | json.fnEndValue => True
  | _ => False
  end.

(** One more byte of a number or of [true], [false] or [null]. *)
Lemma plain_continue (s : json.scanner) (b : json.builder) (c : ascii) (st' : json.StepFn) :
  Forall2 shape (json.parseState s) (json.stack b) ->
  Forall (fun p => p <> json.parseObjectKey) (tl (json.parseState s)) ->
  json.done b = None -> topNotKey (json.parseState s) ->
  (exists raw, json.lit b = Some raw /\ plainLit raw) ->
  plainState st' ->
  exists b', json.build b json.scanContinue c = Some b' /\ Inv (json.setStep s st') b'.
Proof.
  intros Hshape Hall Hd Htop (raw & Hl & Hp) Hst.
  destruct s as [st et ps er]. destruct b as [stk l d].
  cbn [json.parseState json.stack json.lit json.done] in *. subst l d.
  eexists; split; [reflexivity|]. unfold Inv, json.setStep; cbn.
  split; [assumption|]. split; [assumption|].
  assert (Hp' : plainLit (raw ++ String c "")) by now apply plainLit_snoc.
  destruct st'; try contradiction; cbn;
    try (repeat split; try assumption; eexists; split; [reflexivity | assumption]).
  eapply plain_valueRead; [reflexivity | assumption | reflexivity | assumption].
Qed.

(** Closing an array or an object that has no element. *)
Lemma emptyArray_inv (s s' : json.scanner) (b : json.builder) (op : json.Op) :
  Forall2 shape (json.parseState s) (json.stack b) ->
  Forall (fun p => p <> json.parseObjectKey) (tl (json.parseState s)) ->
  json.lit b = None -> json.done b = None -> topNotKey (json.parseState s) ->
  json.stateEndValue s "]" = (op, s') ->
  goesOn op ->
  exists b', json.build b op "]" = Some b' /\ Inv s' b'.
Proof.
  intros Hshape Hall Hl Hd Htop Hstep Hgo.
  unfold json.stateEndValue in Hstep.
  destruct s as [st et ps er]. destruct b as [stk l d].
  cbn [json.parseState json.stack json.lit json.done] in *. subst l d.
  destruct ps as [|p ps]; [unfold json.stateEndTop in Hstep; cbn in Hstep; step_done Hstep|].
  replace (json.isSpace "]") with false in Hstep by reflexivity.
  inversion Hshape as [|p0 x ps0 stk0 Hpx Hrest]; subst.
  destruct p; [contradiction | cbn in Hstep; step_done Hstep |].
  replace (("]" =? ",")%char) with false in Hstep by reflexivity.
  replace (("]" =? "]")%char) with true in Hstep by reflexivity.
  step_done Hstep. destruct x as [ms k0|es]; [contradiction|].
  eexists; split; [reflexivity|]. now apply pop_inv.
Qed.

Lemma emptyObject_inv (s s' : json.scanner) (b : json.builder) (op : json.Op) :
  Forall2 shape (json.parseState s) (json.stack b) ->
  Forall (fun p => p <> json.parseObjectKey) (tl (json.parseState s)) ->
  json.lit b = None -> json.done b = None -> topIsKey (json.parseState s) ->
  json.stateEndValue (json.setTop s json.parseObjectValue) "}" = (op, s') ->
  goesOn op ->
  exists b', json.build b op "}" = Some b' /\ Inv s' b'.
Proof.
  intros Hshape Hall Hl Hd Htop Hstep Hgo.
  unfold json.stateEndValue, json.setTop in Hstep.
  destruct s as [st et ps er]. destruct b as [stk l d].
  cbn [json.parseState json.stack json.lit json.done json.step json.endTop json.err] in *.
  subst l d.
  destruct ps as [|p ps]; [contradiction|]. destruct p; try contradiction.
  inversion Hshape as [|p0 x ps0 stk0 Hpx Hrest]; subst.
  replace (json.isSpace "}") with false in Hstep by reflexivity.
  replace (("}" =? ",")%char) with false in Hstep by reflexivity.
  replace (("}" =? "}")%char) with true in Hstep by reflexivity.
  step_done Hstep. destruct x as [ms [k0|]|es]; try contradiction.
  eexists; split; [reflexivity|].
  apply (pop_inv {| json.step := st; json.endTop := et;
                    json.parseState := json.parseObjectValue :: ps; json.err := er |});
    assumption.
Qed.

(** The steps of [stateBeginString]. *)
Lemma beginString_inv (s s' : json.scanner) (b : json.builder) (c : ascii) (op : json.Op) :
  Forall2 shape (json.parseState s) (json.stack b) ->
  Forall (fun p => p <> json.parseObjectKey) (tl (json.parseState s)) ->
  json.lit b = None -> json.done b = None -> topIsKey (json.parseState s) ->
  (json.step s = json.fnBeginString \/ json.step s = json.fnBeginStringOrEmpty) ->
  json.stateBeginString s c = (op, s') ->
  goesOn op ->
  exists b', json.build b op c = Some b' /\ Inv s' b'.
Proof.
  intros Hshape Hall Hl Hd Htop Hst Hstep Hgo.
  unfold json.stateBeginString in Hstep.
  destruct s as [st et ps er]. destruct b as [stk l d].
  cbn [json.parseState json.stack json.lit json.done json.step] in *. subst l d.
  destruct (json.isSpace c).
  { step_done Hstep. eexists; split; [reflexivity|]. unfold Inv; cbn.
    destruct Hst as [-> | ->]; repeat split; assumption. }
  destruct (c =? dquote)%char eqn:Eq; [|step_done Hstep].
  step_done Hstep. eexists; split; [reflexivity|]. unfold Inv; cbn.
  repeat split; try assumption.
  apply Ascii.eqb_eq in Eq. subst c. exists "". split; reflexivity.
Qed.

Ltac plain_facts Hst :=
  destruct Hst as (Hd & Htop & Hraw).

Lemma setStep_same (s : json.scanner) : json.setStep s (json.step s) = s.
Proof. now destruct s. Qed.

Ltac continue_plain Hstep Est :=
  inversion Hstep; subst; clear Hstep;
  first [ apply plain_continue; try assumption; exact I
        | match goal with
          | |- exists b', _ /\ Inv ?x b' =>
              rewrite <- (setStep_same x); rewrite Est;
              apply plain_continue; try assumption; exact I
          end ].

Ltac end_plain Hstep :=
  eapply endValue_inv; try eassumption;
  match goal with
  | Hraw : exists raw, _ /\ plainLit raw |- _ =>
      destruct Hraw as (raw & Hl & Hp); eapply plain_valueRead; eassumption
  end.

Ltac plain_state Hstep Est :=
  repeat match type of Hstep with
         | (if ?t then _ else _) = _ => destruct t; [continue_plain Hstep Est|]
         end;
  first [ step_done Hstep; fail | end_plain Hstep ].

(** Every step the scanner takes without ending or failing is one the
    decoder follows, and the invariant holds after it. *)
Lemma step_inv (s s' : json.scanner) (b : json.builder) (c : ascii) (op : json.Op) :
  Inv s b ->
  json.callStep s c = (op, s') ->
  goesOn op ->
  exists b', json.build b op c = Some b' /\ Inv s' b'.
Proof.
  intros (Hshape & Hall & Hst) Hstep Hgo.
  destruct (json.step s) eqn:Est; cbn [stepInv] in Hst;
    try (eapply string_inv; try eassumption;
         [ tauto
         | destruct Hst as [_ (body & Hl & Hr)]; exists body; rewrite Est; tauto
         | rewrite Est; cbn [In]; tauto ]; fail);
    unfold json.callStep in Hstep; rewrite Est in Hstep;
    try (plain_facts Hst;
         unfold json.stateNeg, json.state1, json.state0, json.stateDot, json.stateDot0,
           json.stateE, json.stateESign, json.stateE0, json.stateLit in Hstep;
         plain_state Hstep Est; fail).
  - (* stateBeginValue *)
    destruct Hst as (Hl & Hd & Htop).
    eapply beginValue_inv; try eassumption. now left.
  - (* stateBeginValueOrEmpty *)
    destruct Hst as (Hl & Hd & Harr).
    assert (Htop : topNotKey (json.parseState s))
      by (destruct (json.parseState s) as [|[] ?]; (contradiction || exact I)).
    unfold json.stateBeginValueOrEmpty in Hstep.
    destruct (json.isSpace c) eqn:Esp.
    { step_done Hstep. eexists; split; [reflexivity|]. unfold Inv. rewrite Est. cbn.
      repeat split; assumption. }
    destruct (c =? "]")%char eqn:Eq.
    + apply Ascii.eqb_eq in Eq. subst c. eapply emptyArray_inv; eassumption.
    + eapply beginValue_inv; try eassumption. now right.
  - (* stateBeginStringOrEmpty *)
    destruct Hst as (Hl & Hd & Htop).
    unfold json.stateBeginStringOrEmpty in Hstep.
    destruct (json.isSpace c).
    { step_done Hstep. eexists; split; [reflexivity|]. unfold Inv. rewrite Est. cbn.
      repeat split; assumption. }
    destruct (c =? "}")%char eqn:Eq.
    + apply Ascii.eqb_eq in Eq. subst c. eapply emptyObject_inv; eassumption.
    + eapply beginString_inv; try eassumption. now right.
  - (* stateBeginString *)
    destruct Hst as (Hl & Hd & Htop).
    eapply beginString_inv; try eassumption. now left.
  - (* stateEndValue *)
    eapply endValue_inv; eassumption.
  - (* stateEndTop *)
    unfold json.stateEndTop in Hstep. destruct (negb (json.isSpace c)); step_done Hstep.
  - (* stateError *)
    step_done Hstep.
Qed.

Ltac scan_cases H :=
  repeat match type of H with
         | context [match ?l with [] => _ | _ :: _ => _ end] => is_var l; destruct l
         | context [if ?t then _ else _] => destruct t
         | context [match ?p with
                    | json.parseObjectKey => _
                    | json.parseObjectValue => _
                    | json.parseArrayValue => _
                    end] => destruct p
         end.

(** The scanner says that the value has ended only when the decoder
    holds a complete value and nothing is left open. *)
Lemma final_inv (s : json.scanner) (b : json.builder) (c : ascii) :
  Inv s b ->
  fst (json.callStep s c) = json.scanEnd ->
  json.stack b = [] /\ hasValue b.
Proof.
  intros (Hshape & Hall & Hst) Hend.
  destruct s as [st et ps er]. cbn [json.parseState json.step] in *.
  assert (Hnil : ps = [] -> hasValue b -> json.stack b = [] /\ hasValue b).
  { intros -> Hv. inversion Hshape. split; [reflexivity | exact Hv]. }
  unfold json.callStep in Hend. cbn [json.step] in Hend.
  destruct st; cbn [stepInv] in Hst;
    unfold json.stateBeginValueOrEmpty, json.stateBeginStringOrEmpty, json.stateBeginValue,
      json.stateBeginString, json.stateInString, json.stateInStringEsc, json.stateHex,
      json.stateNeg, json.state1, json.state0, json.stateDot, json.stateDot0, json.stateE,
      json.stateESign, json.stateE0, json.stateLit, json.stateEndValue, json.stateEndTop,
      json.pushParseState, json.setTop, json.setStep, json.error_ in Hend;
    cbn [json.parseState json.step json.endTop json.err] in Hend.
  all: scan_cases Hend; try discriminate Hend.
  all: try solve [destruct Hst as (_ & _ & Hf); contradiction Hf].
  all: try solve [destruct Hst as [-> Hv]; inversion Hshape; now split].
  all: try solve [apply Hnil; [reflexivity | now apply (valueRead_value [])]].
  all: try solve [apply Hnil; [reflexivity|];
                  destruct Hst as (Hd & _ & raw & Hraw & Hp);
                  destruct (plainLit_value raw Hp) as [v Hv];
                  exists v; unfold json.pending; now rewrite Hd, Hraw, Hv].
Qed.

(** The scanner's state after the end of an object or array is the
    one [popParseState] leaves. *)
Lemma endop_pop (s s' : json.scanner) (c : ascii) (op : json.Op) :
  json.callStep s c = (op, s') ->
  op = json.scanEndObject \/ op = json.scanEndArray ->
  exists s0, s' = json.popParseState s0.
Proof.
  intros Hstep Hop.
  destruct s as [st et ps er].
  unfold json.callStep in Hstep. cbn [json.step] in Hstep.
  destruct st;
    unfold json.stateBeginValueOrEmpty, json.stateBeginStringOrEmpty, json.stateBeginValue,
      json.stateBeginString, json.stateInString, json.stateInStringEsc, json.stateHex,
      json.stateNeg, json.state1, json.state0, json.stateDot, json.stateDot0, json.stateE,
      json.stateESign, json.stateE0, json.stateLit, json.stateEndValue, json.stateEndTop,
      json.pushParseState, json.setTop, json.setStep, json.error_ in Hstep;
    cbn [json.parseState json.step json.endTop json.err] in Hstep.
  all: scan_cases Hstep; inversion Hstep; subst;
    try (destruct Hop; discriminate); eexists; reflexivity.
Qed.

Lemma pop_space (s0 : json.scanner) :
  fst (json.stateEndValue (json.popParseState s0) " ") = json.scanEnd
  \/ json.stateEndValue (json.popParseState s0) " "
     = (json.scanSkipSpace, json.popParseState s0).
Proof.
  unfold json.popParseState, json.stateEndValue.
  destruct (tl (json.parseState s0)); cbn; [left | right]; reflexivity.
Qed.

(** The decoder's walk over a framed value ends with a value. *)
Lemma decodeLoop_total (data : string) :
  forall (s : json.scanner) (b : json.builder) (k : nat),
    Inv s b ->
    match json.scanLoop s data k with
    | json.Found n =>
        (k <= n)%nat /\ exists v, json.decodeLoop s b (take (n - k) data) = Some v
    | json.Exhausted sf =>
        fst (json.callStep sf " ") = json.scanEnd ->
        exists v, json.decodeLoop s b data = Some v
    | json.Failed _ => True
    end.
Proof.
  assert (Hfinal : forall s b c, Inv s b -> fst (json.callStep s c) = json.scanEnd ->
                     exists v, json.decodeLoop s b "" = Some v).
  { intros s b c HI He. destruct (final_inv s b c HI He) as [Hs [v Hv]].
    exists v. cbn [json.decodeLoop]. now rewrite Hs, Hv. }
  induction data as [|c rest IH]; intros s b k HI.
  - cbn [json.scanLoop]. intros He. now apply (Hfinal s b " "%char).
  - cbn [json.scanLoop].
    destruct (json.callStep s c) as [op s'] eqn:Hstep.
    assert (Hgo : goesOn op ->
              match json.scanLoop s' rest (S k) with
              | json.Found n =>
                  (k <= n)%nat
                  /\ exists v, json.decodeLoop s b (take (n - k) (String c rest)) = Some v
              | json.Exhausted sf =>
                  fst (json.callStep sf " ") = json.scanEnd ->
                  exists v, json.decodeLoop s b (String c rest) = Some v
              | json.Failed _ => True
              end).
    { intros Hgo. destruct (step_inv s s' b c op HI Hstep Hgo) as (b' & Hb & HI').
      specialize (IH s' b' (S k) HI').
      destruct (json.scanLoop s' rest (S k)) as [n|e|sf]; [|exact I|].
      - destruct IH as [Hle [v Hv]]. split; [lia|]. exists v.
        replace (n - k)%nat with (S (n - S k)) by lia.
        cbn [take json.decodeLoop]. now rewrite Hstep, Hb.
      - intros He. destruct (IH He) as [v Hv]. exists v.
        cbn [json.decodeLoop]. now rewrite Hstep, Hb. }
    assert (Hclose : op = json.scanEndObject \/ op = json.scanEndArray ->
              match (let (op2, s'') := json.stateEndValue s' " " in
                     match op2 with
                     | json.scanEnd => json.Found (S k)
                     | _ => json.scanLoop s'' rest (S k)
                     end) with
              | json.Found n =>
                  (k <= n)%nat
                  /\ exists v, json.decodeLoop s b (take (n - k) (String c rest)) = Some v
              | json.Exhausted sf =>
                  fst (json.callStep sf " ") = json.scanEnd ->
                  exists v, json.decodeLoop s b (String c rest) = Some v
              | json.Failed _ => True
              end).
    { intros Hop.
      assert (Hg : goesOn op) by (split; destruct Hop; subst; discriminate).
      destruct (endop_pop s s' c op Hstep Hop) as [s0 ->].
      destruct (pop_space s0) as [He | He].
      - assert (Hend : fst (json.callStep (json.popParseState s0) " ") = json.scanEnd).
        { clear - He. unfold json.popParseState, json.stateEndValue in *.
          destruct (tl (json.parseState s0)); cbn in *; [reflexivity | discriminate]. }
        destruct (json.stateEndValue (json.popParseState s0) " ") as [op2 s''].
        cbn [fst] in He. subst op2. split; [lia|].
        destruct (step_inv _ _ b c op HI Hstep Hg) as (b' & Hb & HI').
        replace (S k - k)%nat with 1%nat by lia. cbn [take json.decodeLoop].
        rewrite Hstep, Hb.
        apply (Hfinal _ _ " "%char HI' Hend).
      - rewrite He. now apply Hgo. }
    destruct op; try (apply Hgo; split; discriminate);
      try (apply Hclose; tauto).
    + (* scanEnd: the value ended before this byte *)
      split; [lia|]. replace (k - k)%nat with 0%nat by lia. cbn [take].
      apply (Hfinal s b c HI). now rewrite Hstep.
    + exact I.
Qed.

(** [Decode] returns on every body: the decoder's second pass never
    finds the scanner in a state it does not expect. *)
Lemma Decode_returns (t : StructType) (vals : list Value) (body : string) :
  exists r, json.Decode t vals body = Returned r.
Proof.
  assert (HI : Inv json.reset json.emptyBuilder).
  { unfold Inv; cbn. repeat split; constructor. }
  unfold json.Decode, json.readValue.
  pose proof (decodeLoop_total body json.reset json.emptyBuilder 0 HI) as H.
  destruct (json.scanLoop json.reset body 0) as [n|e|sf].
  - destruct H as [_ [v Hv]]. rewrite Nat.sub_0_r in Hv. rewrite Hv. eexists; reflexivity.
  - eexists; reflexivity.
  - destruct (fst (json.callStep sf " ")) eqn:E;
      try (destruct (json.nonSpace body); eexists; reflexivity).
    destruct (H eq_refl) as [v Hv]. rewrite take_length, Hv. eexists; reflexivity.
Qed.

Section NoPanic.
Context {baked : validator.BakedIn}.

(** C6: no error that arises while a request is handled makes the
    handler panic: whatever the body and whether or not the connection
    takes the response, the handler returns after setting the header,
    writing one status code (400 or 201) and making one write of the
    body. *)
Theorem handler_returns_after_one_response :
  forall (connErr : option error) (body : string),
    exists (code : Z) (text : string),
      student.serve connErr body = answered connErr code text
      /\ (code = http.StatusBadRequest \/ code = http.StatusCreated)
      /\ http.calls (student.w (snd (student.serve connErr body)))
         = [http.CallHeaderSet "Content-Type" "application/json";
            http.CallWriteHeader code;
            http.CallWrite (text ++ String newline "")].
Proof.
  intros connErr body.
  assert (H : exists code text,
             student.serve connErr body = answered connErr code text
             /\ (code = http.StatusBadRequest \/ code = http.StatusCreated)).
  { rewrite serve_decoded. unfold student.decode.
    destruct (Decode_returns types.Student_type (types.values types.zero) body)
      as [[vals err] ->].
    destruct err as [e|].
    - destruct e; eexists; eexists; (split; [reflexivity | now left]).
    - destruct (validator.validateFields _ _);
        eexists; eexists; (split; [reflexivity|]); [now right | now left]. }
  destruct H as (code & text & Hs & Hc). exists code, text.
  split; [exact Hs|]. split; [exact Hc|]. rewrite Hs. reflexivity.
Qed.

End NoPanic.

(** ** Shutdown *)

Definition shuttingDown : slog.Record_ :=
  {| slog.level := slog.LevelInfo; slog.message := "shutting down the server";
     slog.attrs := [] |}.

Definition shutdownFailed : slog.Record_ :=
  {| slog.level := slog.LevelError; slog.message := "Failed to shutdown server";
     slog.attrs := [("error", "context deadline exceeded")] |}.

Definition shutdownDone : slog.Record_ :=
  {| slog.level := slog.LevelInfo; slog.message := "server shutdown successfully";
     slog.attrs := [] |}.

(** What a draining process has become after some events: it still
    drains, before its deadline, or [main] has returned, with or
    without the error of [Shutdown] in the log. *)
Definition drained (d : Z) (r r' : main.Process) (events : list main.Event) : Prop :=
  main.listening r' = false
  /\ (main.active r' <= main.active r)%nat
  /\ ((main.phase r' = main.Draining d
       /\ main.now r' = main.now r + main.elapsed events
       /\ main.now r' < d
       /\ main.logs r' = main.logs r)
      \/ (main.phase r' = main.Stopped
          /\ main.now r' <= main.now r + main.elapsed events
          /\ (main.logs r' = main.logs r ++ [shutdownDone]
              \/ main.logs r' = main.logs r ++ [shutdownFailed; shutdownDone])))%list.

Lemma run_stopped (events : list main.Event) (r : main.Process) :
  main.phase r = main.Stopped -> main.run r events = r.
Proof.
  intros H. induction events as [|e events IH]; [reflexivity|].
  unfold main.run in *. cbn [fold_left]. unfold main.step at 2. now rewrite H.
Qed.

Lemma elapsed_nonneg (events : list main.Event) : 0 <= main.elapsed events.
Proof. induction events as [|[] events IH]; cbn [main.elapsed]; lia. Qed.

Lemma draining_run (d : Z) (events : list main.Event) :
  forall r : main.Process,
    main.phase r = main.Draining d -> main.now r < d -> main.listening r = false ->
    drained d r (main.run r events) events.
Proof.
  induction events as [|e events IH]; intros r Hph Hnow Hl.
  - unfold drained, main.run; cbn. repeat split; try lia; try assumption.
    left. repeat split; try assumption; lia.
  - unfold main.run. cbn [fold_left]. fold (main.run (main.step r e) events).
    assert (Hstop : forall r1 : main.Process,
               main.phase r1 = main.Stopped -> main.listening r1 = false ->
               (main.active r1 <= main.active r)%nat ->
               main.now r1 <= main.now r + main.elapsed (e :: events) ->
               (main.logs r1 = main.logs r ++ [shutdownDone]
                \/ main.logs r1 = main.logs r ++ [shutdownFailed; shutdownDone])%list ->
               drained d r (main.run r1 events) (e :: events)).
    { intros r1 H1 H2 H3 H4 H5. rewrite (run_stopped events r1 H1).
      unfold drained. repeat split; try assumption. right. repeat split; assumption. }
    assert (Hsame : forall r1 : main.Process,
               main.phase r1 = main.Draining d -> main.listening r1 = false ->
               (main.active r1 <= main.active r)%nat ->
               main.now r1 = main.now r + (main.elapsed (e :: events) - main.elapsed events) ->
               main.now r1 < d -> main.logs r1 = main.logs r ->
               drained d r (main.run r1 events) (e :: events)).
    { intros r1 H1 H2 H3 H4 H5 H6.
      destruct (IH r1 H1 H5 H2) as (A & B & C). unfold drained.
      split; [exact A|]. split; [lia|]. rewrite <- H6.
      destruct C as [(C1 & C2 & C3 & C4) | (C1 & C2 & C3)]; [left | right];
        repeat split; try assumption; lia. }
    pose proof (elapsed_nonneg events) as Hev.
    unfold main.step. rewrite Hph. destruct e as [sig| | |dt|err].
    + apply Hsame; try assumption; try reflexivity; cbn [main.elapsed]; lia.
    + apply Hsame; try assumption; try reflexivity; cbn [main.elapsed]; lia.
    + destruct (main.active r) as [|[|n]] eqn:Ea.
      * apply Hstop;
          [reflexivity | exact Hl | cbn; lia | cbn [main.elapsed]; cbn; lia | left; reflexivity].
      * apply Hstop;
          [reflexivity | exact Hl | cbn; lia | cbn [main.elapsed]; cbn; lia | left; reflexivity].
      * apply Hsame; cbn; try assumption; try reflexivity; cbn [main.elapsed]; lia.
    + cbn [main.now main.tick]. destruct (Z.leb_spec d (main.now r + Z.max 0 dt)).
      * apply Hstop;
          [reflexivity | exact Hl | cbn; lia | cbn [main.elapsed]; cbn; lia
          | right; cbn; rewrite <- app_assoc; reflexivity].
      * apply Hsame; cbn; try assumption; try reflexivity; cbn [main.elapsed]; lia.
    + apply Hsame; try assumption; try reflexivity; cbn [main.elapsed]; lia.
Qed.

(** C8: on a termination signal (interrupt or terminate) the serving
    process logs the shutdown and enters a drain phase whose deadline
    is five seconds away; while it drains the listener is closed and no
    request is added to those in flight; when the deadline passes with
    requests still in flight the error of Shutdown is logged; and in
    either case main logs its last line and returns, five seconds after
    the signal at the latest. *)
Theorem signal_starts_bounded_drain :
  forall (p : main.Process) (sig : main.Signal),
    main.phase p = main.Serving ->
    let q := main.step p (main.Deliver sig) in
    (* the drain phase and its deadline *)
    (match main.active p with
     | O => main.phase q = main.Stopped
            /\ main.logs q = (main.logs p ++ [shuttingDown; shutdownDone])%list
     | S _ => main.phase q = main.Draining (main.now p + 5 * main.Second)
              /\ main.logs q = (main.logs p ++ [shuttingDown])%list
     end)
    /\ main.listening q = false
    (* nothing new is accepted, and the drain is bounded *)
    /\ (forall events,
          main.listening (main.run q events) = false
          /\ (main.active (main.run q events) <= main.active p)%nat
          /\ (5 * main.Second <= main.elapsed events ->
              main.phase (main.run q events) = main.Stopped))
    (* the deadline passing with requests in flight *)
    /\ (forall dt, main.active p <> 0%nat -> 5 * main.Second <= dt ->
          main.phase (main.run q [main.Elapse dt]) = main.Stopped
          /\ main.logs (main.run q [main.Elapse dt])
             = (main.logs p ++ [shuttingDown; shutdownFailed; shutdownDone])%list)
    (* the last request finishing in time *)
    /\ (main.active p = 1%nat ->
          main.phase (main.run q [main.Finish]) = main.Stopped
          /\ main.logs (main.run q [main.Finish])
             = (main.logs p ++ [shuttingDown; shutdownDone])%list).
Proof.
  intros p sig Hph q.
  assert (Hq : q = main.afterSignal p) by (unfold q, main.step; now rewrite Hph).
  destruct (main.active p) as [|n] eqn:Ea.
  - (* no request in flight: Shutdown returns at once *)
    assert (Hstop : main.phase q = main.Stopped)
      by (rewrite Hq; unfold main.afterSignal; cbn; now rewrite Ea).
    assert (Hl : main.listening q = false)
      by (rewrite Hq; unfold main.afterSignal; cbn; now rewrite Ea).
    assert (Ha : main.active q = 0%nat)
      by (rewrite Hq; unfold main.afterSignal; cbn; now rewrite Ea).
    split; [split; [exact Hstop|]|].
    { rewrite Hq. unfold main.afterSignal; cbn. rewrite Ea. cbn.
      now rewrite <- app_assoc. }
    split; [exact Hl|]. split; [|split].
    + intros events. rewrite (run_stopped events q Hstop).
      repeat split; [exact Hl | lia | intros _; exact Hstop].
    + intros dt Hne. contradiction.
    + discriminate.
  - assert (Hd : main.phase q = main.Draining (main.now p + 5 * main.Second))
      by (rewrite Hq; unfold main.afterSignal; cbn; now rewrite Ea).
    assert (Hl : main.listening q = false)
      by (rewrite Hq; unfold main.afterSignal; cbn; now rewrite Ea).
    assert (Ha : main.active q = S n)
      by (rewrite Hq; unfold main.afterSignal; cbn; now rewrite Ea).
    assert (Hn : main.now q = main.now p)
      by (rewrite Hq; unfold main.afterSignal; cbn; now rewrite Ea).
    assert (Hlog : main.logs q = (main.logs p ++ [shuttingDown])%list)
      by (rewrite Hq; unfold main.afterSignal; cbn; now rewrite Ea).
    split; [split; assumption|]. split; [exact Hl|]. split; [|split].
    + intros events.
      destruct (draining_run _ events q Hd ltac:(rewrite Hn; unfold main.Second; lia) Hl)
        as (A & B & C).
      split; [exact A|]. split; [lia|]. intros He.
      destruct C as [(_ & C2 & C3 & _) | (C1 & _)]; [lia | exact C1].
    + intros dt _ Hdt. unfold main.run. cbn [fold_left]. unfold main.step. rewrite Hd.
      cbn [main.now main.tick]. rewrite Hn.
      destruct (Z.leb_spec (main.now p + 5 * main.Second) (main.now p + Z.max 0 dt)); [|lia].
      cbn. rewrite Hlog, <- !app_assoc. split; reflexivity.
    + intros H1. inversion H1; subst n. unfold main.run. cbn [fold_left].
      unfold main.step. rewrite Hd, Ha. cbn. rewrite Hlog, <- !app_assoc.
      split; reflexivity.
Qed.

Definition busy : main.Process :=
  main.run (main.started 0) [main.Connect; main.Connect; main.Elapse 7].

Lemma signal_starts_bounded_drain_witness :
  let q := main.step busy (main.Deliver main.SIGTERM) in
  (match main.active busy with
   | O => main.phase q = main.Stopped
          /\ main.logs q = (main.logs busy ++ [shuttingDown; shutdownDone])%list
   | S _ => main.phase q = main.Draining (main.now busy + 5 * main.Second)
            /\ main.logs q = (main.logs busy ++ [shuttingDown])%list
   end)
  /\ main.listening q = false
  /\ (forall events,
        main.listening (main.run q events) = false
        /\ (main.active (main.run q events) <= main.active busy)%nat
        /\ (5 * main.Second <= main.elapsed events ->
            main.phase (main.run q events) = main.Stopped))
  /\ (forall dt, main.active busy <> 0%nat -> 5 * main.Second <= dt ->
        main.phase (main.run q [main.Elapse dt]) = main.Stopped
        /\ main.logs (main.run q [main.Elapse dt])
           = (main.logs busy ++ [shuttingDown; shutdownFailed; shutdownDone])%list)
  /\ (main.active busy = 1%nat ->
        main.phase (main.run q [main.Finish]) = main.Stopped
        /\ main.logs (main.run q [main.Finish])
           = (main.logs busy ++ [shuttingDown; shutdownDone])%list).
Proof. apply (signal_starts_bounded_drain busy main.SIGTERM). reflexivity. Defined.

(** ** More on the handler's answers *)

Lemma scanLoop_spaces (body : string) :
  json.nonSpace body = false ->
  forall k, json.scanLoop json.reset body k = json.Exhausted json.reset.
Proof.
  induction body as [|c body IH]; intros H k; [reflexivity|].
  cbn [json.nonSpace] in H. cbn [json.scanLoop].
  unfold json.callStep, json.stateBeginValue. cbn [json.step json.reset].
  destruct (json.isSpace c); [|discriminate]. now apply IH.
Qed.

Lemma decode_blank (body : string) :
  json.nonSpace body = false ->
  student.decode body = Returned (types.zero, Some io_EOF).
Proof.
  intros H. unfold student.decode, json.Decode, json.readValue.
  rewrite (scanLoop_spaces body H 0), H. reflexivity.
Qed.

(** X1: a body of white space only (spaces, tabs, line ends) counts as
    empty: the decoder returns io.EOF and the handler answers 400 with
    the message "empty body". *)
Theorem blank_body_is_answered_as_empty :
  forall (baked : validator.BakedIn) (connErr : option error) (body : string),
    json.nonSpace body = false ->
    student.decode body = Returned (types.zero, Some io_EOF)
    /\ student.serve connErr body
       = answered connErr http.StatusBadRequest (envelope "empty body").
Proof.
  intros baked connErr body H. split; [now apply decode_blank|].
  now rewrite serve_decoded, decode_blank.
Qed.

Definition blankBody : string := "  " ++ String newline (String "009"%char " ").

Lemma blank_body_is_answered_as_empty_witness :
  student.decode blankBody = Returned (types.zero, Some io_EOF)
  /\ @student.serve testBakedIn None blankBody
     = answered None http.StatusBadRequest (envelope "empty body").
Proof. apply (blank_body_is_answered_as_empty testBakedIn None blankBody). reflexivity. Defined.

Section Verdicts.
Context {baked : validator.BakedIn}.

Lemma no_failure_iff (s : types.Student) :
  failureMessages s = []
  <-> types.Name s <> "" /\ types.Email s <> ""
      /\ validator.isEmail (types.Email s) = true /\ 0 < types.Age s.
Proof.
  unfold failureMessages, failure, declared; cbn [flat_map].
  destruct (String.eqb_spec (types.Name s) "");
    destruct (String.eqb_spec (types.Email s) "");
    destruct (validator.isEmail (types.Email s));
    destruct (Z.eqb_spec (types.Age s) 0);
    destruct (Z.ltb_spec (types.Age s) 0); cbn;
    split; intros Hyp; try discriminate; try lia;
    try (repeat split; (congruence || lia));
    destruct Hyp as (? & ? & ? & ?); (congruence || lia).
Qed.

Lemma status_of_serve (connErr : option error) (body : string) :
  exists code text,
    student.serve connErr body = answered connErr code text
    /\ ((code = 201 /\ text = successBody
         /\ exists s, student.decode body = Returned (s, None) /\ failureMessages s = [])
        \/ (code = 400
            /\ forall s, student.decode body = Returned (s, None) ->
                         failureMessages s <> [])).
Proof.
  rewrite serve_decoded. unfold student.decode.
  destruct (Decode_returns types.Student_type (types.values types.zero) body)
    as [[vals err] ->].
  destruct err as [e|].
  - destruct e; eexists; eexists; (split; [reflexivity|]); right;
      (split; [reflexivity | intros s1 Hs; discriminate]).
  - destruct (validator.validateFields _ _) as [|fe errs] eqn:Hv;
      eexists; eexists; (split; [reflexivity|]).
    + left. repeat split. exists (types.ofValues vals). split; [reflexivity|].
      now rewrite <- validate_student, Hv.
    + right. split; [reflexivity|]. intros s1 Hs. inversion Hs; subst s1.
      rewrite <- validate_student, Hv. discriminate.
Qed.

(** X2: the handler answers 201 exactly for the bodies that decode
    without error into a student with a name, an e-mail address that is
    not empty and has the format of one, and a positive age; in every
    other case the status is 400. *)
Theorem created_exactly_for_valid_students :
  forall (connErr : option error) (body : string),
    (http.status (student.w (snd (student.serve connErr body))) = http.StatusCreated
     <-> exists s, student.decode body = Returned (s, None)
                   /\ types.Name s <> "" /\ types.Email s <> ""
                   /\ validator.isEmail (types.Email s) = true /\ 0 < types.Age s)
    /\ (http.status (student.w (snd (student.serve connErr body))) = http.StatusCreated
        \/ http.status (student.w (snd (student.serve connErr body))) = http.StatusBadRequest).
Proof.
  intros connErr body.
  destruct (status_of_serve connErr body) as (code & text & Hs & Hc).
  rewrite Hs. cbn [snd answered student.w responded http.status].
  destruct Hc as [(-> & _ & s & Hd & Hv) | (-> & Hnot)].
  - split; [|now left]. split; [|reflexivity].
    intros _. exists s. split; [exact Hd|]. now apply no_failure_iff.
  - split; [|now right]. split; [discriminate|].
    intros (s & Hd & Hvalid). exfalso. apply (Hnot s Hd). now apply no_failure_iff.
Qed.

End Verdicts.

(** *** The messages of decode errors *)

(** Once the scanner is in its error state it holds a syntax error
    with a message. *)
Definition errOk (s : json.scanner) : Prop :=
  json.step s = json.fnError ->
  exists m, json.err s = Some (SyntaxError m) /\ m <> "".

Ltac unfold_states H :=
  unfold json.callStep in H; cbn [json.step] in H;
  unfold json.stateBeginValueOrEmpty, json.stateBeginStringOrEmpty, json.stateBeginValue,
    json.stateBeginString, json.stateInString, json.stateInStringEsc, json.stateHex,
    json.stateNeg, json.state1, json.state0, json.stateDot, json.stateDot0, json.stateE,
    json.stateESign, json.stateE0, json.stateLit, json.stateEndValue, json.stateEndTop,
    json.pushParseState, json.popParseState, json.setTop, json.setStep, json.error_ in H;
  cbn [json.parseState json.step json.endTop json.err fst snd tl] in H.

Lemma callStep_errOk (s s' : json.scanner) (c : ascii) (op : json.Op) :
  errOk s ->
  json.callStep s c = (op, s') ->
  errOk s' /\ (op = json.scanError -> json.step s' = json.fnError).
Proof.
  intros Hok Hstep. destruct s as [st et ps er].
  destruct st; unfold_states Hstep.
  all: scan_cases Hstep; inversion Hstep; subst; clear Hstep.
  all: split; [|intros Hop; try discriminate Hop; reflexivity].
  all: unfold errOk; cbn [json.step json.err]; intros Hf; try discriminate Hf.
  all: try (eexists; split; [reflexivity | discriminate]).
  all: exact (Hok eq_refl).
Qed.

Lemma endValue_space_errOk (s : json.scanner) :
  errOk s -> json.step s <> json.fnError -> errOk (snd (json.stateEndValue s " ")).
Proof.
  intros Hok Hne. unfold json.stateEndValue, json.stateEndTop, json.setStep.
  destruct (json.parseState s); cbn; intros Hf; discriminate.
Qed.

Lemma scanLoop_failed (body : string) :
  forall (s : json.scanner) (k : nat) (e : error),
    errOk s -> json.scanLoop s body k = json.Failed e -> Error_ e <> "".
Proof.
  induction body as [|c body IH]; intros s k e Hok H; [discriminate|].
  cbn [json.scanLoop] in H.
  destruct (json.callStep s c) as [op s'] eqn:Hstep.
  destruct (callStep_errOk s s' c op Hok Hstep) as [Hok' Herr].
  assert (Hnext : json.scanLoop s' body (S k) = json.Failed e -> Error_ e <> "")
    by (apply IH; exact Hok').
  assert (Hclose : op = json.scanEndObject \/ op = json.scanEndArray ->
            (let (op2, s'') := json.stateEndValue s' " " in
             match op2 with
             | json.scanEnd => json.Found (S k)
             | _ => json.scanLoop s'' body (S k)
             end) = json.Failed e -> Error_ e <> "").
  { intros Hop. destruct (endop_pop s s' c op Hstep Hop) as [s0 ->].
    destruct (pop_space s0) as [He | He].
    - destruct (json.stateEndValue (json.popParseState s0) " ") as [op2 s''].
      cbn [fst] in He. subst op2. discriminate.
    - rewrite He. exact Hnext. }
  destruct op; try (exact (Hnext H)); try (apply Hclose; [tauto | exact H]);
    [discriminate|].
  inversion H; subst e. unfold json.scanErr.
  destruct (Hok' (Herr eq_refl)) as (m & -> & Hm). exact Hm.
Qed.

Lemma storeStruct_error (t : StructType) (vals vals' : list Value) (v : json.jvalue)
    (e : error) :
  json.storeStruct t vals v = (vals', Some e) -> Error_ e <> "".
Proof.
  assert (Hmsg : forall a b c d, Error_ (UnmarshalTypeError a b c d) <> "")
    by (intros a b c d; unfold Error_; destruct ((c =? "") && (d =? ""))%string;
        discriminate).
  assert (Hfold : forall members st,
             (forall e0, snd st = Some e0 -> Error_ e0 <> "") ->
             forall e0, snd (fold_left (json.storeMember t) members st) = Some e0 ->
                        Error_ e0 <> "").
  { induction members as [|m members IH]; intros st Hst e0 H0; [now apply Hst|].
    cbn [fold_left] in H0. apply (IH (json.storeMember t st m)); [|exact H0].
    intros e1 H1. unfold json.storeMember in H1. destruct st as [vs saved].
    destruct (json.findField (typeFields t) (fst m)) as [[i f]|]; [|now apply Hst].
    destruct (json.literalStore (fieldKind f) (snd m)); cbn [snd] in *;
      try (now apply Hst).
    unfold json.saveError in H1. destruct saved; [now apply Hst|].
    inversion H1; subst. apply Hmsg. }
  intros H. destruct v; cbn [json.storeStruct] in H;
    try (inversion H; subst; apply Hmsg); try discriminate.
  apply (Hfold members (vals, None)); [intros e0 H0; discriminate|].
  now rewrite H.
Qed.

Lemma decode_error_message (body : string) (s : types.Student) (e : error) :
  student.decode body = Returned (s, Some e) -> Error_ e <> "".
Proof.
  unfold student.decode, json.Decode, json.readValue. intros H.
  assert (Hok : errOk json.reset) by (intros Hf; discriminate).
  destruct (json.scanLoop json.reset body 0) as [n|e0|sf] eqn:Hscan.
  - destruct (json.decodeLoop _ _ _); [|discriminate].
    destruct (json.storeStruct _ _ _) as [vals' err'] eqn:Hst.
    inversion H; subst. now apply (storeStruct_error _ _ _ _ _ Hst).
  - inversion H; subst. now apply (scanLoop_failed body json.reset 0).
  - destruct (fst (json.callStep sf " ")).
    all: try (destruct (json.nonSpace body); inversion H; subst; discriminate).
    destruct (json.decodeLoop _ _ _); [|discriminate].
    destruct (json.storeStruct _ _ _) as [vals' err'] eqn:Hst.
    inversion H; subst. now apply (storeStruct_error _ _ _ _ _ Hst).
Qed.

Lemma concat_nonempty (sep x : string) (l : list string) :
  x <> "" -> String.concat sep (x :: l) <> "".
Proof.
  intros Hx. destruct l as [|y l]; cbn [String.concat]; [exact Hx|].
  destruct x; [contradiction | discriminate].
Qed.

Section Messages.
Context {baked : validator.BakedIn}.

(** X3: every answer of the handler is either the 201 success body or
    a 400 error envelope whose message is not empty: "empty body", the
    message of the decode error, or the messages of the failing
    fields. *)
Theorem every_answer_is_success_or_says_why :
  forall (connErr : option error) (body : string),
    student.serve connErr body = answered connErr http.StatusCreated successBody
    \/ exists msg, msg <> ""
                   /\ student.serve connErr body
                      = answered connErr http.StatusBadRequest (envelope msg).
Proof.
  intros connErr body. rewrite serve_decoded.
  destruct (student.decode body) as [[s err]|msg] eqn:Hd.
  - destruct err as [e|].
    + right. pose proof (decode_error_message body s e Hd) as Hm.
      destruct e; try (eexists; split; [|reflexivity]; exact Hm).
      exists "empty body". split; [discriminate | reflexivity].
    + destruct (validator.validateFields _ _) as [|fe errs]; [now left|].
      right. eexists. split; [|reflexivity].
      rewrite ValidationError_sentences. cbn [response.Error map].
      apply concat_nonempty. unfold sentence.
      destruct (validator.ActualTag fe =? "required")%string; discriminate.
  - exfalso. unfold student.decode in Hd.
    destruct (Decode_returns types.Student_type (types.values types.zero) body)
      as [[vals err] Hr].
    rewrite Hr in Hd. discriminate.
Qed.

End Messages.

(** *** Bodies that end inside a value *)

(** A literal at the top level is being read or has been read: from
    here the scanner can only go on inside the literal, end the value
    or fail. *)
Definition topLiteral (s : json.scanner) : Prop :=
  json.step s = json.fnEndTop
  \/ (json.parseState s = []
      /\ match json.step s with
         | json.fnBeginValue | json.fnBeginValueOrEmpty | json.fnBeginString
         | json.fnBeginStringOrEmpty | json.fnError => False
         | _ => True
         end).

Lemma topLiteral_step (s s' : json.scanner) (c : ascii) (op : json.Op) :
  topLiteral s ->
  json.callStep s c = (op, s') ->
  op = json.scanEnd \/ op = json.scanError \/ (op = json.scanContinue /\ topLiteral s').
Proof.
  intros Htop Hstep. destruct s as [st et ps er].
  destruct Htop as [Htop | [Hps Htop]]; cbn [json.step json.parseState] in *.
  - subst st. unfold_states Hstep. scan_cases Hstep; inversion Hstep; now left.
  - subst ps. destruct st; try contradiction; unfold_states Hstep.
    all: scan_cases Hstep; inversion Hstep; subst; clear Hstep.
    all: try (now left); try (right; now left).
    all: right; right; split; [reflexivity|]; right; split; [reflexivity | exact I].
Qed.

Lemma topLiteral_found (suf : string) :
  forall (s : json.scanner) (k n : nat),
    topLiteral s -> json.scanLoop s suf k = json.Found n ->
    (n < k + String.length suf)%nat.
Proof.
  induction suf as [|c suf IH]; intros s k n Htop H; [discriminate|].
  cbn [json.scanLoop] in H. cbn [String.length].
  destruct (json.callStep s c) as [op s'] eqn:Hstep.
  destruct (topLiteral_step s s' c op Htop Hstep) as [-> | [-> | [-> Htop']]].
  - inversion H; subst. lia.
  - discriminate.
  - specialize (IH s' (S k) n Htop' H). lia.
Qed.

Lemma complete_topLiteral (s : json.scanner) :
  fst (json.callStep s " ") = json.scanEnd -> topLiteral s.
Proof.
  intros H. destruct s as [st et ps er]. unfold topLiteral. cbn [json.step json.parseState].
  assert (Hsp : json.isSpace " " = true) by reflexivity.
  destruct st; unfold_states H; rewrite ?Hsp in H.
  all: try (left; reflexivity).
  all: scan_cases H; try discriminate H.
  all: right; split; [reflexivity | exact I].
Qed.

(** Reading a proper prefix of a framed value exhausts the prefix;
    the scanner then is where the rest goes on. *)
Lemma scanLoop_prefix (suf : string) (n : nat) :
  forall (pre : string) (s : json.scanner) (k : nat),
    json.scanLoop s (pre ++ suf) k = json.Found n ->
    (k + String.length pre < n)%nat ->
    exists s', json.scanLoop s pre k = json.Exhausted s'
               /\ json.scanLoop s' suf (k + String.length pre) = json.Found n.
Proof.
  induction pre as [|c pre IH]; intros s k H Hlt.
  - exists s. split; [reflexivity|]. cbn [append String.length] in *.
    now rewrite Nat.add_0_r.
  - cbn [append json.scanLoop String.length] in *.
    destruct (json.callStep s c) as [op s'] eqn:Hstep.
    assert (Hnext : json.scanLoop s' (pre ++ suf) (S k) = json.Found n ->
              exists s'0, json.scanLoop s' pre (S k) = json.Exhausted s'0
                          /\ json.scanLoop s'0 suf (k + S (String.length pre)) = json.Found n).
    { intros H'. destruct (IH s' (S k) H' ltac:(lia)) as (s1 & A & B).
      exists s1. split; [exact A|]. now replace (k + S (String.length pre))%nat
                                      with (S k + String.length pre)%nat by lia. }
    assert (Hclose : op = json.scanEndObject \/ op = json.scanEndArray ->
              forall op2 s'', json.stateEndValue s' " " = (op2, s'') ->
                              op2 <> json.scanEnd -> s'' = s').
    { intros Hop op2 s'' He Hne.
      destruct (endop_pop s s' c op Hstep Hop) as [s0 ->].
      destruct (pop_space s0) as [Hp | Hp]; rewrite He in Hp;
        [cbn [fst] in Hp; contradiction | now inversion Hp]. }
    destruct op; try (exact (Hnext H)); try discriminate H;
      try (inversion H; subst; lia).
    all: destruct (json.stateEndValue s' " ") as [op2 s''] eqn:He;
      specialize (Hclose ltac:(tauto) op2 s'' eq_refl);
      destruct op2; try (specialize (Hclose ltac:(discriminate)); subst s''; exact (Hnext H));
      inversion H; subst; lia.
Qed.

Section Truncated.
Context {baked : validator.BakedIn}.

(** X4: a body that stops inside a JSON object or array (any proper
    prefix of one that holds a byte other than white space) is answered
    400 with the message "unexpected EOF", not as an empty body. *)
Theorem truncated_body_is_unexpected_EOF :
  forall (connErr : option error) (obj pre suf : string),
    oneValue obj ->
    obj = pre ++ suf ->
    suf <> "" ->
    json.nonSpace pre = true ->
    student.decode pre = Returned (types.zero, Some io_ErrUnexpectedEOF)
    /\ student.serve connErr pre
       = answered connErr http.StatusBadRequest (envelope "unexpected EOF").
Proof.
  intros connErr obj pre suf Hone -> Hsuf Hns.
  assert (Hd : student.decode pre = Returned (types.zero, Some io_ErrUnexpectedEOF)).
  { unfold oneValue in Hone. rewrite length_append in Hone.
    assert (Hlen : (0 < String.length suf)%nat) by (destruct suf; [contradiction | cbn; lia]).
    destruct (scanLoop_prefix suf _ pre json.reset 0 Hone ltac:(lia)) as (s' & Hpre & Hrest).
    unfold student.decode, json.Decode, json.readValue. rewrite Hpre, Hns.
    destruct (fst (json.callStep s' " ")) eqn:E; try reflexivity.
    exfalso. pose proof (topLiteral_found suf s' _ _ (complete_topLiteral s' E) Hrest). lia. }
  split; [exact Hd|]. now rewrite serve_decoded, Hd.
Qed.

End Truncated.

Lemma truncated_body_is_unexpected_EOF_witness :
  student.decode (jsonText "{'name':'Ann','email':'ann@exa")
  = Returned (types.zero, Some io_ErrUnexpectedEOF)
  /\ @student.serve testBakedIn None (jsonText "{'name':'Ann','email':'ann@exa")
     = answered None http.StatusBadRequest (envelope "unexpected EOF").
Proof.
  apply (@truncated_body_is_unexpected_EOF testBakedIn None annBody
           (jsonText "{'name':'Ann','email':'ann@exa")
           (jsonText "mple.com','age':20}")).
  - vm_compute. reflexivity.
  - reflexivity.
  - discriminate.
  - reflexivity.
Defined.

(** ** More on the response formatter *)

Lemma bodyAllowed_final (code : Z) :
  200 <= code -> code <> http.StatusNoContent -> code <> http.StatusNotModified ->
  http.bodyAllowedForStatus code = true.
Proof.
  intros H1 H2 H3. unfold http.bodyAllowedForStatus.
  destruct (Z.leb_spec code 199); [lia|]. rewrite andb_false_r.
  destruct (Z.eqb_spec code http.StatusNoContent); [contradiction|].
  destruct (Z.eqb_spec code http.StatusNotModified); [contradiction | reflexivity].
Qed.

Lemma final_code_tests (code : Z) :
  200 <= code <= 999 ->
  ((code <? 100) || (999 <? code)) = false
  /\ ((100 <=? code) && (code <=? 199) && negb (code =? http.StatusSwitchingProtocols)) = false.
Proof.
  intros [H1 H2]. split.
  - apply orb_false_iff. split; apply Z.ltb_ge; lia.
  - destruct (Z.leb_spec code 199); [lia|]. now rewrite andb_false_r.
Qed.

Lemma WriteJson_fresh_healthy :
  forall (code : Z) (payload : any) (b : string),
    json.Marshal payload = inl b ->
    200 <= code <= 999 ->
    code <> http.StatusNoContent -> code <> http.StatusNotModified ->
    response.WriteJson code payload (http.newResponse None)
    = (Returned None, responded None code b).
Proof.
  intros code payload b HM Hc H204 H304.
  destruct (final_code_tests code Hc) as [T1 T2].
  unfold response.WriteJson, bind, http.Header_Set, http.WriteHeader, json.Encode.
  rewrite HM. unfold http.Write, http.writeHeader, http.record, http.newResponse, ret.
  cbn [http.calls http.header http.wroteHeader http.status http.sentHeader
       http.informational http.written http.connErr app filter].
  rewrite T1, T2.
  cbn [http.calls http.header http.wroteHeader http.status http.sentHeader
       http.informational http.written http.connErr app filter].
  rewrite length_with_newline, (bodyAllowed_final code ltac:(lia) H204 H304).
  rewrite (sentWith_body code _ (bodyAllowed_final code ltac:(lia) H204 H304)).
  reflexivity.
Qed.


(** X5: on a new response writer whose connection is healthy, WriteJson
    with a status code that allows a body (200..999 other than 204 and
    304) and a payload that can be serialised returns nil and leaves
    the response with that status, the JSON content type in the header
    sent, and the serialised payload followed by a newline as the whole
    body. *)
Theorem WriteJson_sends_status_type_and_body :
  forall (code : Z) (payload : any) (b : string),
    json.Marshal payload = inl b ->
    200 <= code <= 999 ->
    code <> http.StatusNoContent -> code <> http.StatusNotModified ->
    response.WriteJson code payload (http.newResponse None)
    = (Returned None, responded None code b).
Proof. exact WriteJson_fresh_healthy. Qed.

Lemma WriteJson_sends_status_type_and_body_witness :
  response.WriteJson 200 (any_map [("b", "2"); ("a", "<1>")]) (http.newResponse None)
  = (Returned None,
     responded None 200 (jsonText "{'a':'" ++ String bslash "u003c1" ++ String bslash "u003e"
                         ++ jsonText "','b':'2'}")).
Proof.
  apply (WriteJson_sends_status_type_and_body 200 (any_map [("b", "2"); ("a", "<1>")])).
  - reflexivity.
  - lia.
  - discriminate.
  - discriminate.
Defined.

(** X6: with a status code that allows no body (204 or 304) WriteJson
    sends the status but no body, and returns http.ErrBodyNotAllowed,
    also when the payload serialises.  The content type it has set goes
    out with a 204; with a 304 the server suppresses it, so the response
    carries no content type although the header map holds one. *)
Theorem WriteJson_without_body :
  forall (connErr : option error) (code : Z) (payload : any) (b : string),
    json.Marshal payload = inl b ->
    code = http.StatusNoContent \/ code = http.StatusNotModified ->
    exists w',
      response.WriteJson code payload (http.newResponse connErr)
      = (Returned (Some ErrBodyNotAllowed), w')
      /\ http.wroteHeader w' = true /\ http.status w' = code
      /\ http.header w' = [contentTypeJSON]
      /\ http.sentHeader w'
         = (if code =? http.StatusNotModified then [] else [contentTypeJSON])
      /\ http.written w' = "".
Proof.
  intros connErr code payload b HM Hcode.
  unfold response.WriteJson, bind, http.Header_Set, http.WriteHeader, json.Encode.
  rewrite HM. unfold http.Write, http.writeHeader, http.record, http.newResponse, ret.
  cbn [http.calls http.header http.wroteHeader http.status http.sentHeader
       http.informational http.written http.connErr app filter].
  destruct Hcode as [-> | ->]; cbn; rewrite length_with_newline;
    eexists; (split; [reflexivity|]); repeat split.
Qed.

Lemma WriteJson_without_body_witness :
  exists w',
    response.WriteJson 304 (any_map [("Success", "ok")]) (http.newResponse None)
    = (Returned (Some ErrBodyNotAllowed), w')
    /\ http.wroteHeader w' = true /\ http.status w' = 304
    /\ http.header w' = [contentTypeJSON]
    /\ http.sentHeader w' = []
    /\ http.written w' = "".
Proof.
  apply (WriteJson_without_body None 304 (any_map [("Success", "ok")]) successBody).
  - reflexivity.
  - now right.
Defined.

(** X7: with a status code outside 100..999 WriteJson panics in
    WriteHeader on a new response writer: the content type has been set
    in the header map, but no status and no body have been sent. *)
Theorem WriteJson_panics_on_invalid_code :
  forall (connErr : option error) (code : Z) (payload : any),
    code < 100 \/ 999 < code ->
    exists w',
      response.WriteJson code payload (http.newResponse connErr)
      = (Panicked ("invalid WriteHeader code " ++ Itoa code), w')
      /\ http.header w' = [contentTypeJSON]
      /\ http.wroteHeader w' = false /\ http.written w' = ""
      /\ http.calls w' = [http.CallHeaderSet "Content-Type" "application/json";
                          http.CallWriteHeader code].
Proof.
  intros connErr code payload Hcode.
  unfold response.WriteJson, bind, http.Header_Set, http.WriteHeader,
    http.writeHeader, http.record, http.newResponse.
  cbn [http.calls http.header http.wroteHeader http.status http.sentHeader
       http.informational http.written http.connErr app filter].
  replace ((code <? 100) || (999 <? code)) with true.
  - eexists; split; [reflexivity|]. repeat split.
  - symmetry. apply orb_true_iff.
    destruct Hcode; [left | right]; apply Z.ltb_lt; lia.
Qed.

Lemma WriteJson_panics_on_invalid_code_witness :
  exists w',
    response.WriteJson 0 (any_map [("Success", "ok")]) (http.newResponse None)
    = (Panicked "invalid WriteHeader code 0", w')
    /\ http.header w' = [contentTypeJSON]
    /\ http.wroteHeader w' = false /\ http.written w' = ""
    /\ http.calls w' = [http.CallHeaderSet "Content-Type" "application/json";
                        http.CallWriteHeader 0].
Proof.
  apply (WriteJson_panics_on_invalid_code None 0 (any_map [("Success", "ok")])).
  left. lia.
Defined.

(** X8: a second WriteJson on the same response cannot change what the
    first one sent: the status and the header stay those of the first
    call, and the second payload is appended to the body after the
    first. *)
Theorem second_WriteJson_only_appends :
  forall (code1 code2 : Z) (p1 p2 : any) (b1 b2 : string),
    json.Marshal p1 = inl b1 -> json.Marshal p2 = inl b2 ->
    200 <= code1 <= 999 ->
    code1 <> http.StatusNoContent -> code1 <> http.StatusNotModified ->
    100 <= code2 <= 999 ->
    exists w',
      (response.WriteJson code1 p1 ;; response.WriteJson code2 p2) (http.newResponse None)
      = (Returned None, w')
      /\ http.status w' = code1
      /\ http.sentHeader w' = [contentTypeJSON]
      /\ http.written w' = b1 ++ String newline "" ++ b2 ++ String newline "".
Proof.
  intros code1 code2 p1 p2 b1 b2 HM1 HM2 Hc1 H204 H304 Hc2.
  unfold bind at 1.
  rewrite (WriteJson_fresh_healthy code1 p1 b1 HM1 Hc1 H204 H304).
  unfold response.WriteJson, bind, http.Header_Set, http.WriteHeader, json.Encode.
  rewrite HM2. unfold http.Write, http.writeHeader, http.record, responded, ret.
  cbn [http.calls http.header http.wroteHeader http.status http.sentHeader
       http.informational http.written http.connErr app filter].
  rewrite length_with_newline, (bodyAllowed_final code1 ltac:(lia) H204 H304).
  cbn [negb]. eexists; split; [reflexivity|].
  cbn [http.status http.sentHeader http.written]. repeat split.
  now rewrite !append_assoc.
Qed.

Lemma second_WriteJson_only_appends_witness :
  exists w',
    (response.WriteJson 400 (response.toAny (response.GeneralError (fmt.Errorf "empty body"))) ;;
     response.WriteJson 201 (any_map [("Success", "ok")])) (http.newResponse None)
    = (Returned None, w')
    /\ http.status w' = 400
    /\ http.sentHeader w' = [contentTypeJSON]
    /\ http.written w'
       = envelope "empty body" ++ String newline "" ++ successBody ++ String newline "".
Proof.
  apply (second_WriteJson_only_appends 400 201
           (response.toAny (response.GeneralError (fmt.Errorf "empty body")))
           (any_map [("Success", "ok")]) (envelope "empty body") successBody).
  - reflexivity.
  - reflexivity.
  - lia.
  - discriminate.
  - discriminate.
  - lia.
Defined.

(** ** More on the validation mapper *)

Lemma concat_app (sep : string) (a b : list string) :
  a <> [] -> b <> [] ->
  String.concat sep (a ++ b) = String.concat sep a ++ sep ++ String.concat sep b.
Proof.
  intros Ha Hb. induction a as [|x a IH]; [contradiction|].
  destruct a as [|y a].
  - cbn [app String.concat]. destruct b; [contradiction | reflexivity].
  - change (String.concat sep ((x :: y :: a) ++ b))
      with (x ++ sep ++ String.concat sep ((y :: a) ++ b)).
    rewrite IH by discriminate.
    change (String.concat sep (x :: y :: a)) with (x ++ sep ++ String.concat sep (y :: a)).
    now rewrite !append_assoc.
Qed.

(** X9: the message for two groups of failures one after the other is
    the message of the first group, the separator ", ", and the message
    of the second group: failures are never merged or reordered across
    the groups. *)
Theorem ValidationError_of_concatenation :
  forall a b : validator.ValidationErrors,
    a <> [] -> b <> [] ->
    response.Error (response.ValidationError (a ++ b)%list)
    = response.Error (response.ValidationError a) ++ ", "
      ++ response.Error (response.ValidationError b).
Proof.
  intros a b Ha Hb. rewrite !ValidationError_sentences. cbn [response.Error].
  rewrite map_app. apply concat_app.
  - destruct a; [contradiction | discriminate].
  - destruct b; [contradiction | discriminate].
Qed.

Lemma ValidationError_of_concatenation_witness :
  response.Error
    (response.ValidationError
       ([{| validator.Field := "Name"; validator.ActualTag := "required" |}]
        ++ [{| validator.Field := "Email"; validator.ActualTag := "email" |};
            {| validator.Field := "Name"; validator.ActualTag := "required" |}])%list)
  = response.Error
      (response.ValidationError
         [{| validator.Field := "Name"; validator.ActualTag := "required" |}])
    ++ ", "
    ++ response.Error
         (response.ValidationError
            [{| validator.Field := "Email"; validator.ActualTag := "email" |};
             {| validator.Field := "Name"; validator.ActualTag := "required" |}]).
Proof. apply ValidationError_of_concatenation; discriminate. Defined.

(** ** More on the server's life cycle *)








(** X11: whenever main has returned after a signal, the last line it
    logged is "server shutdown successfully", also when the line before
    it is the error "Failed to shutdown server": the log after the
    signal is one of exactly two sequences. *)
Theorem last_log_line_is_success_even_after_failure :
  forall (p : main.Process) (sig : main.Signal) (events : list main.Event),
    main.phase p = main.Serving ->
    main.phase (main.run (main.step p (main.Deliver sig)) events) = main.Stopped ->
    let r := main.run (main.step p (main.Deliver sig)) events in
    (main.logs r = (main.logs p ++ [shuttingDown; shutdownDone])%list
     \/ main.logs r = (main.logs p ++ [shuttingDown; shutdownFailed; shutdownDone])%list)
    /\ last (main.logs r) shuttingDown = shutdownDone.
Proof.
  intros p sig events Hp Hstop r.
  assert (Hlogs : main.logs r = (main.logs p ++ [shuttingDown; shutdownDone])%list
                  \/ main.logs r
                     = (main.logs p ++ [shuttingDown; shutdownFailed; shutdownDone])%list).
  { subst r. revert Hstop. set (q := main.step p (main.Deliver sig)).
    assert (Hq : q = main.afterSignal p) by (unfold q, main.step; now rewrite Hp).
    destruct (main.active p) as [|n] eqn:Ea.
    - assert (Hs : main.phase q = main.Stopped)
        by (rewrite Hq; unfold main.afterSignal; cbn; now rewrite Ea).
      rewrite (run_stopped events q Hs). intros _. left.
      rewrite Hq. unfold main.afterSignal; cbn. rewrite Ea. cbn.
      now rewrite <- app_assoc.
    - assert (Hd : main.phase q = main.Draining (main.now p + 5 * main.Second))
        by (rewrite Hq; unfold main.afterSignal; cbn; now rewrite Ea).
      assert (Hl : main.listening q = false)
        by (rewrite Hq; unfold main.afterSignal; cbn; now rewrite Ea).
      assert (Hn : main.now q = main.now p)
        by (rewrite Hq; unfold main.afterSignal; cbn; now rewrite Ea).
      assert (Hlog : main.logs q = (main.logs p ++ [shuttingDown])%list)
        by (rewrite Hq; unfold main.afterSignal; cbn; now rewrite Ea).
      destruct (draining_run _ events q Hd ltac:(rewrite Hn; unfold main.Second; lia) Hl)
        as (_ & _ & [(C1 & _) | (_ & _ & [C | C])]); intros Hstop.
      + rewrite C1 in Hstop. discriminate.
      + left. rewrite C, Hlog, <- app_assoc. reflexivity.
      + right. rewrite C, Hlog, <- app_assoc. reflexivity. }
  split; [exact Hlogs|].
  destruct Hlogs as [-> | ->]; rewrite last_last || idtac.
  - change [shuttingDown; shutdownDone] with ([shuttingDown] ++ [shutdownDone])%list.
    now rewrite app_assoc, last_last.
  - change [shuttingDown; shutdownFailed; shutdownDone]
      with ([shuttingDown; shutdownFailed] ++ [shutdownDone])%list.
    now rewrite app_assoc, last_last.
Qed.

Lemma last_log_line_is_success_even_after_failure_witness :
  let r := main.run (main.step busy (main.Deliver main.SIGINT))
             [main.Finish; main.Elapse 5000000000] in
  (main.logs r = (main.logs busy ++ [shuttingDown; shutdownDone])%list
   \/ main.logs r = (main.logs busy ++ [shuttingDown; shutdownFailed; shutdownDone])%list)
  /\ last (main.logs r) shuttingDown = shutdownDone.
Proof.
  apply (last_log_line_is_success_even_after_failure busy main.SIGINT
           [main.Finish; main.Elapse 5000000000]).
  - reflexivity.
  - reflexivity.
Defined.

(** ** Loading the configuration *)

Definition withArgs (os : config.OS) (args : list string) : config.OS :=
  {| config.CONFIG_PATH := config.CONFIG_PATH os; config.Args := args;
     config.stat := config.stat os; config.ReadConfig := config.ReadConfig os |}.

Definition withPath (os : config.OS) (path : string) (args : list string) : config.OS :=
  {| config.CONFIG_PATH := path; config.Args := args;
     config.stat := config.stat os; config.ReadConfig := config.ReadConfig os |}.

Lemma Sprintf_tail (a : string) :
  fmt.Sprintf "config file does not exist: %s" a = "config file does not exist: " ++ a
  /\ fmt.Sprintf "cannot read config file: %s" a = "cannot read config file: " ++ a.
Proof. cbn. now rewrite append_nil_r. Qed.

Lemma configPath_env (os : config.OS) :
  config.CONFIG_PATH os <> "" -> config.configPath os = inl (config.CONFIG_PATH os).
Proof.
  intros H. unfold config.configPath.
  destruct (String.eqb_spec (config.CONFIG_PATH os) ""); [contradiction | reflexivity].
Qed.

(** X12: when CONFIG_PATH is set, the command line plays no part in
    MustLoad: it is not parsed, so neither a -config flag nor an
    argument that flag.Parse would reject changes the outcome. *)
Theorem CONFIG_PATH_takes_precedence :
  forall (os : config.OS) (args : list string),
    config.CONFIG_PATH os <> "" ->
    config.MustLoad (withArgs os args) = config.MustLoad os.
Proof.
  intros os args H. unfold config.MustLoad.
  rewrite (configPath_env os H), (configPath_env (withArgs os args) H). reflexivity.
Qed.

Definition demoConfig : config.Config :=
  {| config.Env := "dev"; config.StoragePath := "storage/storage.db";
     config.HTTPServer_ := {| config.Addr := "localhost:8082" |} |}.

(** A file system with the one file config/local.yaml, and a
    directory that cannot be read. *)
Definition demoOS (path : string) (args : list string) : config.OS :=
  {| config.CONFIG_PATH := path; config.Args := args;
     config.stat := fun p => if (p =? "config/local.yaml")%string then config.statFound
                             else if (p =? "secret/prod.yaml")%string
                                  then config.statFailed (errorString "permission denied")
                                  else config.statNotExist;
     config.ReadConfig := fun p => if (p =? "config/local.yaml")%string then inl demoConfig
                                   else inr (errorString "file format is not supported") |}.

Lemma CONFIG_PATH_takes_precedence_witness :
  config.MustLoad (withArgs (demoOS "config/local.yaml" []) ["-config"; "other.yaml"; "-x"])
  = config.MustLoad (demoOS "config/local.yaml" []).
Proof.
  apply (CONFIG_PATH_takes_precedence (demoOS "config/local.yaml" [])). discriminate.
Defined.

(** The path MustLoad settles on, if it settles on one. *)
Definition chosen (os : config.OS) (path : string) : Prop :=
  path <> ""
  /\ (config.CONFIG_PATH os = path
      \/ (config.CONFIG_PATH os = ""
          /\ flag.Parse "config" (config.Args os) "" = flag.Value_ path)).

Lemma configPath_chosen (os : config.OS) (path : string) :
  config.configPath os = inl path <-> chosen os path.
Proof.
  unfold config.configPath, chosen.
  destruct (String.eqb_spec (config.CONFIG_PATH os) "") as [E|E].
  - destruct (flag.Parse "config" (config.Args os) "") as [v|code m].
    + destruct (String.eqb_spec v "") as [Ev|Ev].
      * split; [discriminate|]. intros [Hp [H | [_ H]]]; [congruence|].
        inversion H; congruence.
      * split.
        -- intros H. inversion H; subst. split; [exact Ev|]. right. now split.
        -- intros [Hp [H | [_ H]]]; [congruence|]. now inversion H.
    + split; [discriminate|]. intros [Hp [H | [_ H]]]; [congruence | discriminate].
  - split.
    + intros H. inversion H; subst. split; [exact E | now left].
    + intros [Hp [H | [H _]]]; [now rewrite H | contradiction].
Qed.

(** X13: MustLoad returns a configuration exactly when a path is
    given (CONFIG_PATH, or else the -config flag), os.Stat does not
    report the file as missing, and cleanenv.ReadConfig reads it without
    error; the configuration returned is the one read.  A failure of
    os.Stat other than "not exist" does not stop the loading. *)
Theorem MustLoad_returns_what_was_read :
  forall (os : config.OS) (cfg : config.Config),
    config.MustLoad os = config.Loaded cfg
    <-> exists path, chosen os path
                     /\ config.stat os path <> config.statNotExist
                     /\ config.ReadConfig os path = inl cfg.
Proof.
  intros os cfg. unfold config.MustLoad. split.
  - destruct (config.configPath os) as [path|out] eqn:Hp.
    + apply configPath_chosen in Hp. intros H. exists path. split; [exact Hp|].
      destruct (config.stat os path); try discriminate;
        destruct (config.ReadConfig os path); try discriminate;
        inversion H; subst; split; (discriminate || reflexivity).
    + intros H. unfold config.configPath in Hp.
      destruct (config.CONFIG_PATH os =? "")%string; [|discriminate].
      destruct (flag.Parse _ _ _); [destruct (_ =? "")%string|];
        inversion Hp; subst; discriminate.
  - intros (path & Hc & Hs & Hr). apply configPath_chosen in Hc. rewrite Hc, Hr.
    destruct (config.stat os path); [reflexivity | contradiction | reflexivity].
Qed.

(** X14: when MustLoad ends the process, either flag.Parse has done it
    (a bad command line, with status 2, or a request for help), or it
    is log.Fatal with status 1 and a message that names the cause: no
    path was given, the file at the path does not exist, or the file
    could not be read. *)
Theorem MustLoad_exits_with_a_cause :
  forall (os : config.OS) (code : Z) (message : string),
    config.MustLoad os = config.Exited code message ->
    (config.CONFIG_PATH os = ""
     /\ flag.Parse "config" (config.Args os) "" = flag.Exit code message)
    \/ (code = 1
        /\ ((config.CONFIG_PATH os = ""
             /\ flag.Parse "config" (config.Args os) "" = flag.Value_ ""
             /\ message = "config path is not set; set CONFIG_PATH or pass -config")
            \/ (exists path, chosen os path /\ config.stat os path = config.statNotExist
                             /\ message = "config file does not exist: " ++ path)
            \/ (exists path err, chosen os path /\ config.ReadConfig os path = inr err
                                 /\ message = "cannot read config file: " ++ Error_ err))).
Proof.
  intros os code message. unfold config.MustLoad.
  destruct (config.configPath os) as [path|out] eqn:Hp.
  - apply configPath_chosen in Hp. intros H. right.
    destruct (Sprintf_tail path) as [S1 _]. rewrite S1 in H.
    assert (Hread : forall err, config.ReadConfig os path = inr err ->
              config.Exited 1 (fmt.Sprintf "cannot read config file: %s" (Error_ err))
              = config.Exited code message ->
              code = 1
              /\ (config.CONFIG_PATH os = "" /\ flag.Parse "config" (config.Args os) "" = flag.Value_ ""
                   /\ message = "config path is not set; set CONFIG_PATH or pass -config"
                  \/ (exists path0, chosen os path0 /\ config.stat os path0 = config.statNotExist
                                    /\ message = "config file does not exist: " ++ path0)
                  \/ (exists path0 err0, chosen os path0 /\ config.ReadConfig os path0 = inr err0
                                         /\ message = "cannot read config file: " ++ Error_ err0))).
    { intros err Hr H'. destruct (Sprintf_tail (Error_ err)) as [_ S2]. rewrite S2 in H'.
      inversion H'; subst. split; [reflexivity|]. right. right.
      exists path, err. split; [exact Hp|]. split; [exact Hr | reflexivity]. }
    destruct (config.stat os path) eqn:Hs.
    + destruct (config.ReadConfig os path) as [cfg|err] eqn:Hr; [discriminate|].
      now apply (Hread err).
    + inversion H; subst. split; [reflexivity|]. right. left.
      exists path. split; [exact Hp|]. split; [exact Hs | reflexivity].
    + destruct (config.ReadConfig os path) as [cfg|err] eqn:Hr; [discriminate|].
      now apply (Hread err).
  - intros ->. unfold config.configPath in Hp.
    destruct (String.eqb_spec (config.CONFIG_PATH os) "") as [E|E]; [|discriminate].
    destruct (flag.Parse "config" (config.Args os) "") as [v|c m] eqn:Hf.
    + destruct (String.eqb_spec v ""); [|discriminate].
      inversion Hp; subst. right. split; [reflexivity|]. left. repeat split; assumption.
    + inversion Hp; subst. left. now split.
Qed.

Lemma MustLoad_exits_with_a_cause_witness :
  (config.CONFIG_PATH (demoOS "" ["-config"; "missing.yaml"]) = ""
   /\ flag.Parse "config" (config.Args (demoOS "" ["-config"; "missing.yaml"])) ""
      = flag.Exit 1 "config file does not exist: missing.yaml")
  \/ (1 = 1
      /\ ((config.CONFIG_PATH (demoOS "" ["-config"; "missing.yaml"]) = ""
           /\ flag.Parse "config" (config.Args (demoOS "" ["-config"; "missing.yaml"])) ""
              = flag.Value_ ""
           /\ "config file does not exist: missing.yaml"
              = "config path is not set; set CONFIG_PATH or pass -config")
          \/ (exists path, chosen (demoOS "" ["-config"; "missing.yaml"]) path
                           /\ config.stat (demoOS "" ["-config"; "missing.yaml"]) path
                              = config.statNotExist
                           /\ "config file does not exist: missing.yaml"
                              = "config file does not exist: " ++ path)
          \/ (exists path err, chosen (demoOS "" ["-config"; "missing.yaml"]) path
                               /\ config.ReadConfig (demoOS "" ["-config"; "missing.yaml"]) path
                                  = inr err
                               /\ "config file does not exist: missing.yaml"
                                  = "cannot read config file: " ++ Error_ err))).
Proof.
  apply (MustLoad_exits_with_a_cause (demoOS "" ["-config"; "missing.yaml"]) 1
           "config file does not exist: missing.yaml").
  reflexivity.
Defined.

(** X15: with CONFIG_PATH unset, giving a path with the flag, written
    as "-config path", "--config path", "-config=path" or
    "--config=path", is the same to MustLoad as giving that path in
    CONFIG_PATH; arguments after the first one that is no flag are not
    looked at. *)
Theorem flag_stands_in_for_CONFIG_PATH :
  forall (os : config.OS) (path : string) (others : list string),
    path <> "" ->
    flag.Parse "config" others path = flag.Value_ path ->
    config.MustLoad (withPath os "" ("-config" :: path :: others))
    = config.MustLoad (withPath os path [])
    /\ config.MustLoad (withPath os "" ("--config" :: path :: others))
       = config.MustLoad (withPath os path [])
    /\ config.MustLoad (withPath os "" (("-config=" ++ path) :: others))
       = config.MustLoad (withPath os path [])
    /\ config.MustLoad (withPath os "" (("--config=" ++ path) :: others))
       = config.MustLoad (withPath os path []).
Proof.
  intros os path others Hp Hothers.
  assert (Henv : config.configPath (withPath os path []) = inl path)
    by (apply configPath_env; exact Hp).
  assert (Hflag : forall args,
             flag.Parse "config" args "" = flag.Value_ path ->
             config.MustLoad (withPath os "" args) = config.MustLoad (withPath os path [])).
  { intros args Ha. unfold config.MustLoad. rewrite Henv.
    unfold config.configPath. cbn [config.CONFIG_PATH config.Args withPath String.eqb].
    rewrite Ha. destruct (String.eqb_spec path ""); [contradiction | reflexivity]. }
  assert (Hcut : flag.cutValue path = flag.cutValue path) by reflexivity.
  repeat split; apply Hflag; cbn; exact Hothers.
Qed.

Lemma flag_stands_in_for_CONFIG_PATH_witness :
  config.MustLoad (withPath (demoOS "" []) "" ["-config"; "config/local.yaml"; "serve"; "-x"])
  = config.MustLoad (withPath (demoOS "" []) "config/local.yaml" [])
  /\ config.MustLoad (withPath (demoOS "" []) "" ["--config"; "config/local.yaml"; "serve"; "-x"])
     = config.MustLoad (withPath (demoOS "" []) "config/local.yaml" [])
  /\ config.MustLoad (withPath (demoOS "" []) ""
                        [("-config=" ++ "config/local.yaml"); "serve"; "-x"])
     = config.MustLoad (withPath (demoOS "" []) "config/local.yaml" [])
  /\ config.MustLoad (withPath (demoOS "" []) ""
                        [("--config=" ++ "config/local.yaml"); "serve"; "-x"])
     = config.MustLoad (withPath (demoOS "" []) "config/local.yaml" []).
Proof.
  apply (flag_stands_in_for_CONFIG_PATH (demoOS "" []) "config/local.yaml" ["serve"; "-x"]).
  - discriminate.
  - reflexivity.
Defined.

(** ** The error body is JSON *)

(** The decoder's walk over bytes inside a value: scanner and builder
    after them, if no byte ends a value, closes an object or array, or
    is refused. *)
Fixpoint walk (s : json.scanner) (b : json.builder) (data : string)
  : option (json.scanner * json.builder) :=
  match data with
  | EmptyString => Some (s, b)
  | String c rest =>
      let (op, s') := json.callStep s c in
      match op with
      | json.scanEnd | json.scanError | json.scanEndObject | json.scanEndArray => None
      | _ =>
          match json.build b op c with
          | Some b' => walk s' b' rest
          | None => None
          end
      end
  end.

Lemma walk_app (a r : string) :
  forall s b,
    walk s b (a ++ r)
    = match walk s b a with
      | Some (s', b') => walk s' b' r
      | None => None
      end.
Proof.
  induction a as [|c a IH]; intros s b; [reflexivity|].
  cbn [append walk]. destruct (json.callStep s c) as [op s'].
  destruct op; try reflexivity; destruct (json.build b _ c); try reflexivity; apply IH.
Qed.

Lemma decodeLoop_walk (a : string) :
  forall s b s' b',
    walk s b a = Some (s', b') ->
    forall r, json.decodeLoop s b (a ++ r) = json.decodeLoop s' b' r.
Proof.
  induction a as [|c a IH]; intros s b s' b' H r.
  - inversion H; subst. reflexivity.
  - cbn [append walk json.decodeLoop] in *.
    destruct (json.callStep s c) as [op s1].
    destruct op; try discriminate H;
      destruct (json.build b _ c) as [b1|]; try discriminate H; now apply IH.
Qed.

Lemma scanLoop_walk (a : string) :
  forall s b s' b',
    walk s b a = Some (s', b') ->
    forall r k, json.scanLoop s (a ++ r) k = json.scanLoop s' r (k + String.length a).
Proof.
  induction a as [|c a IH]; intros s b s' b' H r k.
  - inversion H; subst. cbn. now rewrite Nat.add_0_r.
  - cbn [append walk json.scanLoop String.length] in *.
    destruct (json.callStep s c) as [op s1].
    destruct op; try discriminate H;
      destruct (json.build b _ c) as [b1|]; try discriminate H;
      rewrite (IH _ _ _ _ H); f_equal; lia.
Qed.

Definition strStates : list json.StepFn :=
  [json.fnInString; json.fnInStringEsc; json.fnInStringEscU;
   json.fnInStringEscU1; json.fnInStringEscU12; json.fnInStringEscU123].

Lemma strStep_state (st st' : json.StepFn) (c : ascii) :
  strStep st c = Some st' -> In st strStates /\ In st' strStates.
Proof.
  unfold strStates. destruct st; cbn [strStep]; try discriminate;
    repeat match goal with
           | |- context [if ?t then _ else _] => destruct t
           end; intros H; inversion H; subst; cbn [In]; tauto.
Qed.

Lemma callStep_string (s : json.scanner) (c : ascii) (st' : json.StepFn) :
  strStep (json.step s) c = Some st' ->
  json.callStep s c = (json.scanContinue, json.setStep s st').
Proof.
  intros H. destruct s as [st et ps er]. cbn [json.step] in H.
  unfold json.callStep; cbn [json.step].
  destruct st; cbn [strStep] in H; try discriminate H;
    unfold json.stateInString, json.stateInStringEsc, json.stateHex, json.setStep;
    cbn [json.step json.endTop json.parseState json.err];
    repeat match type of H with
           | context [if ?t then _ else _] => destruct t
           end; inversion H; subst; reflexivity.
Qed.

(** Walking over the text of a string literal only adds to the
    literal. *)
Lemma walk_string (esc : string) :
  forall (s : json.scanner) (b : json.builder) (st' : json.StepFn) (raw : string),
    strRun (json.step s) esc = Some st' ->
    json.lit b = Some raw -> json.done b = None ->
    walk s b esc
    = Some (json.setStep s st',
            {| json.stack := json.stack b; json.lit := Some (raw ++ esc);
               json.done := None |}).
Proof.
  induction esc as [|c esc IH]; intros s b st' raw Hrun Hl Hd.
  - cbn [strRun] in Hrun. inversion Hrun; subst. cbn [walk].
    rewrite setStep_same, append_nil_r. destruct b; cbn in *; now subst.
  - cbn [strRun] in Hrun. destruct (strStep (json.step s) c) as [st1|] eqn:E; [|discriminate].
    cbn [walk]. rewrite (callStep_string s c st1 E). cbn [json.build]. rewrite Hl.
    rewrite (IH (json.setStep s st1) _ st' (raw ++ String c "")); try reflexivity.
    + destruct s; cbn. now rewrite append_assoc.
    + destruct s; exact Hrun.
Qed.

Lemma strRun_app (a r : string) :
  forall st,
    strRun st (a ++ r)
    = match strRun st a with
      | Some st' => strRun st' r
      | None => None
      end.
Proof.
  induction a as [|c a IH]; intros st; [reflexivity|].
  cbn [append strRun]. destruct (strStep st c); [apply IH | reflexivity].
Qed.

Lemma byte_val_range (c : ascii) : 0 <= byte_val c < 256.
Proof.
  unfold byte_val. pose proof (N_ascii_bounded c) as H. lia.
Qed.

Lemma byte_of_val (c : ascii) : byte_of (byte_val c) = c.
Proof.
  unfold byte_of. pose proof (byte_val_range c) as H.
  rewrite Z.mod_small by lia. unfold byte_val.
  rewrite N2Z.id. apply ascii_N_embedding.
Qed.

Lemma byte_val_inj (a b : ascii) : byte_val a = byte_val b -> a = b.
Proof. intros H. rewrite <- (byte_of_val a), <- (byte_of_val b). now rewrite H. Qed.

Lemma small_cases (n : Z) :
  0 <= n <= 15 -> In n (map Z.of_nat (seq 0 16)).
Proof. intros H. cbn. lia. Qed.

Lemma hexdig_hex (n : Z) :
  0 <= n <= 15 -> json.isHex (json.hexdig n) = true /\ json.hexval (json.hexdig n) = n.
Proof.
  intros H. apply small_cases in H. cbn in H.
  repeat (destruct H as [<- | H]; [split; reflexivity|]). contradiction.
Qed.

Lemma nibbles (b : Z) :
  0 <= b < 256 ->
  0 <= Z.shiftr b 4 <= 15 /\ 0 <= Z.land b 15 <= 15
  /\ Z.shiftr b 4 * 16 + Z.land b 15 = b.
Proof.
  intros H. rewrite Z.shiftr_div_pow2 by lia.
  change 15 with (Z.ones 4). rewrite Z.land_ones by lia.
  change (2 ^ 4) with 16. pose proof (Z.div_mod b 16 ltac:(lia)).
  pose proof (Z.mod_pos_bound b 16 ltac:(lia)).
  assert (0 <= b / 16 <= Z.ones 4).
  { change (Z.ones 4) with 15. split; [apply Z.div_pos; lia|].
    apply Z.lt_succ_r. apply Z.div_lt_upper_bound; lia. }
  change (Z.ones 4) with 15 in *. lia.
Qed.

Lemma hex4_run (h1 h2 h3 h4 : ascii) (r : string) :
  json.isHex h1 = true -> json.isHex h2 = true ->
  json.isHex h3 = true -> json.isHex h4 = true ->
  strRun json.fnInString
    (String bslash (String "u" (String h1 (String h2 (String h3 (String h4 r))))))
  = strRun json.fnInString r.
Proof.
  intros E1 E2 E3 E4.
  rewrite (getu4_run _ (getu4_escape h1 h2 h3 h4 r E1 E2 E3 E4)). reflexivity.
Qed.

Lemma htmlSafe_plain (c : ascii) :
  json.htmlSafe c = true -> strStep json.fnInString c = Some json.fnInString.
Proof.
  unfold json.htmlSafe. intros H.
  apply andb_prop in H as [H Hn]. apply andb_prop in H as [Hlo Hhi].
  apply Z.leb_le in Hlo. apply negb_true_iff in Hn.
  repeat (apply orb_false_iff in Hn as [Hn ?]).
  unfold strStep.
  destruct (Ascii.eqb_spec c dquote) as [->|]; [discriminate|].
  destruct (Ascii.eqb_spec c bslash) as [->|]; [discriminate|].
  destruct (Z.ltb_spec (byte_val c) 32); [lia | reflexivity].
Qed.

(** The escape of a byte is text the scanner accepts inside a string. *)
Lemma escapeByte_run (c : ascii) (r : string) :
  strRun json.fnInString (json.escapeByte c ++ r) = strRun json.fnInString r.
Proof.
  unfold json.escapeByte.
  destruct ((byte_val c =? 92) || (byte_val c =? 34)) eqn:E.
  { assert (Hc : c = bslash \/ c = dquote).
    { apply orb_true_iff in E as [E | E]; apply Z.eqb_eq in E;
        [left | right]; apply byte_val_inj; exact E. }
    destruct Hc as [-> | ->]; reflexivity. }
  repeat match goal with
         | |- context [if ?t then _ else _] => destruct t; [reflexivity|]
         end.
  destruct (nibbles (byte_val c) (byte_val_range c)) as (N1 & N2 & _).
  destruct (hexdig_hex _ N1) as [H1 _]. destruct (hexdig_hex _ N2) as [H2 _].
  cbn [append]. apply hex4_run; (reflexivity || assumption).
Qed.

Lemma strRun_high (a : string) :
  (forall c, In c (list_ascii_of_string a) -> 128 <= byte_val c) ->
  forall r, strRun json.fnInString (a ++ r) = strRun json.fnInString r.
Proof.
  induction a as [|x a IH]; intros H r; [reflexivity|].
  cbn [append strRun]. rewrite (strStep_high x); [|apply H; now left].
  apply IH. intros c Hc. apply H. now right.
Qed.

(** The bytes of a rune that [DecodeRuneInString] accepts, when the
    first is from 128 on, are all from 128 on. *)
Lemma decode_high (c : ascii) (t : string) :
  128 <= byte_val c ->
  let size := snd (utf8.DecodeRuneInString (String c t)) in
  (1 <= size)%nat
  /\ forall x, In x (list_ascii_of_string (take size (String c t))) -> 128 <= byte_val x.
Proof.
  intros Hc. cbn zeta. unfold utf8.DecodeRuneInString.
  assert (H1 : forall x, In x (list_ascii_of_string (take 1 (String c t))) -> 128 <= byte_val x)
    by (cbn; intros x [<- | []]; exact Hc).
  assert (Hcont : forall x, utf8.cont x = true -> 128 <= byte_val x)
    by (intros x Hx; apply in_range_low in Hx; lia).
  destruct (byte_val c <? 128) eqn:E0; [apply Z.ltb_lt in E0; lia|].
  destruct (byte_val c <? 194); [cbn [snd]; split; [lia | exact H1]|].
  destruct (byte_val c <? 224).
  { destruct t as [|s1 t]; [cbn [snd]; split; [lia | exact H1]|].
    destruct (utf8.cont s1) eqn:E1; cbn [snd]; (split; [lia|]); [|exact H1].
    cbn. intros x [<- | [<- | []]]; [exact Hc | now apply Hcont]. }
  destruct (byte_val c <? 240).
  { destruct t as [|s1 [|s2 t]]; try (cbn [snd]; split; [lia | exact H1]).
    match goal with |- context [in_range ?lo ?hi s1] =>
      destruct (in_range lo hi s1) eqn:E1 end;
      [|cbn [andb snd]; split; [lia | exact H1]].
    destruct (utf8.cont s2) eqn:E2; cbn [andb snd]; (split; [lia|]); [|exact H1].
    assert (Hs1 : 128 <= byte_val s1)
      by (apply in_range_low in E1; destruct (byte_val c =? 224); lia).
    cbn. intros x [<- | [<- | [<- | []]]]; [exact Hc | exact Hs1 | now apply Hcont]. }
  destruct (byte_val c <? 245); [|cbn [snd]; split; [lia | exact H1]].
  destruct t as [|s1 [|s2 [|s3 t]]]; try (cbn [snd]; split; [lia | exact H1]).
  match goal with |- context [in_range ?lo ?hi s1] =>
    destruct (in_range lo hi s1) eqn:E1 end;
    [|cbn [andb snd]; split; [lia | exact H1]].
  destruct (utf8.cont s2) eqn:E2; [|cbn [andb snd]; split; [lia | exact H1]].
  destruct (utf8.cont s3) eqn:E3; cbn [andb snd]; (split; [lia|]); [|exact H1].
  assert (Hs1 : 128 <= byte_val s1)
    by (apply in_range_low in E1; destruct (byte_val c =? 240); lia).
  cbn. intros x [<- | [<- | [<- | [<- | []]]]];
    [exact Hc | exact Hs1 | now apply Hcont | now apply Hcont].
Qed.

(** Whatever the string, what the encoder writes between the quotes is
    text the scanner accepts as the inside of a string literal. *)
Lemma escaped_accepted (fuel : nat) :
  forall src, strRun json.fnInString (json.appendString_loop fuel src) = Some json.fnInString.
Proof.
  induction fuel as [|fuel IH]; intros src; [reflexivity|].
  cbn [json.appendString_loop]. destruct src as [|b t]; [reflexivity|].
  destruct (Z.ltb_spec (byte_val b) 128).
  - destruct (json.htmlSafe b) eqn:Es.
    + cbn [append strRun]. rewrite (htmlSafe_plain b Es). apply IH.
    + rewrite escapeByte_run. apply IH.
  - destruct (decode_high b t ltac:(lia)) as [Hsz Hhigh].
    destruct (utf8.DecodeRuneInString (String b t)) as [c size]. cbn [snd] in *.
    destruct ((c =? utf8.RuneError) && Nat.eqb size 1).
    { change (String bslash "ufffd" ++ json.appendString_loop fuel (drop size (String b t)))
        with (String bslash (String "u" (String "f" (String "f" (String "f" (String "d"
               (json.appendString_loop fuel (drop size (String b t))))))))).
      rewrite hex4_run; try reflexivity. apply IH. }
    destruct ((c =? 8232) || (c =? 8233)) eqn:El.
    { assert (Hh : json.isHex (json.hexdig (Z.land c 15)) = true).
      { apply orb_true_iff in El as [E | E]; apply Z.eqb_eq in E; subst c; reflexivity. }
      change (String bslash "u202" ++ String (json.hexdig (Z.land c 15)) ""
              ++ json.appendString_loop fuel (drop size (String b t)))
        with (String bslash (String "u" (String "2" (String "0" (String "2"
               (String (json.hexdig (Z.land c 15))
                  (json.appendString_loop fuel (drop size (String b t))))))))).
      rewrite hex4_run; try reflexivity; [apply IH | exact Hh]. }
    rewrite (strRun_high _ Hhigh). apply IH.
Qed.

(** *** Reading back what the encoder wrote *)

Fixpoint allAscii (s : string) : bool :=
  match s with
  | EmptyString => true
  | String c t => (byte_val c <? 128) && allAscii t
  end.

Lemma unquote_plain (c : ascii) (rest : string) (f : nat) :
  json.htmlSafe c = true ->
  json.unquote_loop (S f) (String c rest)
  = option_map (String c) (json.unquote_loop f rest).
Proof.
  unfold json.htmlSafe. intros H.
  apply andb_prop in H as [H Hn]. apply andb_prop in H as [Hlo Hhi].
  apply Z.leb_le in Hlo. apply Z.ltb_lt in Hhi. apply negb_true_iff in Hn.
  repeat (apply orb_false_iff in Hn as [Hn ?]).
  cbn [json.unquote_loop].
  destruct (Ascii.eqb_spec c bslash) as [->|]; [discriminate|].
  destruct (Ascii.eqb_spec c dquote) as [->|]; [discriminate|].
  cbn [orb].
  destruct (Z.ltb_spec (byte_val c) 32); [lia|].
  destruct (Z.ltb_spec (byte_val c) 128); [reflexivity | lia].
Qed.

Lemma EncodeRune_ascii (b : Z) : 0 <= b < 128 -> utf8.EncodeRune b = utf8.str1 b.
Proof.
  intros H. unfold utf8.EncodeRune, utf8.MaxRune.
  destruct (Z.ltb_spec b 0); [lia|].
  destruct (Z.ltb_spec 1114111 b); [lia|].
  destruct (Z.leb_spec 55296 b); [lia|]. cbn [orb andb].
  destruct (Z.leb_spec b 127); [reflexivity | lia].
Qed.

Lemma unquote_u00 (h1 h2 : ascii) (b : Z) (rest : string) (f : nat) :
  json.isHex h1 = true -> json.isHex h2 = true ->
  json.hexval h1 * 16 + json.hexval h2 = b -> 0 <= b < 128 ->
  json.unquote_loop (S f)
    (String bslash (String "u" (String "0" (String "0" (String h1 (String h2 rest))))))
  = option_map (String (byte_of b)) (json.unquote_loop f rest).
Proof.
  intros E1 E2 Hb Hr.
  cbn [json.unquote_loop].
  replace ((bslash =? bslash)%char) with true by reflexivity.
  replace (("u" =? "u")%char) with true by reflexivity.
  assert (Hg : json.getu4 (String bslash (String "u" (String "0" (String "0"
                 (String h1 (String h2 rest)))))) = b).
  { unfold json.getu4.
    replace ((bslash =? bslash)%char) with true by reflexivity.
    replace (("u" =? "u")%char) with true by reflexivity.
    replace (json.isHex "0") with true by reflexivity.
    rewrite E1, E2. cbn [andb].
    replace (json.hexval "0") with 0 by reflexivity. lia. }
  rewrite Hg.
  destruct (Z.ltb_spec b 0); [lia|].
  unfold json.IsSurrogate. destruct (Z.leb_spec 55296 b); [lia|]. cbn [andb drop].
  rewrite (EncodeRune_ascii b Hr). unfold utf8.str1.
  destruct (json.unquote_loop f rest); reflexivity.
Qed.

Lemma unquote_escapeByte (c : ascii) (rest : string) (f : nat) :
  byte_val c < 128 ->
  json.unquote_loop (S f) (json.escapeByte c ++ rest)
  = option_map (String c) (json.unquote_loop f rest).
Proof.
  intros Hc. unfold json.escapeByte.
  destruct ((byte_val c =? 92) || (byte_val c =? 34)) eqn:E.
  { assert (Hcc : c = bslash \/ c = dquote).
    { apply orb_true_iff in E as [E | E]; apply Z.eqb_eq in E;
        [left | right]; apply byte_val_inj; exact E. }
    destruct Hcc as [-> | ->]; reflexivity. }
  repeat match goal with
         | |- context [if (byte_val c =? ?n) then _ else _] =>
             destruct (Z.eqb_spec (byte_val c) n) as [Hn|_];
             [apply (byte_val_inj c (byte_of n)) in Hn; subst c; reflexivity|]
         end.
  destruct (nibbles (byte_val c) (byte_val_range c)) as (N1 & N2 & N3).
  destruct (hexdig_hex _ N1) as [H1 V1]. destruct (hexdig_hex _ N2) as [H2 V2].
  cbn [append].
  rewrite (unquote_u00 _ _ (byte_val c) rest f H1 H2);
    [now rewrite byte_of_val | rewrite V1, V2; exact N3 | pose proof (byte_val_range c); lia].
Qed.

Lemma unquote_escaped (msg : string) :
  forall f1 f2 : nat,
    allAscii msg = true ->
    (String.length msg <= f1)%nat ->
    (String.length (json.appendString_loop f1 msg) < f2)%nat ->
    json.unquote_loop f2 (json.appendString_loop f1 msg) = Some msg.
Proof.
  induction msg as [|c t IH]; intros f1 f2 Ha H1 H2.
  - destruct f1, f2; cbn in *; try lia; reflexivity.
  - cbn [allAscii] in Ha. apply andb_prop in Ha as [Hc Ht].
    destruct f1 as [|f1]; [cbn in H1; lia|]. cbn [String.length] in H1.
    cbn [json.appendString_loop] in *. rewrite Hc in *. apply Z.ltb_lt in Hc.
    destruct f2 as [|f2]; [lia|].
    destruct (json.htmlSafe c) eqn:Es.
    + cbn [append String.length] in *. rewrite (unquote_plain c _ f2 Es).
      rewrite (IH f1 f2 Ht); [reflexivity | lia | lia].
    + rewrite (unquote_escapeByte c _ f2 Hc).
      rewrite (IH f1 f2 Ht); [reflexivity | lia |].
      rewrite length_append in H2.
      assert (1 <= String.length (json.escapeByte c))%nat; [|lia].
      unfold json.escapeByte.
      repeat match goal with
             | |- context [if ?t then _ else _] => destruct t
             end; cbn; lia.
Qed.

(** *** The envelope, byte by byte *)

Definition envelopeHead : string := jsonText "{'status':'Error','error':'".

Lemma envelope_shape (msg : string) :
  envelope msg
  = envelopeHead
    ++ (json.appendString_loop (String.length msg) msg ++ String dquote "}").
Proof.
  unfold envelope, json.object, json.member, json.appendString, q.
  cbn [map fst snd String.concat].
  replace (json.appendString_loop (String.length "status") "status") with "status"
    by reflexivity.
  replace (json.appendString_loop (String.length "Error") "Error") with "Error"
    by reflexivity.
  replace (json.appendString_loop (String.length "error") "error") with "error"
    by reflexivity.
  set (e := json.appendString_loop (String.length msg) msg).
  assert (Hh : envelopeHead
               = ltac:(let v := eval vm_compute in envelopeHead in exact v))
    by (vm_compute; reflexivity).
  rewrite Hh. cbn [append].
  replace ((e ++ String dquote "") ++ "}") with (e ++ String dquote "}");
    [reflexivity|].
  induction e as [|c e IH]; cbn [append]; [reflexivity | now rewrite IH].
Qed.

(** Scanner and builder once the head is read: inside the string that
    is the value of the second member. *)
Definition inMessage : json.scanner :=
  {| json.step := json.fnInString; json.endTop := false;
     json.parseState := [json.parseObjectValue]; json.err := None |}.

Definition atMessage (raw : string) : json.builder :=
  {| json.stack := [json.PObject [("status", json.JString "Error")] (Some "error")];
     json.lit := Some raw; json.done := None |}.

Lemma walk_head :
  walk json.reset json.emptyBuilder envelopeHead
  = Some (inMessage, atMessage (String dquote "")).
Proof. vm_compute. reflexivity. Qed.

Lemma walk_message (esc : string) :
  strRun json.fnInString esc = Some json.fnInString ->
  walk json.reset json.emptyBuilder (envelopeHead ++ esc)
  = Some (inMessage, atMessage (String dquote esc)).
Proof.
  intros H. rewrite walk_app, walk_head.
  rewrite (walk_string esc inMessage (atMessage (String dquote "")) json.fnInString
             (String dquote "") H eq_refl eq_refl).
  reflexivity.
Qed.

Lemma close_message (esc k : string) :
  json.unquote (String dquote (esc ++ String dquote "")) = Some k ->
  json.decodeLoop inMessage (atMessage (String dquote esc)) (String dquote "}")
  = Some (json.JObject [("status", json.JString "Error"); ("error", json.JString k)]).
Proof.
  intros H. cbn [json.decodeLoop].
  replace (json.callStep inMessage dquote)
    with (json.scanContinue, json.setStep inMessage json.fnEndValue) by reflexivity.
  cbn [json.build atMessage json.lit json.stack append].
  replace (json.callStep (json.setStep inMessage json.fnEndValue) "}")
    with (json.scanEndObject,
          {| json.step := json.fnEndTop; json.endTop := true;
             json.parseState := []; json.err := None |}) by reflexivity.
  cbn [json.build json.pending json.done json.lit json.stack json.literalValue].
  replace ((dquote =? "n")%char) with false by reflexivity.
  replace ((dquote =? "t")%char) with false by reflexivity.
  replace ((dquote =? "f")%char) with false by reflexivity.
  replace ((dquote =? dquote)%char) with true by reflexivity.
  rewrite H. reflexivity.
Qed.

Lemma frame_message :
  forall k : nat,
    json.scanLoop inMessage (String dquote "}") k = json.Found (S (S k)).
Proof. intros k. reflexivity. Qed.

Lemma unquote_appendString (msg : string) :
  allAscii msg = true -> json.unquote (json.appendString msg) = Some msg.
Proof.
  intros Ha. unfold json.appendString, q, json.unquote. rewrite dropLast_snoc.
  replace ((dquote =? dquote)%char) with true by reflexivity. cbn [andb].
  apply (unquote_escaped msg (String.length msg)); [exact Ha | apply le_n | apply le_n].
Qed.

(** X16: the body of every error answer is JSON that reads back.  For
    any message, what the encoder writes for a Response of status
    "Error" with that message is the envelope, and it is exactly one JSON
    value, closed by its last byte, so a reader of the body (the
    envelope and the encoder's newline) frames it whole; decoding it
    gives an object with the two members "status", the string "Error",
    and "error", a string, in this order; and if the message is ASCII
    that string is the message itself, whatever quotes, backslashes,
    control or HTML characters it holds. *)
Theorem error_body_reads_back (msg : string) :
  json.Marshal (response.toAny {| response.Status := response.StatusError;
                                  response.Error := msg |})
  = inl (envelope msg)
  /\ oneValue (envelope msg)
  /\ json.readValue (envelope msg ++ String newline "")
     = inl (String.length (envelope msg))
  /\ exists said : string,
       json.decodeLoop json.reset json.emptyBuilder (envelope msg)
       = Some (json.JObject [("status", json.JString "Error");
                             ("error", json.JString said)])
       /\ (allAscii msg = true -> said = msg).
Proof.
  assert (Hone : oneValue (envelope msg)).
  { unfold oneValue. rewrite envelope_shape, <- append_assoc.
    pose proof (escaped_accepted (String.length msg) msg) as Hrun.
    rewrite (scanLoop_walk _ _ _ _ _ (walk_message _ Hrun)), frame_message.
    f_equal. rewrite !length_append. cbn [String.length]. lia. }
  split; [reflexivity|]. split; [exact Hone|]. split.
  - unfold json.readValue. unfold oneValue in Hone.
    now rewrite (scanLoop_append _ (String newline "") _ _ _ Hone).
  - pose proof (escaped_accepted (String.length msg) msg) as Hrun.
    destruct (unquote_total _ Hrun) as [k Hk]. exists k. split.
    + rewrite envelope_shape, <- append_assoc.
      rewrite (decodeLoop_walk _ _ _ _ _ (walk_message _ Hrun)).
      now apply close_message.
    + intros Ha. pose proof (unquote_appendString msg Ha) as Hu.
      unfold json.appendString, q in Hu. rewrite Hu in Hk. now inversion Hk.
Qed.

(** ** Numbers: strconv.Itoa read back *)

(** The first digit is none of zero. *)
Definition headNonzero (d : Decimal.uint) : bool :=
  match d with
  | Decimal.Nil | Decimal.D0 _ => false
  | _ => true
  end.

Lemma unorm_head (d : Decimal.uint) :
  Decimal.unorm d = Decimal.D0 Decimal.Nil \/ headNonzero (Decimal.unorm d) = true.
Proof.
  induction d; cbn [Decimal.unorm]; try (right; reflexivity); [now left | exact IHd].
Qed.

Lemma to_uint_head (p : positive) : headNonzero (Pos.to_uint p) = true.
Proof.
  assert (Hn : Decimal.unorm (Pos.to_uint p) = Pos.to_uint p).
  { rewrite <- DecimalPos.Unsigned.to_of, DecimalPos.Unsigned.of_to. reflexivity. }
  destruct (unorm_head (Pos.to_uint p)) as [H | H]; rewrite Hn in H.
  - now apply DecimalPos.Unsigned.to_uint_nonzero in H.
  - exact H.
Qed.

(** The value of a sequence of digits after the value [acc] of the
    digits before it. *)
Fixpoint digitsOf (d : Decimal.uint) (acc : Z) : Z :=
  match d with
  | Decimal.Nil => acc
  | Decimal.D0 l => digitsOf l (10 * acc)
  | Decimal.D1 l => digitsOf l (10 * acc + 1)
  | Decimal.D2 l => digitsOf l (10 * acc + 2)
  | Decimal.D3 l => digitsOf l (10 * acc + 3)
  | Decimal.D4 l => digitsOf l (10 * acc + 4)
  | Decimal.D5 l => digitsOf l (10 * acc + 5)
  | Decimal.D6 l => digitsOf l (10 * acc + 6)
  | Decimal.D7 l => digitsOf l (10 * acc + 7)
  | Decimal.D8 l => digitsOf l (10 * acc + 8)
  | Decimal.D9 l => digitsOf l (10 * acc + 9)
  end.

Lemma digitsValue_uint (d : Decimal.uint) :
  forall acc, json.digitsValue (NilEmpty.string_of_uint d) acc = Some (digitsOf d acc).
Proof.
  induction d; intros acc; cbn [NilEmpty.string_of_uint json.digitsValue digitsOf];
    [reflexivity | ..];
    match goal with
    | |- context [is_digit ?c] => replace (is_digit c) with true by reflexivity
    end;
    rewrite IHd; do 2 f_equal; vm_compute; destruct acc; reflexivity.
Qed.

Lemma of_uint_acc_digits (l : Decimal.uint) :
  forall acc : positive, Z.pos (Pos.of_uint_acc l acc) = digitsOf l (Z.pos acc).
Proof.
  induction l; intros acc; cbn [Pos.of_uint_acc digitsOf]; [reflexivity | ..];
    rewrite IHl; f_equal; lia.
Qed.

Lemma of_uint_digits (l : Decimal.uint) : Z.of_N (Pos.of_uint l) = digitsOf l 0.
Proof.
  induction l; cbn [Pos.of_uint digitsOf]; [reflexivity | exact IHl | ..];
    cbn [Z.of_N]; rewrite of_uint_acc_digits; reflexivity.
Qed.

Lemma digits_to_uint (p : positive) : digitsOf (Pos.to_uint p) 0 = Z.pos p.
Proof. now rewrite <- of_uint_digits, DecimalPos.Unsigned.of_to. Qed.

Definition nonzeroDigits : list ascii :=
  ["1"; "2"; "3"; "4"; "5"; "6"; "7"; "8"; "9"]%char.

Lemma head_digit (d : Decimal.uint) :
  headNonzero d = true ->
  exists c l, NilEmpty.string_of_uint d = String c (NilEmpty.string_of_uint l)
              /\ NilZero.string_of_uint d = NilEmpty.string_of_uint d
              /\ In c nonzeroDigits.
Proof.
  unfold nonzeroDigits.
  destruct d; try discriminate; intros _; eexists; exists d;
    (split; [reflexivity | split; [reflexivity | cbn [In]; tauto]]).
Qed.

Ltac each_digit H :=
  cbn [In nonzeroDigits] in H;
  repeat (destruct H as [H | H]; [subst | ]); [.. | contradiction].

Lemma ParseInt_uint (d : Decimal.uint) :
  headNonzero d = true ->
  json.ParseInt (NilEmpty.string_of_uint d)
  = (if digitsOf d 0 <? 2 ^ 63 then Some (digitsOf d 0) else None)
  /\ json.ParseInt (String "-" (NilEmpty.string_of_uint d))
     = (if digitsOf d 0 <=? 2 ^ 63 then Some (- digitsOf d 0) else None).
Proof.
  intros H. pose proof (digitsValue_uint d 0) as Hd.
  destruct (head_digit d H) as (c & l & E & _ & Hc). rewrite E in *.
  unfold json.ParseInt.
  each_digit Hc;
    (split;
     [ match goal with
       | |- context [(?a =? "+")%char] => replace ((a =? "+")%char) with false by reflexivity
       end;
       match goal with
       | |- context [(?a =? "-")%char] => replace ((a =? "-")%char) with false by reflexivity
       end; cbn [orb]; rewrite Hd; reflexivity
     | replace (("-" =? "+")%char) with false by reflexivity;
       replace (("-" =? "-")%char) with true by reflexivity;
       cbn [orb]; rewrite Hd; reflexivity ]).
Qed.

Lemma ParseInt_Itoa (n : Z) : - 2 ^ 63 <= n < 2 ^ 63 -> json.ParseInt (Itoa n) = Some n.
Proof.
  intros Hn. unfold Itoa. destruct n as [|p|p]; cbn [Z.to_int NilZero.string_of_int].
  - reflexivity.
  - destruct (head_digit _ (to_uint_head p)) as (_ & _ & _ & E & _). rewrite E.
    rewrite (proj1 (ParseInt_uint _ (to_uint_head p))), digits_to_uint.
    destruct (Z.ltb_spec (Z.pos p) (2 ^ 63)); [reflexivity | lia].
  - destruct (head_digit _ (to_uint_head p)) as (_ & _ & _ & E & _). rewrite E.
    rewrite (proj2 (ParseInt_uint _ (to_uint_head p))), digits_to_uint.
    destruct (Z.leb_spec (Z.pos p) (2 ^ 63)); [reflexivity | lia].
Qed.

Lemma literalValue_Itoa (n : Z) :
  json.literalValue (Itoa n) = Some (json.JNumber (Itoa n)).
Proof.
  unfold Itoa. destruct n as [|p|p]; cbn [Z.to_int NilZero.string_of_int];
    [reflexivity | | reflexivity].
  destruct (head_digit _ (to_uint_head p)) as (c & l & E1 & E2 & Hc).
  rewrite E2, E1. each_digit Hc; reflexivity.
Qed.

(** *** The scanner and the builder over a number *)

Lemma callStep_digit (s : json.scanner) (c : ascii) :
  json.step s = json.fn1 -> is_digit c = true ->
  json.callStep s c = (json.scanContinue, s).
Proof.
  intros Hs Hc. unfold json.callStep. rewrite Hs. unfold json.state1. rewrite Hc.
  rewrite <- Hs, setStep_same. reflexivity.
Qed.

Lemma walk_digits_after (d : Decimal.uint) :
  forall (s : json.scanner) (b : json.builder) (raw : string),
    json.step s = json.fn1 -> json.lit b = Some raw -> json.done b = None ->
    walk s b (NilEmpty.string_of_uint d)
    = Some (s, {| json.stack := json.stack b;
                  json.lit := Some (raw ++ NilEmpty.string_of_uint d);
                  json.done := None |}).
Proof.
  induction d; intros s b raw Hs Hl Hd;
    cbn [NilEmpty.string_of_uint walk];
    [ rewrite append_nil_r; destruct b; cbn in *; now subst | ..];
    match goal with
    | |- context [json.callStep s ?c] => rewrite (callStep_digit s c Hs eq_refl)
    end;
    cbn [json.build]; rewrite Hl;
    (erewrite IHd; [| exact Hs | reflexivity | reflexivity]);
    cbn [json.stack]; now rewrite append_assoc.
Qed.

(** The scanner after a number that began a value. *)
Definition afterNumber (s : json.scanner) (n : Z) : json.scanner :=
  json.setStep s (if n =? 0 then json.fn0 else json.fn1).

Lemma walk_Itoa (n : Z) (s : json.scanner) (b : json.builder) :
  json.step s = json.fnBeginValue ->
  walk s b (Itoa n)
  = Some (afterNumber s n,
          {| json.stack := json.stack b; json.lit := Some (Itoa n); json.done := None |}).
Proof.
  intros Hs. unfold Itoa, afterNumber.
  destruct n as [|p|p]; cbn [Z.to_int NilZero.string_of_int Z.eqb].
  - cbn [NilZero.string_of_uint NilEmpty.string_of_uint walk].
    unfold json.callStep. rewrite Hs. reflexivity.
  - destruct (head_digit _ (to_uint_head p)) as (c & l & E1 & E2 & Hc).
    rewrite E2, E1. cbn [walk].
    assert (Hc1 : json.callStep s c = (json.scanBeginLiteral, json.setStep s json.fn1)).
    { unfold json.callStep. rewrite Hs. each_digit Hc; reflexivity. }
    rewrite Hc1. cbn [json.build].
    rewrite (walk_digits_after l _ _ (String c "")); reflexivity.
  - destruct (head_digit _ (to_uint_head p)) as (c & l & E1 & E2 & Hc).
    rewrite E2, E1. cbn [walk].
    replace (json.callStep s "-") with (json.scanBeginLiteral, json.setStep s json.fnNeg)
      by (unfold json.callStep; rewrite Hs; reflexivity).
    cbn [json.build].
    assert (Hc1 : json.callStep (json.setStep s json.fnNeg) c
                  = (json.scanContinue, json.setStep s json.fn1)).
    { each_digit Hc; reflexivity. }
    rewrite Hc1. cbn [json.build json.lit json.stack append].
    rewrite (walk_digits_after l _ _ (String "-" (String c ""))); reflexivity.
Qed.

(** ** A student written as JSON is read back *)

(** The JSON text of a student as encoding/json writes a struct: the
    members in the order of the fields, under the keys of the [json]
    tags, strings escaped as the encoder escapes them, the age in
    decimal. *)
Definition studentJSON (s : types.Student) : string :=
  "{" ++ q "name" ++ ":" ++ json.appendString (types.Name s)
  ++ "," ++ q "email" ++ ":" ++ json.appendString (types.Email s)
  ++ "," ++ q "age" ++ ":" ++ Itoa (types.Age s) ++ "}".

Definition escaped (s : string) : string := json.appendString_loop (String.length s) s.

Definition openName : string := jsonText "{'name':'".
Definition toEmail : string := jsonText "','email':'".
Definition toAge : string := jsonText "','age':".

Lemma studentJSON_shape (s : types.Student) :
  studentJSON s
  = (openName ++ escaped (types.Name s) ++ toEmail ++ escaped (types.Email s)
     ++ toAge ++ Itoa (types.Age s)) ++ "}".
Proof.
  unfold studentJSON, json.appendString, q. fold (escaped (types.Name s)).
  fold (escaped (types.Email s)).
  assert (H1 : openName = ltac:(let v := eval vm_compute in openName in exact v))
    by (vm_compute; reflexivity).
  assert (H2 : toEmail = ltac:(let v := eval vm_compute in toEmail in exact v))
    by (vm_compute; reflexivity).
  assert (H3 : toAge = ltac:(let v := eval vm_compute in toAge in exact v))
    by (vm_compute; reflexivity).
  rewrite H1, H2, H3.
  repeat (progress (rewrite ?append_assoc; cbn [append])).
  reflexivity.
Qed.

(** The builder inside an object with the members [ms] read, at the
    value of [key]. *)
Definition inObject (ms : list (string * json.jvalue)) (key : string)
    (raw : option string) : json.builder :=
  {| json.stack := [json.PObject ms (Some key)]; json.lit := raw; json.done := None |}.

(** The scanner where the value of a member begins. *)
Definition atValue : json.scanner :=
  {| json.step := json.fnBeginValue; json.endTop := false;
     json.parseState := [json.parseObjectValue]; json.err := None |}.

Definition inside (op : json.Op) : bool :=
  match op with
  | json.scanEnd | json.scanError | json.scanEndObject | json.scanEndArray => false
  | _ => true
  end.

Lemma walk_step (s s' : json.scanner) (b b' : json.builder) (c : ascii) (rest : string)
    (op : json.Op) :
  json.callStep s c = (op, s') -> inside op = true -> json.build b op c = Some b' ->
  walk s b (String c rest) = walk s' b' rest.
Proof.
  intros Hc Hi Hb. cbn [walk]. rewrite Hc. destruct op; try discriminate Hi; now rewrite Hb.
Qed.

Ltac walk1 tac :=
  match goal with
  | |- walk ?s ?b (String ?c ?rest) = _ =>
      let r := eval vm_compute in (json.callStep s c) in
      match r with
      | (?op, ?s') =>
          erewrite (walk_step s s' b _ c rest op);
          [ | vm_compute; reflexivity | reflexivity
            | cbn [json.build json.lit json.stack json.done json.pending append];
              tac; reflexivity ]
      end
  end.

Ltac unquote_key :=
  match goal with
  | |- context [json.unquote ?r] =>
      let v := eval vm_compute in (json.unquote r) in
      change (json.unquote r) with v
  end.

Lemma walk_openName :
  walk json.reset json.emptyBuilder openName
  = Some (inMessage, inObject [] "name" (Some (String dquote ""))).
Proof. vm_compute. reflexivity. Qed.

Lemma literalValue_quoted (esc k : string) :
  json.unquote (String dquote (esc ++ String dquote "")) = Some k ->
  json.literalValue (String dquote (esc ++ String dquote "")) = Some (json.JString k).
Proof.
  intros H. cbn [json.literalValue].
  replace ((dquote =? "n")%char) with false by reflexivity.
  replace ((dquote =? "t")%char) with false by reflexivity.
  replace ((dquote =? "f")%char) with false by reflexivity.
  replace ((dquote =? dquote)%char) with true by reflexivity.
  now rewrite H.
Qed.

Lemma walk_toEmail (ms : list (string * json.jvalue)) (key esc k : string) :
  json.unquote (String dquote (esc ++ String dquote "")) = Some k ->
  walk inMessage (inObject ms key (Some (String dquote esc))) toEmail
  = Some (inMessage,
          inObject (ms ++ [(key, json.JString k)]) "email" (Some (String dquote ""))).
Proof.
  intros H. apply literalValue_quoted in H.
  assert (H2 : toEmail = ltac:(let v := eval vm_compute in toEmail in exact v))
    by (vm_compute; reflexivity).
  rewrite H2. unfold inObject, dquote in *.
  walk1 idtac. walk1 ltac:(rewrite H; cbn [option_map]).
  do 7 (walk1 idtac).
  walk1 ltac:(idtac; unquote_key). walk1 idtac. reflexivity.
Qed.

Lemma walk_toAge (ms : list (string * json.jvalue)) (key esc k : string) :
  json.unquote (String dquote (esc ++ String dquote "")) = Some k ->
  walk inMessage (inObject ms key (Some (String dquote esc))) toAge
  = Some (atValue, inObject (ms ++ [(key, json.JString k)]) "age" None).
Proof.
  intros H. apply literalValue_quoted in H.
  assert (H2 : toAge = ltac:(let v := eval vm_compute in toAge in exact v))
    by (vm_compute; reflexivity).
  rewrite H2. unfold inObject, dquote in *.
  walk1 idtac. walk1 ltac:(rewrite H; cbn [option_map]).
  do 5 (walk1 idtac).
  walk1 ltac:(idtac; unquote_key). reflexivity.
Qed.

(** The closing brace after a number. *)
Lemma close_number (ms : list (string * json.jvalue)) (key : string) (n : Z) :
  json.decodeLoop (afterNumber atValue n) (inObject ms key (Some (Itoa n))) "}"
  = Some (json.JObject (ms ++ [(key, json.JNumber (Itoa n))]))
  /\ forall k : nat, json.scanLoop (afterNumber atValue n) "}" k = json.Found (S k).
Proof.
  unfold afterNumber. split.
  - cbn [json.decodeLoop].
    replace (json.callStep (json.setStep atValue (if n =? 0 then json.fn0 else json.fn1)) "}")
      with (json.scanEndObject,
            {| json.step := json.fnEndTop; json.endTop := true;
               json.parseState := []; json.err := None |})
      by (destruct (n =? 0); reflexivity).
    cbn [json.build json.pending inObject json.done json.lit json.stack].
    rewrite literalValue_Itoa. reflexivity.
  - intros k. destruct (n =? 0); reflexivity.
Qed.

Lemma walk_escaped (ms : list (string * json.jvalue)) (key msg : string) :
  walk inMessage (inObject ms key (Some (String dquote ""))) (escaped msg)
  = Some (inMessage, inObject ms key (Some (String dquote (escaped msg)))).
Proof.
  unfold escaped.
  rewrite (walk_string _ inMessage (inObject ms key (Some (String dquote "")))
             json.fnInString (String dquote "")
             (escaped_accepted _ _) eq_refl eq_refl).
  reflexivity.
Qed.

Lemma unquote_escaped_quoted (msg : string) :
  allAscii msg = true ->
  json.unquote (String dquote (escaped msg ++ String dquote "")) = Some msg.
Proof. exact (unquote_appendString msg). Qed.

Lemma walk_student (n e : string) (a : Z) :
  allAscii n = true -> allAscii e = true ->
  walk json.reset json.emptyBuilder
       (openName ++ escaped n ++ toEmail ++ escaped e ++ toAge ++ Itoa a)
  = Some (afterNumber atValue a,
          inObject [("name", json.JString n); ("email", json.JString e)] "age"
                   (Some (Itoa a))).
Proof.
  intros Hn He.
  rewrite walk_app, walk_openName. cbv beta iota.
  rewrite walk_app, walk_escaped. cbv beta iota.
  rewrite walk_app, (walk_toEmail _ _ _ n (unquote_escaped_quoted n Hn)). cbv beta iota.
  rewrite walk_app, walk_escaped. cbv beta iota.
  rewrite walk_app, (walk_toAge _ _ _ e (unquote_escaped_quoted e He)). cbv beta iota.
  rewrite (walk_Itoa a atValue _ eq_refl). reflexivity.
Qed.

Lemma store_student (n e : string) (a : Z) :
  - 2 ^ 63 <= a < 2 ^ 63 ->
  json.storeStruct types.Student_type (types.values types.zero)
    (json.JObject [("name", json.JString n); ("email", json.JString e);
                   ("age", json.JNumber (Itoa a))])
  = ([VString n; VString e; VInt a], None).
Proof.
  intros Ha. apply ParseInt_Itoa in Ha.
  unfold json.storeStruct. cbn [fold_left]. unfold json.storeMember. cbn [fst snd].
  replace (json.findField (typeFields types.Student_type) "name")
    with (Some (0%nat, {| fieldName := "Name"; fieldJSON := "name"; fieldKind := KString;
                          fieldValidate := [required] |})) by reflexivity.
  replace (json.findField (typeFields types.Student_type) "email")
    with (Some (1%nat, {| fieldName := "Email"; fieldJSON := "email"; fieldKind := KString;
                          fieldValidate := [required; email] |})) by reflexivity.
  replace (json.findField (typeFields types.Student_type) "age")
    with (Some (2%nat, {| fieldName := "Age"; fieldJSON := "age"; fieldKind := KInt;
                          fieldValidate := [required; gt 0] |})) by reflexivity.
  cbn [json.literalStore fieldKind types.values types.zero types.Name types.Email
       types.Age json.setNth].
  rewrite Ha. reflexivity.
Qed.

(** X17: a student written as JSON is read back unchanged.  For every
    student whose name and e-mail address are ASCII and whose age fits
    64 bits, the decoder, given the JSON text of the student, returns
    that student and no error, whatever quotes, backslashes, control or
    HTML characters the strings hold; the handler then answers by the
    validation of that student alone. *)
Theorem encoded_student_is_decoded :
  forall (baked : validator.BakedIn) (connErr : option error) (s : types.Student),
    allAscii (types.Name s) = true ->
    allAscii (types.Email s) = true ->
    - 2 ^ 63 <= types.Age s < 2 ^ 63 ->
    student.decode (studentJSON s) = Returned (s, None)
    /\ student.serve connErr (studentJSON s)
       = match failureMessages s with
         | [] => answered connErr http.StatusCreated successBody
         | msgs => answered connErr http.StatusBadRequest
                     (envelope (String.concat ", " msgs))
         end.
Proof.
  intros baked connErr [n e a]; cbn [types.Name types.Email types.Age].
  intros Hn He Ha.
  assert (Hd : student.decode (studentJSON {| types.Name := n; types.Email := e;
                                              types.Age := a |})
               = Returned ({| types.Name := n; types.Email := e; types.Age := a |}, None)).
  { pose proof (walk_student n e a Hn He) as Hw.
    destruct (close_number [("name", json.JString n); ("email", json.JString e)] "age" a)
      as [Hc Hf].
    assert (Hr : json.readValue (studentJSON {| types.Name := n; types.Email := e;
                                                types.Age := a |})
                 = inl (String.length (studentJSON {| types.Name := n; types.Email := e;
                                                      types.Age := a |}))).
    { unfold json.readValue. rewrite studentJSON_shape.
      cbn [types.Name types.Email types.Age].
      rewrite (scanLoop_walk _ _ _ _ _ Hw), Hf. cbv beta iota. f_equal.
      rewrite !length_append. cbn [String.length]. lia. }
    unfold student.decode, json.Decode. rewrite Hr, take_length.
    rewrite studentJSON_shape. cbn [types.Name types.Email types.Age].
    rewrite (decodeLoop_walk _ _ _ _ _ Hw), Hc.
    cbn [app]. rewrite (store_student n e a Ha). reflexivity. }
  split; [exact Hd|].
  exact (serve_validated connErr _ _ Hd).
Qed.

(** A student whose name holds quotes, a backslash and angle brackets. *)
Definition quotedAnn : types.Student :=
  {| types.Name := "Ann " ++ q "A" ++ String bslash " <Lee>";
     types.Email := "ann@example.com"; types.Age := 20 |}.

Lemma encoded_student_is_decoded_witness :
  student.decode (studentJSON quotedAnn) = Returned (quotedAnn, None)
  /\ @student.serve testBakedIn None (studentJSON quotedAnn)
     = answered None http.StatusCreated successBody.
Proof.
  apply (encoded_student_is_decoded testBakedIn None quotedAnn).
  - reflexivity.
  - reflexivity.
  - vm_compute. split; [discriminate | reflexivity].
Defined.

(** ** WriteJson and a payload that cannot be encoded *)

(** X18: WriteJson fixes the status before it encodes the payload.  On
    a new response writer, with a status code from 200 to 999, a
    payload that encoding/json cannot serialise makes WriteJson return
    the encoder's error after the status has been fixed for the
    response: no body is written, Write is never called, and the error
    is told to the caller only.  The JSON content type is in the header
    map and goes out with the status, except with a 304, for which the
    server suppresses it. *)
Theorem WriteJson_fails_after_the_status :
  forall (connErr : option error) (code : Z) (payload : any) (e : error),
    json.Marshal payload = inr e ->
    200 <= code <= 999 ->
    exists w',
      response.WriteJson code payload (http.newResponse connErr) = (Returned (Some e), w')
      /\ http.wroteHeader w' = true /\ http.status w' = code
      /\ http.header w' = [contentTypeJSON]
      /\ http.sentHeader w'
         = (if code =? http.StatusNotModified then [] else [contentTypeJSON])
      /\ http.written w' = ""
      /\ http.calls w' = [http.CallHeaderSet "Content-Type" "application/json";
                          http.CallWriteHeader code].
Proof.
  intros connErr code payload e HM Hcode.
  unfold response.WriteJson, bind, http.Header_Set, http.WriteHeader, json.Encode.
  rewrite HM. unfold http.writeHeader, http.record, http.newResponse, ret.
  cbn [http.calls http.header http.wroteHeader http.status http.sentHeader
       http.informational http.written http.connErr app filter].
  destruct (Z.ltb_spec code 100); [lia|]. destruct (Z.ltb_spec 999 code); [lia|].
  destruct (Z.leb_spec code 199); [lia|]. rewrite andb_false_r. cbn [orb andb].
  eexists; split; [reflexivity|].
  cbn [http.calls http.header http.wroteHeader http.status http.sentHeader http.written].
  repeat split.
  unfold http.sentWith, http.suppressedHeaders.
  destruct (Z.eqb_spec code http.StatusNotModified); [reflexivity|].
  destruct (negb (http.bodyAllowedForStatus code)); reflexivity.
Qed.

Lemma WriteJson_fails_after_the_status_witness :
  exists w',
    response.WriteJson 304 any_func (http.newResponse None)
    = (Returned (Some (UnsupportedTypeError "func()")), w')
    /\ http.wroteHeader w' = true /\ http.status w' = 304
    /\ http.header w' = [contentTypeJSON]
    /\ http.sentHeader w' = []
    /\ http.written w' = ""
    /\ http.calls w' = [http.CallHeaderSet "Content-Type" "application/json";
                        http.CallWriteHeader 304].
Proof.
  apply (WriteJson_fails_after_the_status None 304 any_func (UnsupportedTypeError "func()")).
  - reflexivity.
  - lia.
Defined.
